(** * LinkedIn data extractor: interception cascade and consolidation store

    A shallow embedding of the classification and decode-fallback logic of
    the main-world interceptor and of the storage operations and message
    router of the service worker (src/background/service-worker.js), with
    the properties the design document states about them.

    Modelling conventions.
    - A JavaScript value is a [value]: numbers are integers ([Z]), strings
      are [string]s of one-byte characters, objects are association lists
      in property order, arrays are lists.  Values reach the service worker
      through message passing and storage, so they are JSON-like trees
      without sharing.
    - An exception raised inside a [try] block is the [Throw] result of the
      [res] monad; the [catch] of every storage operation turns it into the
      [{success: false, error}] response and leaves the storage untouched.
    - [chrome.storage.local] is a finite map from key to value that never
      fails; [new Date().toISOString()] is a parameter [now] of each
      operation (one reading of the clock per operation). *)

From Stdlib Require Import ZArith String Ascii List Bool Lia Sorted Permutation.
From stdpp Require Import base option list gmap strings pretty.

#[global] Set Warnings "-register-all".

Local Open Scope string_scope.
Local Open Scope Z_scope.
Local Open Scope list_scope.

(** ** JavaScript values *)

Module JS.

Inductive value : Type :=
| VUndef
| VNull
| VBool (b : bool)
| VNum (n : Z)
| VStr (s : string)
| VArr (xs : list value)
| VObj (fs : list (string * value)).

(** Results of code that may raise: [Throw msg] is a raised [Error] whose
    [message] is [msg] (the wording of engine messages is approximate). *)
Inductive res (A : Type) : Type :=
| Ok (a : A)
| Throw (msg : string).
Arguments Ok {A} a.
Arguments Throw {A} msg.

#[global] Instance res_ret : MRet res := fun A a => Ok a.
#[global] Instance res_bind : MBind res := fun A B f m =>
  match m with Ok a => f a | Throw msg => Throw msg end.

(** [xs.forEach(f)] / [for ... of] with a body that may raise, threading the
    variables the body assigns. *)
Fixpoint foldM {S A : Type} (f : S -> A -> res S) (xs : list A) (s : S) : res S :=
  match xs with
  | [] => Ok s
  | x :: xs' => s' ← f s x; foldM f xs' s'
  end.

(** ToBoolean. *)
Definition truthy (v : value) : bool :=
  match v with
  | VUndef | VNull => false
  | VBool b => b
  | VNum n => negb (n =? 0)
  | VStr s => negb (String.eqb s "")
  | VArr _ | VObj _ => true
  end.

(** [a || b]. *)
Definition js_or (a b : value) : value := if truthy a then a else b.

(** Own properties of an object.  A key bound twice denotes its last
    binding (as [JSON.parse] and object literals have it). *)
Fixpoint get_field (k : string) (fs : list (string * value)) : option value :=
  match fs with
  | [] => None
  | (k', v) :: fs' =>
      match get_field k fs' with
      | Some w => Some w
      | None => if String.eqb k' k then Some v else None
      end
  end.

Definition has_field (k : string) (fs : list (string * value)) : bool :=
  existsb (fun kv => String.eqb (fst kv) k) fs.

(** [o[k] = v]: an existing property keeps its place, a new one goes last. *)
Definition set_field (k : string) (v : value) (fs : list (string * value))
  : list (string * value) :=
  if has_field k fs
  then map (fun kv => if String.eqb (fst kv) k then (fst kv, v) else kv) fs
  else (fs ++ [(k, v)])%list.

(** [{...acc, ...src}]: an object contributes its properties in order;
    [undefined], [null], numbers and booleans contribute nothing.  (Strings
    and arrays would contribute index properties; no spread in the modelled
    code is applied to one: a spread operand has passed a truthiness test on
    one of its named properties.) *)
Definition spread (src : value) (acc : list (string * value)) : list (string * value) :=
  match src with
  | VObj fs => fold_left (fun a kv => set_field (fst kv) (snd kv) a) fs acc
  | _ => acc
  end.

(** [v.k]: raises on [undefined] and [null]. *)
Definition prop (v : value) (k : string) : res value :=
  match v with
  | VUndef => Throw "Cannot read properties of undefined"
  | VNull => Throw "Cannot read properties of null"
  | VObj fs => Ok (default VUndef (get_field k fs))
  | VArr xs => Ok (if String.eqb k "length" then VNum (Z.of_nat (length xs)) else VUndef)
  | VStr s => Ok (if String.eqb k "length" then VNum (Z.of_nat (String.length s)) else VUndef)
  | _ => Ok VUndef
  end.

(** [v?.k]. *)
Definition prop_opt (v : value) (k : string) : value :=
  match prop v k with Ok w => w | Throw _ => VUndef end.

(** [(v || 0)] read as a number, for [v] a number or an absent, [null] or
    [false] property; [true] counts 1.  Other kinds of value (numeric
    strings, arrays, objects) are outside the modelled numbers and read 0. *)
Definition num_or0 (v : value) : Z :=
  match v with
  | VNum n => n
  | VBool true => 1
  | _ => 0
  end.

(** [Math.round(a / b)] for integers [a] and [b > 0]: halves round up. *)
Definition round_div (a b : Z) : Z := (2 * a + b) / (2 * b).

(** The receiver of [xs.forEach], [xs.findIndex], [xs.reduce], ... *)
Definition array_of (what : string) (v : value) : res (list value) :=
  match v with
  | VArr xs => Ok xs
  | VUndef => Throw "Cannot read properties of undefined"
  | VNull => Throw "Cannot read properties of null"
  | _ => Throw (what +:+ " is not a function")
  end.

(** *** Strings *)

Definition lower_ascii (c : ascii) : ascii :=
  let n := nat_of_ascii c in
  if ((65 <=? n)%nat && (n <=? 90)%nat)%bool then ascii_of_nat (n + 32) else c.

Fixpoint toLowerCase (s : string) : string :=
  match s with
  | EmptyString => EmptyString
  | String c s' => String (lower_ascii c) (toLowerCase s')
  end.

(** [s.includes(p)]. *)
Fixpoint includes (s p : string) : bool :=
  String.prefix p s ||
  match s with
  | EmptyString => false
  | String _ s' => includes s' p
  end.

(** *** Array.prototype.sort

    [xs.sort(cmp)] is stable, and for a comparator that is a difference of
    integer keys the stable result is unique; insertion from the right
    computes it.  [cmp a b <= 0] keeps [a] before [b]. *)
Fixpoint insert_by {A : Type} (cmp : A -> A -> Z) (x : A) (xs : list A) : list A :=
  match xs with
  | [] => [x]
  | y :: ys => if cmp x y <=? 0 then x :: y :: ys else y :: insert_by cmp x ys
  end.

Fixpoint sort_by {A : Type} (cmp : A -> A -> Z) (xs : list A) : list A :=
  match xs with
  | [] => []
  | x :: xs' => insert_by cmp x (sort_by cmp xs')
  end.

(** *** Map

    A [Map] keeps its entries in insertion order; [set] on a present key
    replaces the value in place.  Keys are compared by SameValueZero:
    primitives by value, and objects and arrays by identity, which two
    values that came out of JSON never share. *)
Definition jsmap : Type := list (value * value).

Definition same_value_zero (a b : value) : bool :=
  match a, b with
  | VUndef, VUndef => true
  | VNull, VNull => true
  | VBool x, VBool y => Bool.eqb x y
  | VNum x, VNum y => x =? y
  | VStr x, VStr y => String.eqb x y
  | _, _ => false
  end.

Fixpoint map_get (k : value) (m : jsmap) : value :=
  match m with
  | [] => VUndef
  | (k', v) :: m' => if same_value_zero k' k then v else map_get k m'
  end.

Definition map_has (k : value) (m : jsmap) : bool :=
  existsb (fun kv => same_value_zero (fst kv) k) m.

Fixpoint map_set (k v : value) (m : jsmap) : jsmap :=
  match m with
  | [] => [(k, v)]
  | (k', v') :: m' =>
      if same_value_zero k' k then (k', v) :: m' else (k', v') :: map_set k v m'
  end.

Definition map_values (m : jsmap) : list value := map snd m.

End JS.
Export JS.

(** ** Main-world interceptor (classification and the JSON.parse tier) *)

Module Interceptor.

Definition capturePatterns : list string :=
  ["/voyager/api/"; "/voyagerMessagingGraphQL/"; "/li/track"].

Definition shouldCapture (url : string) : bool :=
  existsb (fun p => includes url p) capturePatterns.

(** [graphqlCategories], in the order [Object.entries] enumerates it. *)
Definition graphqlCategories : list (string * list string) :=
  [ ("feed", ["voyagerFeedDashMainFeed"; "voyagerFeedDashFeedUpdate";
              "voyagerFeedDashRecommendedFeed"]);
    ("myPosts", ["voyagerFeedDashProfileUpdates"; "voyagerFeedDashMemberActivityFeed"]);
    ("comments", ["voyagerSocialDashComments"; "voyagerSocialDashReplies"]);
    ("reactions", ["voyagerSocialDashReactions"; "voyagerSocialDashReactors"]);
    ("messaging", ["messengerMailboxCounts"; "messengerConversations"; "messengerMessages"]);
    ("profile", ["voyagerIdentityDashProfiles"; "voyagerIdentityDashProfileCards"]);
    ("network", ["voyagerRelationshipsDashConnections"; "voyagerRelationshipsDashFollowers"]);
    ("analytics", ["voyagerCreatorDashAnalytics"; "voyagerContentDashAnalytics";
                   "voyagerIdentityDashWvmp"]) ].

Definition is_letter (c : ascii) : bool :=
  let n := nat_of_ascii c in
  (((65 <=? n)%nat && (n <=? 90)%nat) || ((97 <=? n)%nat && (n <=? 122)%nat))%bool.

(** The longest run of letters at the start of [s]: the group [[a-zA-Z]+]. *)
Fixpoint letters (s : string) : string :=
  match s with
  | EmptyString => EmptyString
  | String c s' => if is_letter c then String c (letters s') else EmptyString
  end.

Fixpoint strip_prefix (p s : string) : option string :=
  match p, s with
  | EmptyString, _ => Some s
  | String a p', String b s' => if Ascii.eqb a b then strip_prefix p' s' else None
  | String _ _, EmptyString => None
  end.

(** [String(url).match(/queryId=([a-zA-Z]+)/)]: the leftmost position where
    [queryId=] is followed by at least one letter; [null] is [None]. *)
Fixpoint extractQueryId (url : string) : option string :=
  match url with
  | EmptyString => None
  | String _ rest =>
      match strip_prefix "queryId=" url with
      | Some after =>
          match letters after with
          | EmptyString => extractQueryId rest
          | q => Some q
          end
      | None => extractQueryId rest
      end
  end.

Definition categorize (url : string) : string :=
  let byUrl :=
    let urlStr := toLowerCase url in
    if includes urlStr "feed" then "feed"
    else if includes urlStr "messaging" then "messaging"
    else if includes urlStr "identity" || includes urlStr "profile" then "profile"
    else if includes urlStr "relationship" || includes urlStr "connection" then "network"
    else if includes urlStr "analytics" || includes urlStr "wvmp" then "analytics"
    else "other" in
  match extractQueryId url with
  | Some queryId =>
      match find (fun entry =>
                    existsb (fun p => includes (toLowerCase queryId) (toLowerCase p))
                            (snd entry))
                 graphqlCategories with
      | Some entry => fst entry
      | None => byUrl
      end
  | None => byUrl
  end.

(** *** The JSON.parse tier

    The tier keeps the URL and time of the last tracked request
    ([lastVoyagerUrl], [lastVoyagerTimestamp]) and the index of pending
    requests.  [Date.now()] is the argument [now] of each step. *)

Record captured : Type := {
  ev_type : string;
  ev_url : string;
  ev_endpoint : string;
  ev_method : string;
  ev_category : string;
  ev_queryId : option string;
  ev_isGraphQL : bool;
  ev_data : value;
  ev_timestamp : Z
}.

Record tracker : Type := {
  lastVoyagerUrl : option string;
  lastVoyagerTimestamp : Z;
  pendingRequests : list (string * (string * Z))
}.

Definition tracker_init : tracker :=
  {| lastVoyagerUrl := None; lastVoyagerTimestamp := 0; pendingRequests := [] |}.

Fixpoint pending_set (id : string) (e : string * Z) (m : list (string * (string * Z)))
  : list (string * (string * Z)) :=
  match m with
  | [] => [(id, e)]
  | (id', e') :: m' =>
      if String.eqb id' id then (id', e) :: m' else (id', e') :: pending_set id e m'
  end.

(** The tracking wrapper of [fetch], up to the call of the wrapped function. *)
Definition trackFetch (url requestId : string) (now : Z) (t : tracker) : tracker :=
  if shouldCapture url
  then {| lastVoyagerUrl := Some url;
          lastVoyagerTimestamp := now;
          pendingRequests := pending_set requestId (url, now) (pendingRequests t) |}
  else t.

(** Its [finally] block: entries older than 10 seconds are deleted. *)
Definition purgePending (now : Z) (t : tracker) : tracker :=
  {| lastVoyagerUrl := lastVoyagerUrl t;
     lastVoyagerTimestamp := lastVoyagerTimestamp t;
     pendingRequests :=
       List.filter (fun e => negb (10000 <? now - snd (snd e))) (pendingRequests t) |}.

(** [result && typeof result === 'object' &&
     (result.included || result.data || result.elements)]; an array is an
    object without these properties. *)
Definition looksLikeResponse (result : value) : bool :=
  match result with
  | VObj _ =>
      truthy (prop_opt result "included") || truthy (prop_opt result "data")
      || truthy (prop_opt result "elements")
  | _ => false
  end.

Section Cascade.

(** [new URL(url, window.location.origin).pathname] depends on the page. *)
Variable getPathname : string -> string.

(** The wrapper of [JSON.parse], after the wrapped function has returned
    [result]: the event it dispatches, if any, and the tracker it leaves. *)
Definition jsonParse (result : value) (now : Z) (t : tracker) : option captured * tracker :=
  match lastVoyagerUrl t with
  | Some url =>
      if negb (String.eqb url "") && (now - lastVoyagerTimestamp t <? 5000) then
        if looksLikeResponse result then
          (if String.eqb (categorize url) "feed" || includes url "Feed"
           then Some {| ev_type := "json-parse";
                        ev_url := url;
                        ev_endpoint := getPathname url;
                        ev_method := "GET";
                        ev_category := categorize url;
                        ev_queryId := extractQueryId url;
                        ev_isGraphQL := includes url "/graphql";
                        ev_data := result;
                        ev_timestamp := now |}
           else None,
           {| lastVoyagerUrl := None;
              lastVoyagerTimestamp := lastVoyagerTimestamp t;
              pendingRequests := pendingRequests t |})
        else (None, t)
      else (None, t)
  | None => (None, t)
  end.

End Cascade.

(** *** The classification rule as the design document words it

    An optional query identifier is matched, ignoring case, against an
    ordered table from category to identifier substrings, and the first
    category that matches wins; when that gives no category, the URL itself
    is matched the same way against a second ordered table; the default is
    ["other"]. *)

(** The second table: the chain of tests on the URL in [categorize]. *)
Definition urlCategories : list (string * list string) :=
  [ ("feed", ["feed"]);
    ("messaging", ["messaging"]);
    ("profile", ["identity"; "profile"]);
    ("network", ["relationship"; "connection"]);
    ("analytics", ["analytics"; "wvmp"]) ].

Definition first_category (table : list (string * list string)) (text : string)
  : option string :=
  fst <$> find (fun entry =>
                  existsb (fun p => includes (toLowerCase text) (toLowerCase p)) (snd entry))
               table.

Definition classify_spec (idTable urlTable : list (string * list string)) (url : string)
  : string :=
  match extractQueryId url ≫= first_category idTable with
  | Some cat => cat
  | None => default "other" (first_category urlTable url)
  end.

End Interceptor.

(** ** Service worker: storage operations *)

Module ServiceWorker.

Module STORAGE_KEYS.
Definition AUTH_DATA := "linkedin_auth".
Definition PROFILE_DATA := "linkedin_profile".
Definition ANALYTICS_DATA := "linkedin_analytics".
Definition POST_ANALYTICS_DATA := "linkedin_post_analytics".
Definition AUDIENCE_DATA := "linkedin_audience".
Definition CONNECTIONS_DATA := "linkedin_connections".
Definition POSTS_DATA := "linkedin_posts".
Definition FEED_POSTS := "linkedin_feed_posts".
Definition MY_POSTS := "linkedin_my_posts".
Definition COMMENTS := "linkedin_comments".
Definition FOLLOWERS := "linkedin_followers".
Definition TRENDING := "linkedin_trending".
Definition CAPTURED_APIS := "captured_apis".
Definition SETTINGS := "extension_settings".
End STORAGE_KEYS.
Import STORAGE_KEYS.

(** [chrome.storage.local]. *)
Abbreviation store := (gmap string value).

(** [result[key] || null], the [data] of [getFromStorage(key)]. *)
Definition stored (key : string) (st : store) : value :=
  js_or (default VUndef (st !! key)) VNull.

Definition failure (msg : string) : value :=
  VObj [("success", VBool false); ("error", VStr msg)].

(** [try { body } catch (error) { return {success: false, error: error.message} }]:
    the body returns its response and the storage it has written. *)
Definition try_catch (st : store) (body : res (value * store)) : value * store :=
  match body with
  | Ok r => r
  | Throw msg => (failure msg, st)
  end.

Definition saveToStorage (key : string) (data : value) (st : store) : value * store :=
  (VObj [("success", VBool true)], <[key := data]> st).

Definition getFromStorage (key : string) (st : store) : value :=
  VObj [("success", VBool true); ("data", stored key st)].

Definition getAllStoredData (st : store) : value :=
  VObj [("success", VBool true); ("data", VObj (map_to_list st))].

Definition clearStorage (st : store) : value * store :=
  (VObj [("success", VBool true)], ∅).

Definition len (xs : list value) : value := VNum (Z.of_nat (length xs)).

(** [xs.slice(-n)]. *)
Definition slice_last (n : nat) (xs : list value) : list value :=
  drop (length xs - n)%nat xs.

(** [appendToStorage(key, newData)].  [API_CAPTURED] passes an object
    literal; the index properties a string or array payload of
    [APPEND_DATA] would spread are not modelled. *)
Definition appendToStorage (now : string) (key : string) (newData : value) (st : store)
  : value * store :=
  try_catch st (
    let currentArray := js_or (stored key st) (VArr []) in
    let dataWithTimestamp := VObj (set_field "capturedAt" (VStr now) (spread newData [])) in
    xs ← array_of "currentArray.push" currentArray;
    let trimmedArray := slice_last 1000 (xs ++ [dataWithTimestamp])%list in
    mret (VObj [("success", VBool true); ("count", len trimmedArray)],
          <[key := VArr trimmedArray]> st)).

(** The deduplication loops: [xs.forEach(x => { if (x[key]) map.set(x[key], x) })]. *)
Definition index_by (key : string) (xs : list value) (m : jsmap) : res jsmap :=
  foldM (fun m x => k ← prop x key; mret (if truthy k then map_set k x m else m)) xs m.

(** [{...existing, ...post, lastUpdated: new Date().toISOString()}]. *)
Definition merge_record (now : string) (existing post : value) : value :=
  VObj (set_field "lastUpdated" (VStr now) (spread post (spread existing []))).

(** The values of the deduplication Maps are records that passed the
    truthiness test on their identity key, hence objects: reading a
    property of one cannot raise. *)
Definition engagementScore (p : value) : Z := num_or0 (prop_opt p "engagementScore").
Definition engagement_likes (p : value) : Z :=
  num_or0 (prop_opt (prop_opt p "engagement") "likes").
Definition engagement_comments (p : value) : Z :=
  num_or0 (prop_opt (prop_opt p "engagement") "comments").

(** [v > n] and [v >= n] for a number [v]; [undefined], [null] and booleans
    compare false against the thresholds used here. *)
Definition js_gt (v : value) (n : Z) : bool :=
  match v with VNum x => n <? x | _ => false end.
Definition js_ge (v : value) (n : Z) : bool :=
  match v with VNum x => n <=? x | _ => false end.

(** ToString, as used for computed property keys. *)
Fixpoint toString (v : value) : string :=
  match v with
  | VUndef => "undefined"
  | VNull => "null"
  | VBool true => "true"
  | VBool false => "false"
  | VNum n => pretty n
  | VStr s => s
  | VArr xs =>
      String.concat ","
        (map (fun x => match x with VUndef | VNull => "" | _ => toString x end) xs)
  | VObj _ => "[object Object]"
  end.

(** [counts[k] = (counts[k] || 0) + 1], for keys that are not names of
    [Object.prototype]. *)
Definition count_key (k : string) (counts : list (string * value)) : list (string * value) :=
  set_field k (VNum (num_or0 (default VUndef (get_field k counts)) + 1)) counts.

Definition sum_by (f : value -> Z) (xs : list value) : Z :=
  fold_left (fun sum p => sum + f p) xs 0.

Definition calculateFeedStats (posts : list value) : res value :=
  match posts with
  | [] => mret (VObj [("avgEngagement", VNum 0); ("avgLikes", VNum 0); ("avgComments", VNum 0);
                      ("topHashtags", VArr []); ("postTypes", VObj [])])
  | _ =>
      let totalLikes := sum_by engagement_likes posts in
      let totalComments := sum_by engagement_comments posts in
      let totalEngagement := sum_by engagementScore posts in
      hashtagCounts ← foldM (fun counts p =>
                         tags ← array_of "forEach" (js_or (prop_opt p "hashtags") (VArr []));
                         mret (fold_left (fun c tag => count_key (toString tag) c) tags counts))
                       posts [];
      let topHashtags :=
        map (fun e => VObj [("tag", VStr (fst e)); ("count", snd e)])
            (take 20 (sort_by (fun a b => num_or0 (snd b) - num_or0 (snd a)) hashtagCounts)) in
      let postTypes :=
        fold_left (fun c p => count_key (toString (js_or (prop_opt p "type") (VStr "text"))) c)
                  posts [] in
      let n := Z.of_nat (length posts) in
      mret (VObj [("avgEngagement", VNum (round_div totalEngagement n));
                  ("avgLikes", VNum (round_div totalLikes n));
                  ("avgComments", VNum (round_div totalComments n));
                  ("topHashtags", VArr topHashtags);
                  ("postTypes", VObj postTypes)])
  end.

(** The body of [newPosts.forEach] in [saveFeedPostsToStorage]; the state is
    [(postMap, newCount)]. *)
Definition addFeedPost (now : string) (acc : jsmap * Z) (post : value) : res (jsmap * Z) :=
  urn ← prop post "urn";
  if truthy urn then
    let existingPost := map_get urn acc.1 in
    mret (map_set urn (merge_record now existingPost post) acc.1,
          if truthy existingPost then acc.2 else acc.2 + 1)
  else mret acc.

Definition feedTopHits (allPosts : list value) : list value :=
  take 20 (List.filter (fun p => js_gt (prop_opt p "engagementScore") 50) allPosts).

Definition saveFeedPostsToStorage (now : string) (newPosts : value) (st : store)
  : value * store :=
  try_catch st (
    match newPosts with
    | VArr ((_ :: _) as posts) =>
        let allPosts := js_or (stored FEED_POSTS st) (VArr []) in
        xs ← array_of "allPosts.forEach" allPosts;
        postMap ← index_by "urn" xs [];
        r ← foldM (addFeedPost now) posts (postMap, 0);
        let newCount := r.2 in
        let allPosts := map_values r.1 in
        let allPosts := sort_by (fun a b => engagementScore b - engagementScore a) allPosts in
        let allPosts := take 500 allPosts in
        let topHits := feedTopHits allPosts in
        stats ← calculateFeedStats allPosts;
        let feedData :=
          VObj [("posts", VArr allPosts); ("topHits", VArr topHits);
                ("totalCount", len allPosts); ("lastUpdated", VStr now);
                ("stats", stats)] in
        mret (VObj [("success", VBool true); ("newCount", VNum newCount);
                    ("totalCount", len allPosts); ("topHitsCount", len topHits)],
              <[FEED_POSTS := feedData]> st)
    | _ =>
        mret (VObj [("success", VBool true); ("count", VNum 0);
                    ("message", VStr "No posts to save")], st)
    end).

(** *** Comments *)

Definition likes (c : value) : Z := num_or0 (prop_opt c "likes").

Definition addComment (acc : jsmap * Z) (c : value) : res (jsmap * Z) :=
  urn ← prop c "urn";
  if truthy urn && negb (map_has urn acc.1)
  then mret (map_set urn c acc.1, acc.2 + 1)
  else mret acc.

Definition saveCommentsToStorage (now : string) (newComments : value) (st : store)
  : value * store :=
  try_catch st (
    match newComments with
    | VArr ((_ :: _) as comments) =>
        let existingData :=
          js_or (stored COMMENTS st) (VObj [("comments", VArr []); ("stats", VObj [])]) in
        let allComments := js_or (prop_opt existingData "comments") (VArr []) in
        xs ← array_of "allComments.forEach" allComments;
        commentMap ← index_by "urn" xs [];
        r ← foldM addComment comments (commentMap, 0);
        let newCount := r.2 in
        let allComments := map_values r.1 in
        let allComments := sort_by (fun a b => likes b - likes a) allComments in
        let allComments := take 1000 allComments in
        let topComments :=
          take 50 (List.filter (fun c => js_ge (prop_opt c "likes") 5) allComments) in
        let n := Z.of_nat (length allComments) in
        let avgLength :=
          if 0 <? n
          then round_div (sum_by (fun c => num_or0 (prop_opt (prop_opt c "text") "length"))
                                 allComments) n
          else 0 in
        let commentsData :=
          VObj [("comments", VArr allComments); ("topComments", VArr topComments);
                ("totalCount", len allComments); ("lastUpdated", VStr now);
                ("stats",
                 VObj [("avgLength", VNum avgLength);
                       ("avgLikes",
                        VNum (if 0 <? n then round_div (sum_by likes allComments) n else 0));
                       ("topCommentsCount", len topComments)])] in
        mret (VObj [("success", VBool true); ("newCount", VNum newCount);
                    ("totalCount", len allComments)],
              <[COMMENTS := commentsData]> st)
    | _ => mret (VObj [("success", VBool true); ("count", VNum 0)], st)
    end).

(** *** My posts *)

(** [(p.engagement?.likes || 0) + (p.engagement?.comments || 0) * 3]. *)
Definition myPostScore (p : value) : Z := engagement_likes p + engagement_comments p * 3.

Definition addMyPost (now : string) (acc : jsmap * Z) (p : value) : res (jsmap * Z) :=
  urn ← prop p "urn";
  if truthy urn then
    mret (map_set urn (merge_record now (map_get urn acc.1) p) acc.1,
          if map_has urn acc.1 then acc.2 else acc.2 + 1)
  else mret acc.

Section FloatingPoint.

(** [(rates.reduce((sum, r) => sum + (parseFloat(r) || 0), 0) / rates.length).toFixed(2)]
    is floating-point arithmetic and text; it is a parameter of the model,
    applied to the list of values handed to [parseFloat]. *)
Variable meanToFixed2 : list value -> string.

Definition saveMyPostsToStorage (now : string) (newPosts : value) (st : store)
  : value * store :=
  try_catch st (
    match newPosts with
    | VArr ((_ :: _) as posts) =>
        let existingData :=
          js_or (stored MY_POSTS st) (VObj [("posts", VArr []); ("stats", VObj [])]) in
        let allPosts := js_or (prop_opt existingData "posts") (VArr []) in
        xs ← array_of "allPosts.forEach" allPosts;
        postMap ← index_by "urn" xs [];
        r ← foldM (addMyPost now) posts (postMap, 0);
        let newCount := r.2 in
        let allPosts := map_values r.1 in
        let allPosts := sort_by (fun a b => myPostScore b - myPostScore a) allPosts in
        let allPosts := take 200 allPosts in
        let impressions p := num_or0 (prop_opt (prop_opt p "analytics") "impressions") in
        let totalImpressions := sum_by impressions allPosts in
        let totalLikes := sum_by engagement_likes allPosts in
        let totalComments := sum_by engagement_comments allPosts in
        let n := Z.of_nat (length allPosts) in
        let avg total := VNum (if 0 <? n then round_div total n else 0) in
        let myPostsData :=
          VObj [("posts", VArr allPosts);
                ("bestPost", js_or (default VUndef (head allPosts)) VNull);
                ("totalCount", len allPosts); ("lastUpdated", VStr now);
                ("stats",
                 VObj [("totalImpressions", VNum totalImpressions);
                       ("totalLikes", VNum totalLikes);
                       ("totalComments", VNum totalComments);
                       ("avgImpressions", avg totalImpressions);
                       ("avgLikes", avg totalLikes);
                       ("avgComments", avg totalComments);
                       ("avgEngagementRate",
                        VStr (if 0 <? n
                              then meanToFixed2
                                     (map (fun p => prop_opt (prop_opt p "analytics")
                                                             "engagementRate") allPosts)
                              else "0"))])] in
        mret (VObj [("success", VBool true); ("newCount", VNum newCount);
                    ("totalCount", len allPosts)],
              <[MY_POSTS := myPostsData]> st)
    | _ => mret (VObj [("success", VBool true); ("count", VNum 0)], st)
    end).

(** *** Post analytics *)

(** [a === b] on JSON values: primitives by value, objects by identity. *)
Definition strict_eq (a b : value) : bool := same_value_zero a b.

(** [allPosts.findIndex(p => p.activityUrn === urn)], counting from [i];
    [None] is -1. *)
Fixpoint findIndex_activityUrn (urn : value) (xs : list value) (i : nat) : res (option nat) :=
  match xs with
  | [] => mret None
  | p :: ps =>
      u ← prop p "activityUrn";
      if strict_eq u urn then mret (Some i) else findIndex_activityUrn urn ps (S i)
  end.

(** [xs.reduce((sum, p) => sum + (p[k] || 0), 0)]. *)
Definition sum_prop (k : string) (xs : list value) : res Z :=
  foldM (fun sum p => v ← prop p k; mret (sum + num_or0 v)) xs 0.

Definition impressions (p : value) : Z := num_or0 (prop_opt p "impressions").

(** The stored posts array is sorted as it is, so it may hold [null]: the
    comparator then raises, and so does the first [reduce] that follows the
    sort, which is where the model raises. *)
Definition savePostAnalyticsToStorage (now : string) (newData : value) (st : store)
  : value * store :=
  try_catch st (
    if negb (truthy newData) || negb (truthy (prop_opt newData "activityUrn"))
    then mret (failure "No activity URN provided", st)
    else
      let existingData :=
        js_or (stored POST_ANALYTICS_DATA st) (VObj [("posts", VArr []); ("stats", VObj [])]) in
      let allPosts := js_or (prop_opt existingData "posts") (VArr []) in
      xs ← array_of "allPosts.findIndex" allPosts;
      existingIndex ← findIndex_activityUrn (prop_opt newData "activityUrn") xs 0;
      let allPosts :=
        match existingIndex with
        | Some i => <[i := merge_record now (default VUndef (xs !! i)) newData]> xs
        | None =>
            (xs ++ [VObj (set_field "lastUpdated" (VStr now)
                            (set_field "firstCaptured" (VStr now) (spread newData [])))])%list
        end in
      let allPosts := sort_by (fun a b => impressions b - impressions a) allPosts in
      let allPosts := take 100 allPosts in
      totalImpressions ← sum_prop "impressions" allPosts;
      let totalReactions :=
        sum_by (fun p => num_or0 (prop_opt (prop_opt p "engagement") "reactions")) allPosts in
      let totalComments := sum_by engagement_comments allPosts in
      let n := Z.of_nat (length allPosts) in
      let avgEngagementRate :=
        if 0 <? n then meanToFixed2 (map (fun p => prop_opt p "engagementRate") allPosts)
        else "0" in
      let postAnalyticsData :=
        VObj [("posts", VArr allPosts); ("totalCount", len allPosts);
              ("lastUpdated", VStr now);
              ("stats",
               VObj [("totalImpressions", VNum totalImpressions);
                     ("totalReactions", VNum totalReactions);
                     ("totalComments", VNum totalComments);
                     ("avgEngagementRate", VStr avgEngagementRate);
                     ("avgImpressions",
                      VNum (if 0 <? n then round_div totalImpressions n else 0));
                     ("avgReactions",
                      VNum (if 0 <? n then round_div totalReactions n else 0))])] in
      mret (VObj [("success", VBool true); ("totalCount", len allPosts);
                  ("isUpdate", VBool (bool_decide (is_Some existingIndex)))],
            <[POST_ANALYTICS_DATA := postAnalyticsData]> st)).

End FloatingPoint.

(** *** Followers *)

(** [o.k = v].  On a value that is not an object the assignment has no
    effect that reaches the storage (a primitive ignores it, and a named
    property of an array is not stored). *)
Definition assign (o : value) (k : string) (v : value) : value :=
  match o with
  | VObj fs => VObj (set_field k v fs)
  | _ => o
  end.

Definition saveFollowersToStorage (now : string) (newData : value) (st : store)
  : value * store :=
  try_catch st (
    if negb (truthy newData)
    then mret (VObj [("success", VBool true); ("count", VNum 0)], st)
    else
      let existingData :=
        js_or (stored FOLLOWERS st)
              (VObj [("followers", VArr []); ("followerCount", VNum 0);
                     ("history", VArr [])]) in
      let followerCount := prop_opt newData "followerCount" in
      existingData ←
        (if truthy followerCount then
           history ← array_of "history.push" (js_or (prop_opt existingData "history") (VArr []));
           let history :=
             (history ++ [VObj [("count", followerCount); ("timestamp", VStr now)]])%list in
           mret (assign (assign existingData "history" (VArr (slice_last 100 history)))
                        "followerCount" followerCount)
         else mret existingData);
      let followers := prop_opt newData "followers" in
      existingData ←
        (if truthy followers && js_gt (prop_opt followers "length") 0 then
           xs ← array_of "forEach" (js_or (prop_opt existingData "followers") (VArr []));
           followerMap ← index_by "entityUrn" xs [];
           ys ← array_of "newData.followers.forEach" followers;
           followerMap ← index_by "entityUrn" ys followerMap;
           mret (assign existingData "followers" (VArr (take 500 (map_values followerMap))))
         else mret existingData);
      let existingData := assign existingData "lastUpdated" (VStr now) in
      mret (VObj [("success", VBool true);
                  ("count", js_or (prop_opt (prop_opt existingData "followers") "length")
                                  (VNum 0));
                  ("followerCount", prop_opt existingData "followerCount")],
            <[FOLLOWERS := existingData]> st)).

(** *** Trending topics *)

Definition addTopic (now : string) (m : jsmap) (t : value) : res jsmap :=
  topic ← prop t "topic";
  mret (if truthy topic
        then map_set topic (VObj (set_field "lastSeen" (VStr now) (spread t []))) m
        else m).

Definition saveTrendingToStorage (now : string) (newTopics : value) (st : store)
  : value * store :=
  try_catch st (
    match newTopics with
    | VArr ((_ :: _) as topics) =>
        let existingData :=
          js_or (stored TRENDING st) (VObj [("topics", VArr []); ("history", VArr [])]) in
        xs ← array_of "forEach" (js_or (prop_opt existingData "topics") (VArr []));
        topicMap ← index_by "topic" xs [];
        topicMap ← foldM (addTopic now) topics topicMap;
        let allTopics := map_values topicMap in
        let trendingData :=
          VObj [("topics", VArr (take 200 allTopics)); ("totalCount", len allTopics);
                ("lastUpdated", VStr now)] in
        mret (VObj [("success", VBool true); ("count", len allTopics)],
              <[TRENDING := trendingData]> st)
    | _ => mret (VObj [("success", VBool true); ("count", VNum 0)], st)
    end).

(** *** Audience *)

Definition saveAudienceDataToStorage (now : string) (newData : value) (st : store)
  : value * store :=
  try_catch st (
    if negb (truthy newData)
    then mret (failure "No audience data provided", st)
    else
      let audienceData := VObj (set_field "lastUpdated" (VStr now) (spread newData [])) in
      mret (VObj [("success", VBool true);
                  ("totalFollowers", prop_opt newData "totalFollowers")],
            <[AUDIENCE_DATA := audienceData]> st)).

(** *** Cookies *)

(** What the service worker reads from outside the storage: the cookie jar,
    the clock, the text formats of the exports, and the direct API client
    (network requests; its functions are named as in the source and return
    their response and the storage they leave, or raise). *)
Record env : Type := {
  cookies_getAll : res (list (string * string));
  cookies_get : string -> res (option string);
  now : string;
  dateNow : Z;
  stringify : value -> string;
  csvContent : list value -> string;
  directApi : string -> list value -> store -> res (value * store)
}.

Definition AUTH_TOKEN := "li_at".
Definition CSRF_TOKEN := "JSESSIONID".

Definition getLinkedInCookies (e : env) : value :=
  match cookies_getAll e with
  | Ok cookies =>
      let cookieMap :=
        fold_left (fun m c => set_field (fst c) (VStr (snd c)) m) cookies [] in
      let at_ := default VUndef (get_field AUTH_TOKEN cookieMap) in
      VObj [("success", VBool true); ("cookies", VObj cookieMap);
            ("authToken", js_or at_ VNull);
            ("csrfToken", js_or (default VUndef (get_field CSRF_TOKEN cookieMap)) VNull);
            ("isAuthenticated", VBool (truthy at_))]
  | Throw msg =>
      VObj [("success", VBool false); ("error", VStr msg); ("isAuthenticated", VBool false)]
  end.

Definition getLinkedInCookie (e : env) (name : string) : value :=
  match cookies_get e name with
  | Ok (Some v) => VStr v
  | Ok None => VNull
  | Throw _ => VNull
  end.

Definition checkAuthentication (e : env) : value :=
  let authToken := getLinkedInCookie e AUTH_TOKEN in
  VObj [("isAuthenticated", VBool (truthy authToken)); ("token", authToken)].

(** *** Export *)

Definition exportAsJSON (e : env) (st : store) : value :=
  let exportData :=
    VObj [("exportedAt", VStr (now e)); ("version", VStr "1.0.0");
          ("data", VObj (map_to_list st))] in
  VObj [("success", VBool true); ("content", VStr (stringify e exportData));
        ("filename", VStr ("linkedin-data-" +:+ pretty (dateNow e) +:+ ".json"))].

(** [exportAsCSV] has no [try]: [Object.keys(item)] raises on a [null] item
    (whose [typeof] is ['object']), and the exception leaves the function. *)
Definition exportAsCSV (e : env) (dataKey : value) (st : store) : res value :=
  let data := stored (toString dataKey) st in
  match data with
  | VArr ((_ :: _) as items) =>
      _ ← foldM (fun (_ : unit) item =>
                   match item with
                   | VNull | VUndef => Throw "Cannot convert undefined or null to object"
                   | _ => mret tt
                   end) items tt;
      mret (VObj [("success", VBool true); ("content", VStr (csvContent e items));
                  ("filename",
                   VStr ("linkedin-" +:+ toString dataKey +:+ "-" +:+ pretty (dateNow e)
                         +:+ ".csv"))])
  | _ => mret (failure "No data to export")
  end.

(** *** Statistics *)

(** [v[i]]. *)
Definition index (v : value) (i : Z) : value :=
  match v with
  | VArr xs => if i <? 0 then VUndef else default VUndef (xs !! Z.to_nat i)
  | VStr s =>
      if i <? 0 then VUndef
      else match String.get (Z.to_nat i) s with
           | Some c => VStr (String c EmptyString)
           | None => VUndef
           end
  | VObj fs => default VUndef (get_field (pretty i) fs)
  | _ => VUndef
  end.

Definition getStats (st : store) : res value :=
  let capturedApis := js_or (default VUndef (st !! CAPTURED_APIS)) (VArr []) in
  let profile := default VUndef (st !! PROFILE_DATA) in
  let analytics := default VUndef (st !! ANALYTICS_DATA) in
  let connections := default VUndef (st !! CONNECTIONS_DATA) in
  let length_ := prop_opt capturedApis "length" in
  lastCapture ←
    (if js_gt length_ 0
     then prop (index capturedApis (num_or0 length_ - 1)) "capturedAt"
     else mret VNull);
  mret (VObj [("success", VBool true);
              ("stats",
               VObj [("apisCaptured", length_);
                     ("hasProfile", VBool (truthy profile));
                     ("hasAnalytics", VBool (truthy analytics));
                     ("hasConnections", VBool (truthy connections));
                     ("connectionsCount",
                      js_or (prop_opt (prop_opt connections "connections") "length")
                            (js_or (prop_opt connections "fetchedConnections") (VNum 0)));
                     ("totalConnections",
                      js_or (prop_opt connections "totalConnections") (VNum 0));
                     ("lastCapture", lastCapture)])]).

(** *** Passive placeholders of the API client *)

Definition fetchFeedPosts : value :=
  VObj [("success", VBool true);
        ("data",
         VObj [("posts", VArr []); ("topHits", VArr []);
               ("message", VStr "Feed posts captured passively when browsing LinkedIn feed")])].

Definition fetchMyPosts (e : env) (st : store) : value * store :=
  let postsData :=
    VObj [("extractedAt", VStr (now e)); ("source", VStr "direct_api");
          ("posts", VArr []);
          ("message", VStr "Posts data extracted from page interactions")] in
  (VObj [("success", VBool true); ("data", postsData)], <[POSTS_DATA := postsData]> st).

(** *** Message handling *)

Section Router.

Variable meanToFixed2 : list value -> string.

(** The listener of [chrome.runtime.onMessage]: [Ok (response, storage)] when
    [sendResponse(response)] is reached, [Throw] when an exception escapes
    the handler and no response is sent.  A [switch] label is matched by
    strict equality with [message.type]. *)
Definition handleMessage (e : env) (message : value) (st : store) : res (value * store) :=
  ty ← prop message "type";
  let field := prop_opt message in
  let label t := strict_eq ty (VStr t) in
  if label "GET_COOKIES" then mret (getLinkedInCookies e, st)
  else if label "CHECK_AUTH" then mret (checkAuthentication e, st)
  else if label "SAVE_DATA" then mret (saveToStorage (toString (field "key")) (field "data") st)
  else if label "GET_DATA" then mret (getFromStorage (toString (field "key")) st, st)
  else if label "GET_ALL_DATA" then mret (getAllStoredData st, st)
  else if label "CLEAR_DATA" then mret (clearStorage st)
  else if label "APPEND_DATA"
  then mret (appendToStorage (now e) (toString (field "key")) (field "data") st)
  else if label "API_CAPTURED"
  then mret (appendToStorage (now e) CAPTURED_APIS
               (VObj [("endpoint", field "endpoint"); ("method", field "method");
                      ("responseData", field "data"); ("url", field "url")]) st)
  else if label "PROFILE_CAPTURED" then mret (saveToStorage PROFILE_DATA (field "data") st)
  else if label "ANALYTICS_CAPTURED" then mret (saveToStorage ANALYTICS_DATA (field "data") st)
  else if label "POST_ANALYTICS_CAPTURED"
  then mret (savePostAnalyticsToStorage meanToFixed2 (now e) (field "data") st)
  else if label "AUDIENCE_DATA_CAPTURED"
  then mret (saveAudienceDataToStorage (now e) (field "data") st)
  else if label "SAVE_FEED_POSTS" then mret (saveFeedPostsToStorage (now e) (field "posts") st)
  else if label "SAVE_COMMENTS" then mret (saveCommentsToStorage (now e) (field "comments") st)
  else if label "SAVE_MY_POSTS"
  then mret (saveMyPostsToStorage meanToFixed2 (now e) (field "posts") st)
  else if label "SAVE_FOLLOWERS" then mret (saveFollowersToStorage (now e) (field "data") st)
  else if label "SAVE_TRENDING" then mret (saveTrendingToStorage (now e) (field "topics") st)
  else if label "EXPORT_JSON" then mret (exportAsJSON e st, st)
  else if label "EXPORT_CSV" then r ← exportAsCSV e (field "dataKey") st; mret (r, st)
  else if label "GET_STATS" then r ← getStats st; mret (r, st)
  else if label "FETCH_PROFILE" then directApi e "fetchMyProfile" [] st
  else if label "FETCH_ANALYTICS" then directApi e "fetchAnalytics" [] st
  else if label "FETCH_CONNECTIONS"
  then directApi e "fetchConnections"
         [js_or (field "start") (VNum 0); js_or (field "count") (VNum 100)] st
  else if label "FETCH_CONNECTIONS_SUMMARY" then directApi e "fetchConnectionsSummary" [] st
  else if label "FETCH_ALL_CONNECTIONS"
  then directApi e "fetchAllConnections" [js_or (field "maxConnections") (VNum 500)] st
  else if label "FETCH_POSTS" then mret (fetchMyPosts e st)
  else if label "FETCH_FEED_POSTS" then mret (fetchFeedPosts, st)
  else if label "FETCH_ALL_DATA" then
    p ← directApi e "fetchMyProfile" [] st;
    a ← directApi e "fetchAnalytics" [] p.2;
    c ← directApi e "fetchAllConnections" [VNum 500] a.2;
    let feedPostsResult :=
      VObj [("success", VBool true);
            ("data", VObj [("posts", VArr []); ("topHits", VArr [])])] in
    mret (VObj [("success", VBool true); ("profile", p.1); ("analytics", a.1);
                ("connections", c.1); ("posts", feedPostsResult)], c.2)
  else mret (failure "Unknown message type", st).

End Router.

(** *** Collections and their capacities *)

Definition arr_len (v : value) : nat :=
  match v with
  | VArr xs => length xs
  | _ => 0%nat
  end.

(** Where each collection lives in the storage (key, and the property of
    the stored object that holds the sequence; the captured-API log is the
    stored array itself), with its capacity. *)
Definition capacities : list (string * option string * nat) :=
  [ (FEED_POSTS, Some "posts", 500%nat);
    (COMMENTS, Some "comments", 1000%nat);
    (MY_POSTS, Some "posts", 200%nat);
    (POST_ANALYTICS_DATA, Some "posts", 100%nat);
    (TRENDING, Some "topics", 200%nat);
    (CAPTURED_APIS, None, 1000%nat);
    (FOLLOWERS, Some "followers", 500%nat);
    (FOLLOWERS, Some "history", 100%nat) ].

Definition collection (key : string) (field : option string) (st : store) : value :=
  match field with
  | Some f => prop_opt (stored key st) f
  | None => stored key st
  end.

Definition capacity_ok (st : store) : Prop :=
  Forall (fun c => (arr_len (collection c.1.1 c.1.2 st) <= c.2)%nat) capacities.

(** The merge and append requests of the message protocol. *)
Definition store_requests : list string :=
  ["SAVE_FEED_POSTS"; "SAVE_COMMENTS"; "SAVE_MY_POSTS"; "SAVE_FOLLOWERS"; "SAVE_TRENDING";
   "POST_ANALYTICS_CAPTURED"; "API_CAPTURED"].

Definition is_store_request (message : value) : Prop :=
  exists t, prop message "type" = Ok (VStr t) /\ In t store_requests.

(** One message handled against the storage; a handler that raises writes
    nothing. *)
Definition step (meanToFixed2 : list value -> string) (st : store) (m : env * value) : store :=
  match handleMessage meanToFixed2 m.1 m.2 st with
  | Ok r => r.2
  | Throw _ => st
  end.

End ServiceWorker.

(** * Auxiliary definitions of the properties *)

Import Interceptor ServiceWorker STORAGE_KEYS.

(** When the tier dispatches. *)
Definition dispatchable (result : value) (now : Z) (t : tracker) : Prop :=
  exists url,
    lastVoyagerUrl t = Some url /\ url <> "" /\
    now - lastVoyagerTimestamp t < 5000 /\
    looksLikeResponse result = true /\
    (categorize url = "feed" \/ includes url "Feed" = true).

Definition profile_url : string := "https://www.linkedin.com/voyager/api/identity/profiles".
Definition feed_url : string :=
  "https://www.linkedin.com/voyager/api/graphql?queryId=voyagerFeedDashMainFeed.1".

(** What an operation on the collections of key [key] may do to the
    storage: nothing, or one write under [key] of a value whose collections
    fit. *)
Definition writes_within (key : string) (st st' : store) : Prop :=
  st' = st \/
  exists d, st' = <[key := d]> st /\
    Forall (fun c => c.1.1 = key ->
                     (match c.1.2 with
                      | Some g => arr_len (prop_opt d g)
                      | None => arr_len d
                      end <= c.2)%nat) capacities.

Ltac cap_table :=
  unfold capacities;
  repeat (apply List.Forall_cons;
          [cbn; intros Hkey; try discriminate Hkey; clear Hkey|]);
  try apply List.Forall_nil.

(** The followers operation rewrites the stored object property by
    property, so what it leaves depends on what it found. *)
Definition followers_fit (o : value) : Prop :=
  (arr_len (prop_opt o "followers") <= 500)%nat /\
  (arr_len (prop_opt o "history") <= 100)%nat.

(** A batch of [n] records with distinct identity keys and scores. *)
Definition distinct_posts (n : nat) : list value :=
  map (fun i => VObj [("urn", VStr (pretty i)); ("engagementScore", VNum (Z.of_nat i))])
      (seq 0 n).

(** A concrete environment for the examples: an empty cookie jar, a fixed
    clock, an API client that is offline. *)
Definition env0 : env :=
  {| cookies_getAll := Ok [];
     cookies_get := fun _ => Ok None;
     now := "2024-01-01T00:00:00.000Z";
     dateNow := 1704067200000;
     stringify := fun _ => "{}";
     csvContent := fun _ => "";
     directApi := fun _ _ _ => Throw "Failed to fetch" |}.

Definition mean0 : list value -> string := fun _ => "0.00".

Definition feed_msg : value :=
  VObj [("type", VStr "SAVE_FEED_POSTS"); ("posts", VArr (distinct_posts 3))].
Definition followers_msg : value :=
  VObj [("type", VStr "SAVE_FOLLOWERS");
        ("data", VObj [("followerCount", VNum 12);
                       ("followers", VArr [VObj [("entityUrn", VStr "f1")]])])].

(** The comment batches of the two-step scenario. *)
Definition c1_first : value := VObj [("urn", VStr "c1"); ("likes", VNum 3)].
Definition c1_second : value :=
  VObj [("urn", VStr "c1"); ("likes", VNum 9); ("text", VStr "hi")].

(** A batch of [n] topics with distinct texts. *)
Definition distinct_topics (n : nat) : list value :=
  map (fun i => VObj [("topic", VStr (pretty i))]) (seq 0 n).

(** The stored followers object as [saveFollowersToStorage] reads it. *)
Definition followers_default : value :=
  VObj [("followers", VArr []); ("followerCount", VNum 0); ("history", VArr [])].
Definition followers_data (st : store) : value :=
  js_or (stored FOLLOWERS st) followers_default.

(** A payload with a zero count over a storage that has a count and a history. *)
Definition followers_nd : value :=
  VObj [("followerCount", VNum 0);
        ("followers", VArr [VObj [("entityUrn", VStr "f2"); ("name", VStr "B")]])].
Definition followers_st : store :=
  {[ FOLLOWERS :=
       VObj [("followers", VArr [VObj [("entityUrn", VStr "f1")]]);
             ("followerCount", VNum 7);
             ("history", VArr [VObj [("count", VNum 7); ("timestamp", VStr "t0")]])] ]}.

(** A sequence is ranked by [key] when every record is followed only by
    records whose key is not larger. *)
Definition ranked (key : value -> Z) (xs : list value) : Prop :=
  StronglySorted (fun a b => key b <= key a) xs.

(** Identity keys that are pairwise different for a Map. *)
Fixpoint distinct_keys (ks : list value) : bool :=
  match ks with
  | [] => true
  | k :: ks' => negb (existsb (same_value_zero k) ks') && distinct_keys ks'
  end.

(** [(p.hashtags || [])] is an array, so that [calculateFeedStats] can
    iterate it. *)
Definition hashtags_ok (p : value) : bool :=
  match js_or (prop_opt p "hashtags") (VArr []) with
  | VArr _ => true
  | _ => false
  end.

(** A batch of feed posts with distinct identity keys that the operation
    can save. *)
Definition feed_batch_ok (posts : list value) : bool :=
  forallb (fun p => truthy (prop_opt p "urn") && hashtags_ok p) posts
  && distinct_keys (map (fun p => prop_opt p "urn") posts).

Definition feed_a : value := VObj [("urn", VStr "a"); ("engagementScore", VNum 60)].
Definition feed_b : value := VObj [("urn", VStr "b"); ("engagementScore", VNum 10)].

(** The own properties of a value. *)
Definition fields_of (v : value) : list (string * value) :=
  match v with
  | VObj fs => fs
  | _ => []
  end.

(** The stored my-posts object as [saveMyPostsToStorage] reads its posts. *)
Definition my_posts_array (st : store) : value :=
  js_or (prop_opt (js_or (stored MY_POSTS st) (VObj [("posts", VArr []); ("stats", VObj [])]))
                  "posts")
        (VArr []).

Definition my_post_old : value :=
  VObj [("urn", VStr "p1"); ("text", VStr "hello");
        ("engagement", VObj [("likes", VNum 2)]); ("lastUpdated", VStr "t0")].
Definition my_post_new : value :=
  VObj [("urn", VStr "p1"); ("engagement", VObj [("likes", VNum 5)]);
        ("analytics", VObj [("impressions", VNum 40)])].
Definition my_posts_st : store :=
  {[ MY_POSTS := VObj [("posts", VArr [my_post_old]); ("totalCount", VNum 1)] ]}.
Definition my_post_stamped : value :=
  VObj [("urn", VStr "a"); ("lastUpdated", VStr "t0")].
Definition topic_old : value := VObj [("topic", VStr "ai"); ("rank", VNum 1)].
Definition topic_new : value := VObj [("topic", VStr "ai"); ("posts", VNum 5)].

(** A structured response: an object with a boolean [success], and an
    [error] when [success] is false. *)
Definition structured (r : value) : Prop :=
  exists b, get_field "success" (fields_of r) = Some (VBool b) /\
            (b = false -> has_field "error" (fields_of r) = true).

(** The labels of the router's [switch]. *)
Definition message_types : list string :=
  ["GET_COOKIES"; "CHECK_AUTH"; "SAVE_DATA"; "GET_DATA"; "GET_ALL_DATA"; "CLEAR_DATA";
   "APPEND_DATA"; "API_CAPTURED"; "PROFILE_CAPTURED"; "ANALYTICS_CAPTURED";
   "POST_ANALYTICS_CAPTURED"; "AUDIENCE_DATA_CAPTURED"; "SAVE_FEED_POSTS"; "SAVE_COMMENTS";
   "SAVE_MY_POSTS"; "SAVE_FOLLOWERS"; "SAVE_TRENDING"; "EXPORT_JSON"; "EXPORT_CSV";
   "GET_STATS"; "FETCH_PROFILE"; "FETCH_ANALYTICS"; "FETCH_CONNECTIONS";
   "FETCH_CONNECTIONS_SUMMARY"; "FETCH_ALL_CONNECTIONS"; "FETCH_POSTS"; "FETCH_FEED_POSTS";
   "FETCH_ALL_DATA"].

(** The requests whose response is the result of the direct API client,
    passed through as it is. *)
Definition api_requests : list string :=
  ["FETCH_PROFILE"; "FETCH_ANALYTICS"; "FETCH_CONNECTIONS"; "FETCH_CONNECTIONS_SUMMARY";
   "FETCH_ALL_CONNECTIONS"].

Ltac structured_true :=
  exists true; split; [reflexivity|discriminate].
Ltac structured_false :=
  exists false; split; [reflexivity|reflexivity].
Ltac structured_tc :=
  unfold try_catch;
  unfold mbind, res_bind, mret, res_ret;
  repeat case_match; simplify_eq; cbn [fst snd failure];
  try structured_true; try structured_false.

Definition check_auth_msg : value := VObj [("type", VStr "CHECK_AUTH")].
Definition comments_msg : value :=
  VObj [("type", VStr "SAVE_COMMENTS"); ("comments", VArr [c1_first])].
Definition ping_msg : value := VObj [("type", VStr "PING")].

(** *** The deduplication loops as upserts

    Each loop of the store walks a batch and, for a record with a truthy
    identity key, sets the Map entry of that key to a value computed from
    the entry found and the record. *)

Definition primitive (v : value) : bool :=
  match v with
  | VArr _ | VObj _ => false
  | _ => true
  end.

Definition upsert (key : string) (upd : value -> value -> value) (m : jsmap) (p : value)
  : jsmap :=
  let k := prop_opt p key in
  if truthy k then map_set k (upd (map_get k m) p) m else m.

Definition upsert_all (key : string) (upd : value -> value -> value) (ps : list value)
           (m : jsmap) : jsmap :=
  fold_left (upsert key upd) ps m.

(** The records of a batch that go to the entry of key [u]. *)
Definition for_key (key : string) (u : value) (ps : list value) : list value :=
  List.filter (fun p => truthy (prop_opt p key) && same_value_zero (prop_opt p key) u) ps.

(** The Map a loop builds from stored records. *)
Definition reindex (key : string) (vs : list value) : jsmap :=
  map (fun v => (prop_opt v key, v)) vs.

(** What each loop does with the entry found: the comments loop keeps it,
    the trending loop replaces it, the post loops merge into it. *)
Definition keep_existing (e c : value) : value := if truthy e then e else c.
Definition stamp_topic (now : string) (t : value) : value :=
  VObj (set_field "lastSeen" (VStr now) (spread t [])).
Definition take_incoming (e x : value) : value := x.

(** Every entry of the Map is filed under the identity key of its value,
    and that key is truthy. *)
Definition keyed (key : string) (m : jsmap) : Prop :=
  Forall (fun kv => prop_opt kv.2 key = kv.1 /\ truthy kv.1 = true) m.

(** The value the last record of a batch that has property [k] gives it. *)
Definition lookup_batch (k : string) (ps : list value) : option value :=
  fold_left (fun acc p =>
               match get_field k (fields_of p) with
               | Some v => Some v
               | None => acc
               end) ps None.

(** What a pass with [upd] over a batch does to a stored record [v]: the
    records of the batch with the key of [v] are folded over it. *)
Definition again (key : string) (upd : value -> value -> value) (ps : list value)
           (v : value) : value :=
  fold_left upd (for_key key (prop_opt v key) ps) v.

(** Two values that agree on every property but [stamp]. *)
Definition same_but (stamp : string) (a b : value) : Prop :=
  forall f, f <> stamp -> prop_opt a f = prop_opt b f.

(** Two arrays of the same length whose elements agree, one by one, on every
    property but [stamp]. *)
Definition arr_same_but (stamp : string) (a b : value) : Prop :=
  match a, b with
  | VArr xs, VArr ys => Forall2 (same_but stamp) xs ys
  | _, _ => a = b
  end.

(** The object [saveMyPostsToStorage] stores, as a function of the ranked
    and truncated posts. *)
Definition myPostsData (meanToFixed2 : list value -> string) (now : string)
           (allPosts : list value) : value :=
  let impressions p := num_or0 (prop_opt (prop_opt p "analytics") "impressions") in
  let totalImpressions := sum_by impressions allPosts in
  let totalLikes := sum_by engagement_likes allPosts in
  let totalComments := sum_by engagement_comments allPosts in
  let n := Z.of_nat (length allPosts) in
  let avg total := VNum (if 0 <? n then round_div total n else 0) in
  VObj [("posts", VArr allPosts);
        ("bestPost", js_or (default VUndef (head allPosts)) VNull);
        ("totalCount", len allPosts); ("lastUpdated", VStr now);
        ("stats",
         VObj [("totalImpressions", VNum totalImpressions);
               ("totalLikes", VNum totalLikes);
               ("totalComments", VNum totalComments);
               ("avgImpressions", avg totalImpressions);
               ("avgLikes", avg totalLikes);
               ("avgComments", avg totalComments);
               ("avgEngagementRate",
                VStr (if 0 <? n
                      then meanToFixed2
                             (map (fun p => prop_opt (prop_opt p "analytics")
                                                     "engagementRate") allPosts)
                      else "0"))])].

(** The object [saveCommentsToStorage] stores, as a function of the ranked
    and truncated comments. *)
Definition commentsData (now : string) (allComments : list value) : value :=
  let topComments :=
    take 50 (List.filter (fun c => js_ge (prop_opt c "likes") 5) allComments) in
  let n := Z.of_nat (length allComments) in
  let avgLength :=
    if 0 <? n
    then round_div (sum_by (fun c => num_or0 (prop_opt (prop_opt c "text") "length"))
                           allComments) n
    else 0 in
  VObj [("comments", VArr allComments); ("topComments", VArr topComments);
        ("totalCount", len allComments); ("lastUpdated", VStr now);
        ("stats",
         VObj [("avgLength", VNum avgLength);
               ("avgLikes",
                VNum (if 0 <? n then round_div (sum_by likes allComments) n else 0));
               ("topCommentsCount", len topComments)])].

Definition comments_array (st : store) : value :=
  js_or (prop_opt (js_or (stored COMMENTS st) (VObj [("comments", VArr []); ("stats", VObj [])]))
                  "comments")
        (VArr []).

(** The object [saveTrendingToStorage] stores, as a function of all the
    topics of the Map. *)
Definition trendingData (now : string) (allTopics : list value) : value :=
  VObj [("topics", VArr (take 200 allTopics)); ("totalCount", len allTopics);
        ("lastUpdated", VStr now)].

Definition topics_array (st : store) : value :=
  js_or (prop_opt (js_or (stored TRENDING st) (VObj [("topics", VArr []); ("history", VArr [])]))
                  "topics")
        (VArr []).

(** A comment with an identity key and a number of likes. *)
Definition comment_of (urn : string) (n : Z) : value :=
  VObj [("urn", VStr urn); ("likes", VNum n)].

(** A storage whose comments collection is full: 999 comments with 10 likes
    and one, ["a"], with none. *)
Definition full_comments : store :=
  (saveCommentsToStorage "t0"
     (VArr (comment_of "a" 0 :: map (fun i => comment_of (pretty i) 10) (seq 0 999))) ∅).2.

(** [xs[0]] of a stored array. *)
Definition first_of (v : value) : value :=
  match v with
  | VArr (x :: _) => x
  | _ => VUndef
  end.

(** * The other tiers of the interceptor

    The wrappers of [fetch], [XMLHttpRequest] and [Response.prototype.json]
    of the main-world interceptor, each as the list of events it dispatches.
    URLs are strings; every [Date.now()] is an argument. *)

Module Tiers.

Section Tiers.

Variable getPathname : string -> string.

(** The original [JSON.parse]: the value of a text, or the [SyntaxError] it
    raises. *)
Variable parse : string -> res value.

(** The object every tier hands to [dispatch]. *)
Definition event (type url method : string) (data : value) (timestamp : Z) : captured :=
  {| ev_type := type;
     ev_url := url;
     ev_endpoint := getPathname url;
     ev_method := method;
     ev_category := categorize url;
     ev_queryId := extractQueryId url;
     ev_isGraphQL := includes url "/graphql";
     ev_data := data;
     ev_timestamp := timestamp |}.

(** The wrapper of [Response.prototype.json], once the wrapped function has
    resolved to [result] (when it rejects, so does the wrapper, and nothing
    is dispatched); [url] is [this.url || '']. *)
Definition responseJson (url : string) (result : value) (now : Z) : list captured :=
  if shouldCapture url && truthy result
  then [event "response-json" url "GET" result now]
  else [].

(** What the wrapper of [fetch] reads of the response: its URL, its
    [content-type] header ([None] is [null]) and what [json()] resolves to
    or rejects with. *)
Record response : Type := {
  resp_url : string;
  resp_contentType : option string;
  resp_json : res value
}.

(** The first wrapper of [fetch], once the wrapped function has resolved to
    [r]; [method] is [init?.method || (input instanceof Request ?
    input.method : 'GET')].  [clone.json()] is the wrapped
    [Response.prototype.json], which dispatches on its own before the
    [then] callback runs. *)
Definition fetchCapture (url method : string) (r : response) (now_json now_fetch : Z)
  : list captured :=
  if shouldCapture url then
    if includes (default "" (resp_contentType r)) "application/json" then
      match resp_json r with
      | Ok data =>
          (responseJson (resp_url r) data now_json
           ++ (if truthy data then [event "fetch" url method data now_fetch] else []))%list
      | Throw _ => []
      end
    else []
  else [].

(** The [load] listener that the wrapper of [XMLHttpRequest.prototype.send]
    installs for a request opened with [method] and [url] (it installs none
    when [shouldCapture(url)] fails).  [JSON.parse] is the wrapped function:
    the JSON.parse tier runs on the parsed text before the listener
    dispatches. *)
Definition xhrLoad (method url : string) (status : Z) (contentType : option string)
           (responseText : string) (now_parse now_xhr : Z) (t : tracker)
  : list captured * tracker :=
  if shouldCapture url && (200 <=? status) && (status <? 300)
     && includes (default "" contentType) "application/json"
  then
    match parse responseText with
    | Ok json =>
        let r := jsonParse getPathname json now_parse t in
        ((option_list r.1
          ++ (if truthy json then [event "xhr" url method json now_xhr] else []))%list,
         r.2)
    | Throw _ => ([], t)
    end
  else ([], t).

(** What the page does that reaches a wrapper: a call of [fetch] (tracked,
    then captured when the network answers, then the [finally] block), a
    completed [XMLHttpRequest], a call of [json()] on a response, a call of
    [JSON.parse] that returns. *)
Inductive op : Type :=
| Fetch (url requestId method : string) (now : Z) (r : option response)
        (now_json now_fetch now_purge : Z)
| Xhr (method url : string) (status : Z) (contentType : option string)
      (responseText : string) (now_parse now_xhr : Z)
| ResponseJson (url : string) (result : value) (now : Z)
| JsonParse (result : value) (now : Z).

Definition step (t : tracker) (o : op) : list captured * tracker :=
  match o with
  | Fetch url requestId method now r now_json now_fetch now_purge =>
      (match r with
       | Some r => fetchCapture url method r now_json now_fetch
       | None => []
       end,
       purgePending now_purge (trackFetch url requestId now t))
  | Xhr method url status contentType responseText now_parse now_xhr =>
      xhrLoad method url status contentType responseText now_parse now_xhr t
  | ResponseJson url result now => (responseJson url result now, t)
  | JsonParse result now =>
      let r := jsonParse getPathname result now t in (option_list r.1, r.2)
  end.

(** The events of a sequence of operations, in order, and the tracker it
    leaves. *)
Fixpoint run (os : list op) (t : tracker) : list captured * tracker :=
  match os with
  | [] => ([], t)
  | o :: os' =>
      let r := step t o in
      let r' := run os' r.2 in
      ((r.1 ++ r'.1)%list, r'.2)
  end.

End Tiers.

(** The calls of [fetch] that the tracking wrapper records. *)
Definition tracked (o : op) : bool :=
  match o with
  | Fetch url _ _ _ _ _ _ _ => shouldCapture url
  | _ => false
  end.

Definition is_type (type : string) (e : captured) : bool := String.eqb (ev_type e) type.

End Tiers.

(** What the events of the tiers have in common: the URL matches a capture
    pattern, the payload is truthy, and category, query identifier, GraphQL
    flag and endpoint are those of the URL. *)
Definition event_ok (getPathname : string -> string) (e : captured) : Prop :=
  shouldCapture (ev_url e) = true /\
  truthy (ev_data e) = true /\
  ev_category e = categorize (ev_url e) /\
  ev_queryId e = extractQueryId (ev_url e) /\
  ev_isGraphQL e = includes (ev_url e) "/graphql" /\
  ev_endpoint e = getPathname (ev_url e) /\
  In (ev_type e) ["fetch"; "xhr"; "response-json"; "json-parse"].

(** The pointer of the JSON.parse tier is unset or a captured URL. *)
Definition pointer_ok (t : tracker) : Prop :=
  forall url, lastVoyagerUrl t = Some url -> shouldCapture url = true.

(** 1 when the pointer is set. *)
Definition pointer_set (t : tracker) : nat :=
  match lastVoyagerUrl t with Some _ => 1 | None => 0 end.

Definition json_content (contentType : option string) : bool :=
  includes (default "" contentType) "application/json".

Definition example_response : Tiers.response :=
  {| Tiers.resp_url := feed_url;
     Tiers.resp_contentType := Some "application/json; charset=utf-8";
     Tiers.resp_json := Ok (VObj [("data", VObj [])]) |}.

(** A parser that knows two texts. *)
Definition example_parse (txt : string) : res value :=
  if String.eqb txt "[1]" then Ok (VArr [VNum 1])
  else if String.eqb txt "0" then Ok (VNum 0)
  else Throw "Unexpected token".

(** * Auxiliary definitions of the further properties *)

(** A value on which reading a property does not raise. *)
Definition nonnull (v : value) : Prop :=
  match v with
  | VUndef | VNull => False
  | _ => True
  end.

(** The index of the first element that satisfies [f]. *)
Fixpoint position (f : value -> bool) (xs : list value) : option nat :=
  match xs with
  | [] => None
  | x :: xs' => if f x then Some 0%nat else S <$> position f xs'
  end.

(** The stored post analytics as [savePostAnalyticsToStorage] reads them. *)
Definition post_analytics_array (st : store) : value :=
  js_or (prop_opt (js_or (stored POST_ANALYTICS_DATA st)
                         (VObj [("posts", VArr []); ("stats", VObj [])]))
                  "posts")
        (VArr []).

Definition activityUrn (p : value) : value := prop_opt p "activityUrn".

(** [p.activityUrn === urn]. *)
Definition has_activityUrn (urn : value) (p : value) : bool :=
  strict_eq (activityUrn p) urn.

Definition analytics_old : value :=
  VObj [("activityUrn", VStr "a1"); ("impressions", VNum 10);
        ("firstCaptured", VStr "t0"); ("lastUpdated", VStr "t0")].
Definition analytics_new : value :=
  VObj [("activityUrn", VStr "a1"); ("impressions", VNum 70)].
Definition analytics_other : value :=
  VObj [("activityUrn", VStr "a2"); ("impressions", VNum 30)].
Definition analytics_st : store :=
  {[ POST_ANALYTICS_DATA := VObj [("posts", VArr [analytics_other; analytics_old])] ]}.

(** * The direct API client of the service worker

    [fetchLinkedInAPI] and the functions built on it.  The network is a
    parameter: what the [n]-th request of a run resolves to.  Each function
    takes the number of requests made so far and returns the number made
    when it ends, so that a request that is not made can be told from one
    that fails.  Functions without a [try] of their own raise what their
    body raises. *)

Module ApiClient.

(** What [fetch] resolves to: [response.ok], [response.status], and what
    [response.json()] resolves to or rejects with. *)
Record http : Type := {
  http_ok : bool;
  http_status : Z;
  http_json : res value
}.

(** [v.includes(s)]: [String.prototype.includes] on a string,
    [Array.prototype.includes] on an array; another value has no such
    method, and the call raises. *)
Definition js_includes (v : value) (s : string) : res bool :=
  match v with
  | VStr t => Ok (includes t s)
  | VArr xs => Ok (existsb (fun x => same_value_zero x (VStr s)) xs)
  | _ => Throw "includes is not a function"
  end.

(** [v?.includes(s)] as a condition: [undefined] when [v] is nullish. *)
Definition js_includes_opt (v : value) (s : string) : res bool :=
  match v with
  | VUndef | VNull => Ok false
  | _ => js_includes v s
  end.

(** [parseLinkedInResponse(data)]: the entities of [data.included] by kind.
    [o[urn] = item] with a computed key: the key is [String(urn)], which is
    taken not to be [__proto__].  The field [analytics] of the result is
    the empty object on every path and is left out. *)
Record parsed : Type := {
  profiles : list (string * value);
  miniProfiles : list (string * value);
  companies : list (string * value);
  connections : list value;
  posts : list value
}.

Definition parsed_empty : parsed :=
  {| profiles := []; miniProfiles := []; companies := []; connections := []; posts := [] |}.

(** [result.profiles[urn] = item] and the like; [result.connections.push(item)]
    and the like. *)
Definition file_profile (urn : string) (item : value) (result : parsed) : parsed :=
  {| profiles := set_field urn item (profiles result);
     miniProfiles := miniProfiles result; companies := companies result;
     connections := connections result; posts := posts result |}.

Definition file_miniProfile (urn : string) (item : value) (result : parsed) : parsed :=
  {| profiles := profiles result;
     miniProfiles := set_field urn item (miniProfiles result);
     companies := companies result;
     connections := connections result; posts := posts result |}.

Definition file_company (urn : string) (item : value) (result : parsed) : parsed :=
  {| profiles := profiles result; miniProfiles := miniProfiles result;
     companies := set_field urn item (companies result);
     connections := connections result; posts := posts result |}.

Definition push_connection (item : value) (result : parsed) : parsed :=
  {| profiles := profiles result; miniProfiles := miniProfiles result;
     companies := companies result;
     connections := connections result ++ [item]; posts := posts result |}.

Definition push_post (item : value) (result : parsed) : parsed :=
  {| profiles := profiles result; miniProfiles := miniProfiles result;
     companies := companies result;
     connections := connections result; posts := posts result ++ [item] |}.

(** The body of the [forEach] of [parseLinkedInResponse]. *)
Definition parseItem (result : parsed) (item : value) : res parsed :=
  ty ← prop item "$type";
  let type := js_or ty (VStr "") in
  let urn :=
    toString (js_or (prop_opt item "entityUrn")
                    (js_or (prop_opt item "*miniProfile") (VStr ""))) in
  isProfile ← js_includes type "Profile";
  isMini ← (if (isProfile : bool) then js_includes type "MiniProfile" else Ok false);
  let result := if isProfile && negb isMini then file_profile urn item result else result in
  isMini ← js_includes type "MiniProfile";
  let result := if (isMini : bool) then file_miniProfile urn item result else result in
  isCompany ← js_includes type "Company";
  isOrg ← (if (isCompany : bool) then Ok true else js_includes type "Organization");
  let result := if (isOrg : bool) then file_company urn item result else result in
  isConnection ← js_includes type "Connection";
  let result := if (isConnection : bool) then push_connection item result else result in
  isUpdate ← js_includes type "Update";
  isActivity ← (if (isUpdate : bool) then Ok true else js_includes type "Activity");
  isPost ← (if (isActivity : bool) then Ok true else js_includes type "Share");
  mret (if (isPost : bool) then push_post item result else result).

Definition parseLinkedInResponse (data : value) : res parsed :=
  if negb (truthy data) then mret parsed_empty
  else
    match prop_opt data "included" with
    | VArr items => foldM parseItem items parsed_empty
    | _ => mret parsed_empty
    end.

Section ApiClient.

(** The cookie jar and the clock. *)
Variable e : env.

(** The network: what the [n]-th request, made to [endpoint], resolves to,
    or the message of the error [fetch] rejects with. *)
Variable net : nat -> string -> res http.

(** [fetchLinkedInAPI(endpoint)]; its callers pass no options.  The request
    headers depend on the cookies, the clock and [Math.random] only, and
    are part of what [net] answers to. *)
Definition fetchLinkedInAPI (endpoint : string) (n : nat) : value * nat :=
  let cookies := getLinkedInCookies e in
  if negb (truthy (prop_opt cookies "isAuthenticated"))
  then (failure "Not authenticated", n)
  else
    match net n endpoint with
    | Ok response =>
        if negb (http_ok response)
        then (failure ("HTTP " +:+ pretty (http_status response)), S n)
        else
          match http_json response with
          | Ok data =>
              (VObj [("success", VBool true); ("data", data); ("raw", data)], S n)
          | Throw msg => (failure msg, S n)
          end
    | Throw msg => (failure msg, S n)
    end.

Definition fetchMemberUrn (n : nat) : res (value * nat) :=
  let r := fetchLinkedInAPI "/voyager/api/me" n in
  let data := prop_opt r.1 "data" in
  if truthy (prop_opt r.1 "success") && truthy data then
    let miniProfile := prop_opt data "miniProfile" in
    let ids :=
      if truthy miniProfile
      then (prop_opt miniProfile "entityUrn", prop_opt miniProfile "publicIdentifier")
      else (VNull, VNull) in
    ids ←
      (if truthy (prop_opt data "included") then
         items ← array_of "result.data.included.forEach" (prop_opt data "included");
         foldM (fun ids item =>
                  ty ← prop item "$type";
                  isMini ← js_includes_opt ty "MiniProfile";
                  mret (if isMini && truthy (prop_opt item "entityUrn")
                        then (js_or ids.1 (prop_opt item "entityUrn"),
                              js_or ids.2 (prop_opt item "publicIdentifier"))
                        else ids))
               items ids
       else mret ids);
    let memberUrn :=
      if negb (truthy ids.1) && truthy (prop_opt data "plainId")
      then VStr ("urn:li:fsd_profile:" +:+ toString (prop_opt data "plainId"))
      else ids.1 in
    mret (VObj [("success", VBool true); ("memberUrn", memberUrn);
                ("publicIdentifier", ids.2); ("raw", data)], r.2)
  else mret (failure "Could not get member URN", r.2).

(** [if (v !== undefined) o[k] = v]. *)
Definition set_defined (k : string) (v : value) (o : list (string * value))
  : list (string * value) :=
  match v with
  | VUndef => o
  | _ => set_field k v o
  end.

Definition fetchMyProfile (st : store) (n : nat) : res (value * store * nat) :=
  m ← fetchMemberUrn n;
  let memberData := m.1 in
  let r := fetchLinkedInAPI "/voyager/api/me" m.2 in
  let meResult := r.1 in
  if negb (truthy (prop_opt meResult "success")) then mret (meResult, st, r.2)
  else
    let data := prop_opt meResult "data" in
    let profile := [("extractedAt", VStr (now e)); ("source", VStr "direct_api")] in
    parsed ← parseLinkedInResponse data;
    mp ← prop data "miniProfile";
    let profile :=
      if truthy mp then
        set_field "profilePicture" (prop_opt (prop_opt mp "picture") "rootUrl")
          (set_field "trackingId" (prop_opt mp "trackingId")
             (set_field "entityUrn" (prop_opt mp "entityUrn")
                (set_field "publicIdentifier" (prop_opt mp "publicIdentifier")
                   (set_field "headline" (prop_opt mp "occupation")
                      (set_field "lastName" (prop_opt mp "lastName")
                         (set_field "firstName" (prop_opt mp "firstName") profile))))))
      else profile in
    let profile :=
      fold_left (fun profile mp =>
                   if negb (truthy (default VUndef (get_field "firstName" profile))) then
                     set_field "entityUrn" (prop_opt mp "entityUrn")
                       (set_field "publicIdentifier" (prop_opt mp "publicIdentifier")
                          (set_field "headline" (prop_opt mp "occupation")
                             (set_field "lastName" (prop_opt mp "lastName")
                                (set_field "firstName" (prop_opt mp "firstName") profile))))
                   else profile)
                (map snd (miniProfiles parsed)) profile in
    let profile := set_defined "isPremium" (prop_opt data "premiumSubscriber") profile in
    let profile :=
      if truthy (prop_opt memberData "success") then
        let profile := set_field "memberUrn" (prop_opt memberData "memberUrn") profile in
        set_field "publicIdentifier"
          (js_or (default VUndef (get_field "publicIdentifier" profile))
                 (prop_opt memberData "publicIdentifier"))
          profile
      else profile in
    let c := fetchLinkedInAPI "/voyager/api/relationships/connectionsSummary" r.2 in
    let connSummary := c.1 in
    let profile :=
      if truthy (prop_opt connSummary "success") && truthy (prop_opt connSummary "data") then
        let summaryData :=
          js_or (prop_opt (prop_opt connSummary "data") "data")
                (prop_opt connSummary "data") in
        set_field "numConnections" (prop_opt summaryData "numConnections")
          (set_field "connectionsCount" (prop_opt summaryData "numConnections") profile)
      else profile in
    let profile := set_field "rawData" data profile in
    mret (VObj [("success", VBool true); ("data", VObj profile)],
          <[PROFILE_DATA := VObj profile]> st, c.2).

Definition fetchConnectionsSummary (n : nat) : value * nat :=
  let r := fetchLinkedInAPI "/voyager/api/relationships/connectionsSummary" n in
  let data := prop_opt r.1 "data" in
  if truthy (prop_opt r.1 "success") && truthy data then
    let summaryData := js_or (prop_opt data "data") data in
    (VObj [("success", VBool true);
           ("data",
            VObj [("numConnections", js_or (prop_opt summaryData "numConnections") (VNum 0));
                  ("entityUrn", prop_opt summaryData "entityUrn")]);
           ("raw", data)], r.2)
  else r.

(** The [profileViews] an element of the WVMP cards gives: its own
    [numViews], then the [numViews] of its insight cards. *)
Definition wvmpElement (analytics : list (string * value)) (element : value)
  : res (list (string * value)) :=
  numViews ← prop element "numViews";
  let analytics := set_defined "profileViews" numViews analytics in
  let cards := prop_opt element "insightCards" in
  if truthy cards then
    cards ← array_of "element.insightCards.forEach" cards;
    foldM (fun analytics card =>
             numViews ← prop card "numViews";
             mret (set_defined "profileViews" numViews analytics))
          cards analytics
  else mret analytics.

Definition recentViewer (viewers : list value) (item : value) : res (list value) :=
  ty ← prop item "$type";
  isMini ← js_includes_opt ty "MiniProfile";
  isProfile ← (if (isMini : bool) then Ok true else js_includes_opt ty "Profile");
  mret (if isProfile && truthy (prop_opt item "firstName")
        then viewers ++ [VObj [("firstName", prop_opt item "firstName");
                               ("lastName", prop_opt item "lastName");
                               ("headline",
                                js_or (prop_opt item "occupation") (prop_opt item "headline"));
                               ("publicIdentifier", prop_opt item "publicIdentifier")]]
        else viewers).

Definition fetchAnalytics (st : store) (n : nat) : res (value * store * nat) :=
  let analytics := [("extractedAt", VStr (now e)); ("source", VStr "direct_api")] in
  let w := fetchLinkedInAPI "/voyager/api/identity/wvmpCards" n in
  let data := prop_opt w.1 "data" in
  analytics ←
    (if truthy (prop_opt w.1 "success") && truthy data then
       let wvmpData := js_or (prop_opt data "data") data in
       analytics ←
         (if truthy (prop_opt wvmpData "elements") then
            elements ← array_of "wvmpData.elements.forEach" (prop_opt wvmpData "elements");
            foldM wvmpElement elements analytics
          else mret analytics);
       included ← array_of "included.forEach" (js_or (prop_opt data "included") (VArr []));
       let analytics := set_field "recentViewers" (VArr []) analytics in
       viewers ← foldM recentViewer included [];
       mret (set_field "recentViewers" (VArr viewers) analytics)
     else mret analytics);
  let c := fetchConnectionsSummary w.2 in
  let analytics :=
    if truthy (prop_opt c.1 "success") && truthy (prop_opt c.1 "data")
    then set_field "connectionsCount"
                   (prop_opt (prop_opt c.1 "data") "numConnections") analytics
    else analytics in
  mret (VObj [("success", VBool true); ("data", VObj analytics)],
        <[ANALYTICS_DATA := VObj analytics]> st, c.2).

End ApiClient.

(** *** All connections, page by page *)

(** What [fetchConnections(start, 40)] answers: a response that fails the
    test [result.success && result.data && result.data.connections], or
    its success object, with the connections of the page and the number of
    connection entities of the response ([rawConnectionCount]). *)
Inductive page : Type :=
| NoPage (result : value)
| Page (pageConnections : list value) (rawConnectionCount : Z).

(** [c.publicIdentifier || c.entityUrn || c.connectionUrn]. *)
Definition connectionId (c : value) : res value :=
  p ← prop c "publicIdentifier";
  mret (js_or p (js_or (prop_opt c "entityUrn") (prop_opt c "connectionUrn"))).

Section AllConnections.

Variable e : env.

(** [fetchConnections(start, 40)], which makes one request or none; it has
    no [try] around what it does with the answer. *)
Variable fetchConnections : Z -> res page.

(** The [while] loop, at most [fuel] times round: the connections
    collected when it ends, or [None] when [fuel] runs out first. *)
Fixpoint collect (fuel : nat) (maxConnections : Z) (allConnections : list value) (start : Z)
  : res (option (list value)) :=
  if negb (Z.of_nat (length allConnections) <? maxConnections) then mret (Some allConnections)
  else
    match fuel with
    | O => mret None
    | S fuel' =>
        result ← fetchConnections start;
        match result with
        | Page batchConnections rawConnectionCount =>
            existingIds ← foldM (fun ids c => id ← connectionId c; mret (ids ++ [id]))
                                allConnections [];
            newConnections ←
              foldM (fun acc c =>
                       id ← connectionId c;
                       mret (if truthy id && negb (existsb (same_value_zero id) existingIds)
                             then acc ++ [c] else acc))
                    batchConnections [];
            let allConnections := (allConnections ++ newConnections)%list in
            let rawCount :=
              if rawConnectionCount =? 0 then Z.of_nat (length batchConnections)
              else rawConnectionCount in
            if rawCount <? 40 then mret (Some allConnections)
            else collect fuel' maxConnections allConnections (start + 40)
        | NoPage _ => mret (Some allConnections)
        end
    end.

Definition fetchAllConnections (fuel : nat) (maxConnections : Z) (st : store)
  : res (option (value * store)) :=
  r ← collect fuel maxConnections [] 0;
  match r with
  | None => mret None
  | Some allConnections =>
      let connectionsData :=
        VObj [("extractedAt", VStr (now e)); ("source", VStr "direct_api");
              ("totalConnections", len allConnections);
              ("fetchedConnections", len allConnections);
              ("connections", VArr allConnections)] in
      mret (Some (VObj [("success", VBool true); ("data", connectionsData);
                        ("totalConnections", len allConnections);
                        ("fetchedConnections", len allConnections)],
                  <[CONNECTIONS_DATA := connectionsData]> st))
  end.

End AllConnections.

End ApiClient.

(** [(item.$type || '').includes(kind)], where it has a value. *)
Definition is_kind (kind : string) (item : value) : bool :=
  match prop item "$type" with
  | Ok ty =>
      match ApiClient.js_includes (js_or ty (VStr "")) kind with
      | Ok b => b
      | Throw _ => false
      end
  | Throw _ => false
  end.

(** [item.entityUrn || item['*miniProfile'] || ''] as a property key. *)
Definition entity_key (item : value) : string :=
  toString (js_or (prop_opt item "entityUrn")
                  (js_or (prop_opt item "*miniProfile") (VStr ""))).

(** What the loop of [parseLinkedInResponse] keeps true, [seen] being the
    entities gone through. *)
Definition sorted_by_kind (seen : list value) (r : ApiClient.parsed) : Prop :=
  (forall k item, get_field k (ApiClient.profiles r) = Some item ->
     In item seen /\ k = entity_key item /\
     is_kind "Profile" item = true /\ is_kind "MiniProfile" item = false) /\
  (forall k item, get_field k (ApiClient.miniProfiles r) = Some item ->
     In item seen /\ k = entity_key item /\ is_kind "MiniProfile" item = true) /\
  (forall k item, get_field k (ApiClient.companies r) = Some item ->
     In item seen /\ k = entity_key item /\
     (is_kind "Company" item || is_kind "Organization" item = true)) /\
  ApiClient.connections r = List.filter (is_kind "Connection") seen /\
  ApiClient.posts r
  = List.filter (fun item => is_kind "Update" item || is_kind "Activity" item
                        || is_kind "Share" item) seen.

(** A connection with a truthy identifier that no connection of [known]
    has. *)
Definition fresh_connection (known : list value) (c : value) : Prop :=
  exists id,
    ApiClient.connectionId c = Ok id /\ truthy id = true /\
    forall d id', In d known -> ApiClient.connectionId d = Ok id' ->
                  same_value_zero id id' = false.

(** A network that is down, and a client that gets no page. *)
Definition net_down : nat -> string -> res ApiClient.http := fun _ _ => Throw "Failed to fetch".
Definition no_page : Z -> res ApiClient.page :=
  fun _ => Ok (ApiClient.NoPage (failure "Not authenticated")).
(** A server that answers every page with 40 connection entities of which
    none has a profile. *)
Definition hollow_pages : Z -> res ApiClient.page := fun _ => Ok (ApiClient.Page [] 40).
Definition two_pages : Z -> res ApiClient.page :=
  fun start =>
    if start =? 0
    then Ok (ApiClient.Page [VObj [("publicIdentifier", VStr "ann")];
                             VObj [("publicIdentifier", VStr "bob")]] 40)
    else Ok (ApiClient.Page [VObj [("publicIdentifier", VStr "bob")];
                             VObj [("entityUrn", VStr "urn:cy")]] 2).
Definition included_example : value :=
  VObj [("included",
         VArr [VObj [("$type", VStr "com.linkedin.voyager.identity.shared.MiniProfile");
                     ("entityUrn", VStr "urn:m1")];
               VObj [("$type", VStr "com.linkedin.voyager.dash.identity.profile.Profile");
                     ("entityUrn", VStr "urn:p1")]])].
Definition included_broken : value :=
  VObj [("included",
         VArr [VObj [("$type", VStr "com.linkedin.voyager.relationships.shared.Connection");
                     ("entityUrn", VStr "urn:c1")];
               VNull;
               VObj [("$type", VStr "com.linkedin.voyager.feed.Update")]])].


(** Whether the cookies read from the jar, in the order read, leave an
    [li_at] cookie with a value that is not empty: the last cookie of a
    name is the one kept. *)
Definition auth_cookie (cookies : list (string * string)) : bool :=
  match find (fun c => String.eqb (fst c) AUTH_TOKEN) (rev cookies) with
  | Some c => negb (String.eqb (snd c) "")
  | None => false
  end.

(** * Properties *)

(** ** Classification *)

Example categorize_comments_query :
  categorize "https://www.linkedin.com/voyager/api/graphql?queryId=voyagerSocialDashComments.ab12"
  = "comments".
Proof. reflexivity. Qed.

(** A query identifier that no category of the first table matches leaves
    the decision to the URL. *)
Example categorize_unknown_query_falls_back :
  categorize "https://www.linkedin.com/voyager/api/feed/updates?queryId=somethingElse.1" = "feed".
Proof. reflexivity. Qed.

Example categorize_default :
  categorize "https://www.linkedin.com/li/track" = "other".
Proof. reflexivity. Qed.

(** The leftmost [queryId=] that is followed by a letter is the one taken. *)
Example extractQueryId_skips_digits :
  extractQueryId "/x?queryId=12&queryId=abC.9" = Some "abC".
Proof. reflexivity. Qed.

Lemma first_category_url (url : string) :
  default "other" (first_category urlCategories url) =
  let urlStr := toLowerCase url in
  if includes urlStr "feed" then "feed"
  else if includes urlStr "messaging" then "messaging"
  else if includes urlStr "identity" || includes urlStr "profile" then "profile"
  else if includes urlStr "relationship" || includes urlStr "connection" then "network"
  else if includes urlStr "analytics" || includes urlStr "wvmp" then "analytics"
  else "other".
Proof.
  unfold first_category, urlCategories; cbn [find snd fst existsb].
  change (toLowerCase "feed") with "feed".
  change (toLowerCase "messaging") with "messaging".
  change (toLowerCase "identity") with "identity".
  change (toLowerCase "profile") with "profile".
  change (toLowerCase "relationship") with "relationship".
  change (toLowerCase "connection") with "connection".
  change (toLowerCase "analytics") with "analytics".
  change (toLowerCase "wvmp") with "wvmp".
  cbv zeta.
  repeat match goal with
         | |- context [includes ?s ?p] => destruct (includes s p); cbn
         end; reflexivity.
Qed.



(** ** The JSON.parse tier *)

Section JsonParseTier.

Variable getPathname : string -> string.

(** A tracked request sets the pointer and its time. *)
Lemma trackFetch_pointer (url id : string) (t0 : Z) (t : tracker) :
  shouldCapture url = true ->
  lastVoyagerUrl (trackFetch url id t0 t) = Some url /\
  lastVoyagerTimestamp (trackFetch url id t0 t) = t0.
Proof. intros H. unfold trackFetch. rewrite H. split; reflexivity. Qed.

Lemma shouldCapture_nonempty (url : string) : shouldCapture url = true -> url <> "".
Proof. intros H ->. discriminate H. Qed.


Lemma jsonParse_dispatch_iff (result : value) (now : Z) (t : tracker) :
  is_Some (fst (jsonParse getPathname result now t)) <-> dispatchable result now t.
Proof.
  unfold jsonParse, dispatchable.
  destruct (lastVoyagerUrl t) as [url|]; cbn.
  - destruct (String.eqb_spec url "") as [->|Hne]; cbn.
    + split; [intros [? [=]] | intros (u & [= <-] & Hu & _); congruence].
    + destruct (Z.ltb_spec (now - lastVoyagerTimestamp t) 5000) as [Hlt|Hge]; cbn.
      * destruct (looksLikeResponse result); cbn.
        -- destruct (String.eqb_spec (categorize url) "feed") as [Hc|Hc]; cbn.
           ++ split; [intros _|eauto]. exists url. tauto.
           ++ destruct (includes url "Feed") eqn:Hf; cbn.
              ** split; [intros _|eauto]. exists url. tauto.
              ** split; [intros [? [=]]|].
                 intros (u & [= <-] & _ & _ & _ & [Hcat|Hinc]); congruence.
        -- split; [intros [? [=]]|]. intros (u & _ & _ & _ & [=] & _).
      * split; [intros [? [=]]|]. intros (u & _ & _ & Hlt & _). lia.
  - split; [intros [? [=]]|]. intros (u & [=] & _).
Qed.

(** C7 (amended). The tier dispatches exactly when the pointer to a tracked
    URL is set, less than 5000 ms have passed since that request, the
    decoded value is an object with a truthy [included], [data] or
    [elements], and the tracked URL is feed-related (its category is
    ["feed"] or it contains ["Feed"]).  Any decode with such a shape inside
    the window clears the pointer, dispatched or not; a decode 5000 ms or
    more after the tracked request, in particular one 6000 ms after, is not
    dispatched and changes nothing. *)
Theorem jsonParse_tier (result : value) (now : Z) (t : tracker) :
  (is_Some (fst (jsonParse getPathname result now t)) <-> dispatchable result now t) /\
  (forall url,
      lastVoyagerUrl t = Some url -> url <> "" ->
      now - lastVoyagerTimestamp t < 5000 -> looksLikeResponse result = true ->
      lastVoyagerUrl (snd (jsonParse getPathname result now t)) = None) /\
  (5000 <= now - lastVoyagerTimestamp t ->
   jsonParse getPathname result now t = (None, t)) /\
  (forall url id t0,
      shouldCapture url = true ->
      fst (jsonParse getPathname result (t0 + 6000) (trackFetch url id t0 t)) = None).
Proof.
  split; [apply jsonParse_dispatch_iff|].
  split; [|split].
  - intros url Hu Hne Hlt Hshape. unfold jsonParse. rewrite Hu, Hshape.
    destruct (String.eqb_spec url "") as [|_]; [contradiction|].
    destruct (Z.ltb_spec (now - lastVoyagerTimestamp t) 5000); [|lia].
    reflexivity.
  - intros Hge. unfold jsonParse.
    destruct (lastVoyagerUrl t) as [url|]; [|reflexivity].
    destruct (Z.ltb_spec (now - lastVoyagerTimestamp t) 5000); [lia|].
    rewrite andb_false_r. reflexivity.
  - intros url id t0 Hcap. unfold jsonParse.
    destruct (trackFetch_pointer url id t0 t Hcap) as [-> ->].
    destruct (Z.ltb_spec (t0 + 6000 - t0) 5000); [lia|].
    rewrite andb_false_r. reflexivity.
Qed.

End JsonParseTier.


(** A decode that satisfies both conditions of the claim, 100 ms after a
    tracked request for a profile URL, is not dispatched. *)
Lemma jsonParse_profile_not_dispatched :
  let t := trackFetch profile_url "r1" 0 tracker_init in
  let result := VObj [("data", VObj [])] in
  shouldCapture profile_url = true /\
  lastVoyagerUrl t = Some profile_url /\
  100 - lastVoyagerTimestamp t < 5000 /\
  looksLikeResponse result = true /\
  fst (jsonParse (fun u => u) result 100 t) = None.
Proof. vm_compute. repeat split; reflexivity. Qed.

Lemma jsonParse_tier_witness :
  let t := trackFetch feed_url "r1" 0 tracker_init in
  let result := VObj [("included", VArr [])] in
  is_Some (fst (jsonParse (fun u => u) result 100 t)) /\
  lastVoyagerUrl (snd (jsonParse (fun u => u) result 100 t)) = None /\
  jsonParse (fun u => u) result 6000 t = (None, t) /\
  fst (jsonParse (fun u => u) result (0 + 6000) (trackFetch feed_url "r1" 0 tracker_init)) = None.
Proof.
  intros t result.
  destruct (jsonParse_tier (fun u => u) result 100 t) as (Hiff & Hclear & _ & _).
  destruct (jsonParse_tier (fun u => u) result 6000 t) as (_ & _ & Hlate & _).
  destruct (jsonParse_tier (fun u => u) result 0 tracker_init) as (_ & _ & _ & Hsix).
  split; [|split; [|split]].
  - apply Hiff. exists feed_url. repeat split; try reflexivity; [discriminate|now left].
  - apply (Hclear feed_url); [reflexivity|discriminate|reflexivity|reflexivity].
  - apply Hlate. cbn. lia.
  - apply Hsix. reflexivity.
Defined.

(** ** Facts about objects, Maps and sort *)

Lemma has_field_get_field (k : string) (fs : list (string * value)) :
  has_field k fs = false <-> get_field k fs = None.
Proof.
  unfold has_field. induction fs as [|[k' v] fs IH]; cbn; [tauto|].
  destruct (String.eqb k' k); cbn.
  - split; [discriminate|]. destruct (get_field k fs); discriminate.
  - rewrite IH. destruct (get_field k fs); split; congruence.
Qed.

Lemma get_field_app (k : string) (fs gs : list (string * value)) :
  get_field k (fs ++ gs) =
  match get_field k gs with Some v => Some v | None => get_field k fs end.
Proof.
  induction fs as [|[k' v] fs IH]; cbn.
  - destruct (get_field k gs); reflexivity.
  - rewrite IH. destruct (get_field k gs); reflexivity.
Qed.

Lemma get_field_set_field (k k' : string) (v : value) (fs : list (string * value)) :
  get_field k' (set_field k v fs) = if String.eqb k k' then Some v else get_field k' fs.
Proof.
  unfold set_field. destruct (has_field k fs) eqn:Hhas.
  - induction fs as [|[k0 v0] fs IH]; [discriminate|].
    cbn in Hhas. cbn [map fst].
    destruct (has_field k fs) eqn:Hrest.
    + specialize (IH eq_refl).
      destruct (String.eqb_spec k0 k) as [->|Hk0]; cbn [get_field]; rewrite IH;
        destruct (String.eqb_spec k k') as [->|Hne]; try reflexivity.
    + unfold has_field in Hrest. rewrite Hrest, orb_false_r in Hhas. rewrite Hhas.
      apply String.eqb_eq in Hhas as ->. clear IH.
      assert (Hmap : map (fun kv : string * value =>
                            if String.eqb kv.1 k then (kv.1, v) else kv) fs = fs).
      { induction fs as [|[k1 v1] fs IH]; [reflexivity|].
        cbn in Hrest. apply orb_false_elim in Hrest as [H1 H2].
        cbn. rewrite H1, (IH H2). reflexivity. }
      rewrite Hmap. cbn [get_field].
      apply has_field_get_field in Hrest.
      destruct (String.eqb_spec k k') as [->|Hne].
      * rewrite Hrest. reflexivity.
      * reflexivity.
  - rewrite get_field_app. cbn.
    destruct (String.eqb_spec k k'); reflexivity.
Qed.

Lemma get_field_spread (k : string) (src acc : list (string * value)) :
  get_field k (spread (VObj src) acc) =
  match get_field k src with Some v => Some v | None => get_field k acc end.
Proof.
  cbn. revert acc. induction src as [|[k0 v0] src IH]; intros acc; cbn; [reflexivity|].
  rewrite IH, get_field_set_field.
  destruct (get_field k src); [reflexivity|].
  destruct (String.eqb k0 k); reflexivity.
Qed.

Lemma length_insert_by {A} (cmp : A -> A -> Z) (x : A) (xs : list A) :
  length (insert_by cmp x xs) = S (length xs).
Proof.
  induction xs as [|y ys IH]; cbn; [reflexivity|].
  destruct (cmp x y <=? 0); cbn; [reflexivity|]. now rewrite IH.
Qed.

Lemma length_sort_by {A} (cmp : A -> A -> Z) (xs : list A) :
  length (sort_by cmp xs) = length xs.
Proof.
  induction xs as [|x xs IH]; cbn; [reflexivity|].
  now rewrite length_insert_by, IH.
Qed.

Lemma length_take_le {A} (n : nat) (xs : list A) : (length (take n xs) <= n)%nat.
Proof. rewrite length_take. lia. Qed.

Lemma length_slice_last (n : nat) (xs : list value) : (length (slice_last n xs) <= n)%nat.
Proof. unfold slice_last. rewrite length_drop. lia. Qed.

(** ** Capacity *)

Lemma prop_opt_obj (fs : list (string * value)) (k : string) :
  prop_opt (VObj fs) k = default VUndef (get_field k fs).
Proof. reflexivity. Qed.

Lemma stored_insert (key key' : string) (d : value) (st : store) :
  stored key' (<[key := d]> st) = if decide (key = key') then js_or d VNull else stored key' st.
Proof.
  unfold stored. rewrite lookup_insert. destruct (decide (key = key')); reflexivity.
Qed.

Lemma js_or_arr_len (d : value) : arr_len (js_or d VNull) = arr_len d.
Proof.
  unfold js_or. destruct (truthy d) eqn:Ht; [reflexivity|].
  destruct d; try reflexivity; discriminate Ht.
Qed.

Lemma js_or_prop_opt_len (d : value) (f : string) :
  arr_len (prop_opt (js_or d VNull) f) = arr_len (prop_opt d f).
Proof.
  unfold js_or. destruct (truthy d) eqn:Ht; [reflexivity|].
  destruct d; try reflexivity; try discriminate Ht.
  unfold prop_opt; cbn. destruct (String.eqb f "length"); reflexivity.
Qed.

Lemma collection_insert (key key' : string) (f : option string) (d : value) (st : store) :
  arr_len (collection key' f (<[key := d]> st)) =
  if decide (key = key')
  then match f with Some g => arr_len (prop_opt d g) | None => arr_len d end
  else arr_len (collection key' f st).
Proof.
  unfold collection. rewrite stored_insert.
  destruct (decide (key = key')); [|reflexivity].
  destruct f; [apply js_or_prop_opt_len|apply js_or_arr_len].
Qed.


Lemma writes_within_capacity_ok (key : string) (st st' : store) :
  capacity_ok st -> writes_within key st st' -> capacity_ok st'.
Proof.
  intros Hok [->|(d & -> & Hd)]; [exact Hok|].
  unfold capacity_ok in *. rewrite Forall_forall in *.
  intros c Hc. rewrite collection_insert.
  destruct (decide (key = c.1.1)) as [Heq|Hne]; [|apply Hok, Hc].
  apply (Hd c Hc). congruence.
Qed.


Lemma appendToStorage_writes (now : string) (newData : value) (st : store) :
  writes_within CAPTURED_APIS st (appendToStorage now CAPTURED_APIS newData st).2.
Proof.
  unfold appendToStorage, try_catch.
  destruct (array_of _ _) as [xs|msg]; cbn; [|now left].
  right. eexists; split; [reflexivity|]. cap_table.
  apply length_slice_last.
Qed.

Lemma saveFeedPostsToStorage_writes (now : string) (newPosts : value) (st : store) :
  writes_within FEED_POSTS st (saveFeedPostsToStorage now newPosts st).2.
Proof.
  unfold saveFeedPostsToStorage, try_catch.
  destruct newPosts as [| | | | |[|p posts]|]; cbn; try (now left).
  destruct (array_of _ _) as [xs|msg]; cbn; [|now left].
  destruct (index_by _ _ _) as [m|msg]; cbn; [|now left].
  destruct (addFeedPost now (m, 0) p ≫= _) as [r|msg]; cbn; [|now left].
  destruct (calculateFeedStats _) as [stats|msg]; cbn; [|now left].
  right. eexists; split; [reflexivity|]. cap_table.
  apply length_take_le.
Qed.

Lemma saveCommentsToStorage_writes (now : string) (newComments : value) (st : store) :
  writes_within COMMENTS st (saveCommentsToStorage now newComments st).2.
Proof.
  unfold saveCommentsToStorage, try_catch.
  destruct newComments as [| | | | |[|p posts]|]; cbn; try (now left).
  destruct (array_of _ _) as [xs|msg]; cbn; [|now left].
  destruct (index_by _ _ _) as [m|msg]; cbn; [|now left].
  destruct (addComment (m, 0) p ≫= _) as [r|msg]; cbn; [|now left].
  right. eexists; split; [reflexivity|]. cap_table.
  apply length_take_le.
Qed.

Lemma saveMyPostsToStorage_writes mean (now : string) (newPosts : value) (st : store) :
  writes_within MY_POSTS st (saveMyPostsToStorage mean now newPosts st).2.
Proof.
  unfold saveMyPostsToStorage, try_catch.
  destruct newPosts as [| | | | |[|p posts]|]; cbn; try (now left).
  destruct (array_of _ _) as [xs|msg]; cbn; [|now left].
  destruct (index_by _ _ _) as [m|msg]; cbn; [|now left].
  destruct (addMyPost now (m, 0) p ≫= _) as [r|msg]; cbn; [|now left].
  right. eexists; split; [reflexivity|]. cap_table.
  apply length_take_le.
Qed.

Lemma saveTrendingToStorage_writes (now : string) (newTopics : value) (st : store) :
  writes_within TRENDING st (saveTrendingToStorage now newTopics st).2.
Proof.
  unfold saveTrendingToStorage, try_catch.
  destruct newTopics as [| | | | |[|p posts]|]; cbn; try (now left).
  destruct (array_of _ _) as [xs|msg]; cbn; [|now left].
  destruct (index_by _ _ _) as [m|msg]; cbn; [|now left].
  destruct (addTopic now m p ≫= _) as [r|msg]; cbn; [|now left].
  right. eexists; split; [reflexivity|]. cap_table.
  apply length_take_le.
Qed.

Lemma savePostAnalyticsToStorage_writes mean (now : string) (newData : value) (st : store) :
  writes_within POST_ANALYTICS_DATA st (savePostAnalyticsToStorage mean now newData st).2.
Proof.
  unfold savePostAnalyticsToStorage, try_catch.
  destruct (negb (truthy newData) || _); cbn; [now left|].
  destruct (array_of _ _) as [xs|msg]; cbn; [|now left].
  destruct (findIndex_activityUrn _ _ _) as [i|msg]; cbn; [|now left].
  destruct (sum_prop _ _) as [total|msg]; cbn; [|now left].
  right. eexists; split; [reflexivity|]. cap_table.
  apply length_take_le.
Qed.


Lemma prop_opt_assign (o : value) (k k' : string) (v : value) :
  prop_opt (assign o k v) k' =
  match o with
  | VObj _ => if String.eqb k k' then v else prop_opt o k'
  | _ => prop_opt o k'
  end.
Proof.
  destruct o; try reflexivity.
  cbn [assign]. rewrite !prop_opt_obj, get_field_set_field.
  destruct (String.eqb k k'); reflexivity.
Qed.

Lemma followers_fit_assign (o : value) (k : string) (v : value) :
  followers_fit o ->
  (k = "followers" -> (arr_len v <= 500)%nat) ->
  (k = "history" -> (arr_len v <= 100)%nat) ->
  followers_fit (assign o k v).
Proof.
  intros [Hf Hh] Hkf Hkh. unfold followers_fit. rewrite !prop_opt_assign.
  destruct o; try (split; assumption).
  split.
  - destruct (String.eqb_spec k "followers"); auto.
  - destruct (String.eqb_spec k "history"); auto.
Qed.

Lemma followers_fit_stored (st : store) :
  capacity_ok st ->
  followers_fit (js_or (stored FOLLOWERS st)
                       (VObj [("followers", VArr []); ("followerCount", VNum 0);
                              ("history", VArr [])])).
Proof.
  intros Hok. unfold js_or. destruct (truthy _); [|split; cbn; lia].
  unfold capacity_ok, capacities in Hok. rewrite !Forall_cons in Hok.
  destruct Hok as (_ & _ & _ & _ & _ & _ & Hf & Hh & _). split; assumption.
Qed.

Lemma saveFollowersToStorage_writes (now : string) (newData : value) (st : store) :
  capacity_ok st ->
  writes_within FOLLOWERS st (saveFollowersToStorage now newData st).2.
Proof.
  intros Hok. pose proof (followers_fit_stored st Hok) as Hfit.
  unfold saveFollowersToStorage, try_catch.
  destruct (negb (truthy newData)); cbn; [now left|].
  set (e0 := js_or (stored FOLLOWERS st) _) in *.
  set (fc := prop_opt newData "followerCount").
  assert (Hstep1 :
    forall r, (if truthy fc
               then history ← array_of "history.push"
                                (js_or (prop_opt e0 "history") (VArr []));
                    mret (assign (assign e0 "history"
                                    (VArr (slice_last 100
                                       (history ++ [VObj [("count", fc);
                                                          ("timestamp", VStr now)]])%list)))
                                 "followerCount" fc)
               else mret e0) = Ok r -> followers_fit r).
  { intros r. unfold mret, res_ret.
    destruct (truthy fc); [|intros [= <-]; exact Hfit].
    destruct (array_of _ _) as [h|msg]; cbn [mbind res_bind]; [|intros [=]].
    intros [= <-]. apply followers_fit_assign; try discriminate.
    apply followers_fit_assign; try discriminate; [exact Hfit|].
    intros _. apply length_slice_last. }
  destruct (if truthy fc then _ else _) as [e1|msg]; cbn; [|now left].
  specialize (Hstep1 e1 eq_refl).
  set (fl := prop_opt newData "followers").
  assert (Hstep2 :
    forall r, (if truthy fl && js_gt (prop_opt fl "length") 0
               then xs ← array_of "forEach" (js_or (prop_opt e1 "followers") (VArr []));
                    followerMap ← index_by "entityUrn" xs [];
                    ys ← array_of "newData.followers.forEach" fl;
                    followerMap ← index_by "entityUrn" ys followerMap;
                    mret (assign e1 "followers" (VArr (take 500 (map_values followerMap))))
               else mret e1) = Ok r -> followers_fit r).
  { intros r. unfold mret, res_ret.
    destruct (truthy fl && _); [|intros [= <-]; exact Hstep1].
    destruct (array_of "forEach" _) as [xs|msg]; cbn [mbind res_bind]; [|intros [=]].
    destruct (index_by _ xs _) as [m|msg]; cbn [mbind res_bind]; [|intros [=]].
    destruct (array_of _ fl) as [ys|msg]; cbn [mbind res_bind]; [|intros [=]].
    destruct (index_by _ ys _) as [m'|msg]; cbn [mbind res_bind]; [|intros [=]].
    intros [= <-]. apply followers_fit_assign; try discriminate; [exact Hstep1|].
    intros _. apply length_take_le. }
  destruct (if truthy fl && _ then _ else _) as [e2|msg]; cbn; [|now left].
  specialize (Hstep2 e2 eq_refl).
  right. eexists; split; [reflexivity|].
  assert (Hfin : followers_fit (assign e2 "lastUpdated" (VStr now)))
    by (apply followers_fit_assign; try discriminate; exact Hstep2).
  destruct Hfin as [Hf Hh]. cap_table; assumption.
Qed.

(** The branch of the router each store request takes. *)
Section Routes.

Variable mean : list value -> string.
Variables (e : env) (message : value) (st : store).

Lemma route_SAVE_FEED_POSTS :
  prop message "type" = Ok (VStr "SAVE_FEED_POSTS") ->
  handleMessage mean e message st
  = Ok (saveFeedPostsToStorage (now e) (prop_opt message "posts") st).
Proof. intros H. unfold handleMessage. rewrite H. reflexivity. Qed.

Lemma route_SAVE_COMMENTS :
  prop message "type" = Ok (VStr "SAVE_COMMENTS") ->
  handleMessage mean e message st
  = Ok (saveCommentsToStorage (now e) (prop_opt message "comments") st).
Proof. intros H. unfold handleMessage. rewrite H. reflexivity. Qed.

Lemma route_SAVE_MY_POSTS :
  prop message "type" = Ok (VStr "SAVE_MY_POSTS") ->
  handleMessage mean e message st
  = Ok (saveMyPostsToStorage mean (now e) (prop_opt message "posts") st).
Proof. intros H. unfold handleMessage. rewrite H. reflexivity. Qed.

Lemma route_SAVE_FOLLOWERS :
  prop message "type" = Ok (VStr "SAVE_FOLLOWERS") ->
  handleMessage mean e message st
  = Ok (saveFollowersToStorage (now e) (prop_opt message "data") st).
Proof. intros H. unfold handleMessage. rewrite H. reflexivity. Qed.

Lemma route_SAVE_TRENDING :
  prop message "type" = Ok (VStr "SAVE_TRENDING") ->
  handleMessage mean e message st
  = Ok (saveTrendingToStorage (now e) (prop_opt message "topics") st).
Proof. intros H. unfold handleMessage. rewrite H. reflexivity. Qed.

Lemma route_POST_ANALYTICS_CAPTURED :
  prop message "type" = Ok (VStr "POST_ANALYTICS_CAPTURED") ->
  handleMessage mean e message st
  = Ok (savePostAnalyticsToStorage mean (now e) (prop_opt message "data") st).
Proof. intros H. unfold handleMessage. rewrite H. reflexivity. Qed.

Lemma route_API_CAPTURED :
  prop message "type" = Ok (VStr "API_CAPTURED") ->
  handleMessage mean e message st
  = Ok (appendToStorage (now e) CAPTURED_APIS
          (VObj [("endpoint", prop_opt message "endpoint");
                 ("method", prop_opt message "method");
                 ("responseData", prop_opt message "data");
                 ("url", prop_opt message "url")]) st).
Proof. intros H. unfold handleMessage. rewrite H. reflexivity. Qed.

Lemma step_store_request :
  is_store_request message -> capacity_ok st -> capacity_ok (step mean st (e, message)).
Proof.
  intros (t & Hty & Hin) Hok. unfold step. cbn [fst snd].
  cbn in Hin.
  destruct Hin as [<-|[<-|[<-|[<-|[<-|[<-|[<-|[]]]]]]]].
  - rewrite (route_SAVE_FEED_POSTS Hty).
    eapply writes_within_capacity_ok, saveFeedPostsToStorage_writes; exact Hok.
  - rewrite (route_SAVE_COMMENTS Hty).
    eapply writes_within_capacity_ok, saveCommentsToStorage_writes; exact Hok.
  - rewrite (route_SAVE_MY_POSTS Hty).
    eapply writes_within_capacity_ok, saveMyPostsToStorage_writes; exact Hok.
  - rewrite (route_SAVE_FOLLOWERS Hty).
    eapply writes_within_capacity_ok, saveFollowersToStorage_writes; exact Hok.
  - rewrite (route_SAVE_TRENDING Hty).
    eapply writes_within_capacity_ok, saveTrendingToStorage_writes; exact Hok.
  - rewrite (route_POST_ANALYTICS_CAPTURED Hty).
    eapply writes_within_capacity_ok, savePostAnalyticsToStorage_writes; exact Hok.
  - rewrite (route_API_CAPTURED Hty).
    eapply writes_within_capacity_ok, appendToStorage_writes; exact Hok.
Qed.

End Routes.

Lemma capacity_ok_empty : capacity_ok ∅.
Proof. unfold capacity_ok, capacities. repeat constructor. Qed.


Lemma save_600_feed_posts (now : string) :
  arr_len (collection FEED_POSTS (Some "posts")
             (saveFeedPostsToStorage now (VArr (distinct_posts 600)) ∅).2) = 500%nat.
Proof. vm_compute. reflexivity. Qed.

(** C3. Starting from any storage whose collections fit their capacities
    (the empty storage is one), after every sequence of merge and append
    requests, whatever their batches, each persisted collection still fits:
    feed posts 500, comments 1000, my-posts 200, post-analytics 100,
    trending topics 200, captured-API log 1000, followers list 500,
    follower-count history 100.  A batch of 600 distinct feed posts leaves
    500. *)
Theorem capacity_invariant mean (msgs : list (env * value)) (st : store) :
  capacity_ok st ->
  Forall (fun m => is_store_request m.2) msgs ->
  capacity_ok (fold_left (step mean) msgs st) /\
  (forall now,
      arr_len (collection FEED_POSTS (Some "posts")
                 (saveFeedPostsToStorage now (VArr (distinct_posts 600)) ∅).2) = 500%nat).
Proof.
  intros Hok Hmsgs. split; [|exact save_600_feed_posts].
  revert st Hok. induction Hmsgs as [|[e message] msgs Hm _ IH]; intros st Hok; cbn.
  - exact Hok.
  - apply IH. apply step_store_request; assumption.
Qed.


Lemma capacity_invariant_witness :
  capacity_ok (fold_left (step mean0) [(env0, feed_msg); (env0, followers_msg)] ∅) /\
  (forall now,
      arr_len (collection FEED_POSTS (Some "posts")
                 (saveFeedPostsToStorage now (VArr (distinct_posts 600)) ∅).2) = 500%nat).
Proof.
  apply (capacity_invariant mean0 [(env0, feed_msg); (env0, followers_msg)] ∅).
  - exact capacity_ok_empty.
  - repeat apply List.Forall_cons; try apply List.Forall_nil.
    + exists "SAVE_FEED_POSTS". split; [reflexivity|]. cbn. tauto.
    + exists "SAVE_FOLLOWERS". split; [reflexivity|]. cbn. tauto.
Defined.

(** ** Comments: the two-batch scenario *)

(** After the two batches the stored record is not the one of the second. *)
Lemma comments_second_batch_not_merged :
  let r1 := saveCommentsToStorage "t1" (VArr [c1_first]) ∅ in
  let r2 := saveCommentsToStorage "t2" (VArr [c1_second]) r1.2 in
  collection COMMENTS (Some "comments") r2.2 <> VArr [c1_second].
Proof. vm_compute. discriminate. Qed.

(** C2 (amended). The batch [[{urn:"c1", likes:3}]] and then the batch
    [[{urn:"c1", likes:9, text:"hi"}]] leave exactly one stored record for
    ["c1"], the one of the first batch, unchanged: a comment whose urn is
    already stored is skipped.  The first call reports [newCount = 1], the
    second [newCount = 0]. *)
Theorem comments_two_batches (now1 now2 : string) :
  let r1 := saveCommentsToStorage now1 (VArr [c1_first]) ∅ in
  let r2 := saveCommentsToStorage now2 (VArr [c1_second]) r1.2 in
  collection COMMENTS (Some "comments") r2.2 = VArr [c1_first] /\
  prop_opt r1.1 "newCount" = VNum 1 /\
  prop_opt r2.1 "newCount" = VNum 0.
Proof. vm_compute. repeat split; reflexivity. Qed.

(** ** Summaries *)

(** C6 (the code at the failing input). 201 distinct topics saved into an
    empty storage: 200 topics are stored, and the stored [totalCount] is
    201, the length before truncation. *)
Theorem trending_totalCount_exceeds_collection (now : string) :
  let st' := (saveTrendingToStorage now (VArr (distinct_topics 201)) ∅).2 in
  arr_len (collection TRENDING (Some "topics") st') = 200%nat /\
  prop_opt (stored TRENDING st') "totalCount" = VNum 201.
Proof. vm_compute. split; reflexivity. Qed.

(** ** Followers *)

Lemma truthy_js_or (a b : value) : truthy b = true -> truthy (js_or a b) = true.
Proof. intros Hb. unfold js_or. destruct (truthy a) eqn:Ha; assumption. Qed.

Lemma truthy_followers_data (st : store) : truthy (followers_data st) = true.
Proof. apply truthy_js_or. reflexivity. Qed.

Lemma truthy_assign (o : value) (k : string) (v : value) : truthy (assign o k v) = truthy o.
Proof. destruct o; reflexivity. Qed.

Lemma followers_data_insert (d : value) (st : store) :
  truthy d = true -> followers_data (<[FOLLOWERS := d]> st) = d.
Proof.
  intros Hd. unfold followers_data. rewrite stored_insert.
  destruct (decide (FOLLOWERS = FOLLOWERS)); [|congruence].
  unfold js_or. rewrite Hd, Hd. reflexivity.
Qed.

Lemma prop_opt_falsy (v : value) (k : string) (ys : list value) :
  truthy v = false -> prop_opt v k <> VArr ys.
Proof.
  destruct v; cbn; try discriminate.
  intros Hs. apply negb_false_iff, String.eqb_eq in Hs as ->.
  unfold prop_opt; cbn. destruct (String.eqb k "length"); discriminate.
Qed.

(** C10. When the payload's [followerCount] is 0 or absent, the stored
    [followerCount] and [history] are what they were (no history entry is
    appended), a count of zero being treated like a missing one; a
    non-empty [followers] list of the payload is still merged by
    [entityUrn] into the stored list, cut to 500. *)
Theorem followers_falsy_count_frame (now : string) (newData : value) (st : store) :
  prop_opt newData "followerCount" = VNum 0 \/ prop_opt newData "followerCount" = VUndef ->
  let st' := (saveFollowersToStorage now newData st).2 in
  prop_opt (followers_data st') "followerCount" = prop_opt (followers_data st) "followerCount" /\
  prop_opt (followers_data st') "history" = prop_opt (followers_data st) "history" /\
  (forall fs x ys xs m m',
      followers_data st = VObj fs ->
      prop_opt newData "followers" = VArr (x :: ys) ->
      array_of "forEach" (js_or (prop_opt (followers_data st) "followers") (VArr [])) = Ok xs ->
      index_by "entityUrn" xs [] = Ok m ->
      index_by "entityUrn" (x :: ys) m = Ok m' ->
      prop_opt (followers_data st') "followers" = VArr (take 500 (map_values m'))).
Proof.
  intros Hfc st'. subst st'.
  assert (Hfalsy : truthy (prop_opt newData "followerCount") = false)
    by (destruct Hfc as [-> | ->]; reflexivity).
  unfold saveFollowersToStorage, try_catch.
  destruct (truthy newData) eqn:Hnew; cbn [negb].
  2:{ cbn. repeat split. intros fs x ys xs m m' _ Hfl. now apply prop_opt_falsy in Hfl. }
  rewrite Hfalsy. fold followers_default. fold (followers_data st).
  cbn [mbind res_bind mret res_ret].
  set (e0 := followers_data st).
  set (fl := prop_opt newData "followers").
  destruct (truthy fl && js_gt (prop_opt fl "length") 0) eqn:Hlist.
  - assert (Hsame : forall msg : string,
               let st' := (failure msg, st).2 in
               prop_opt (followers_data st') "followerCount" = prop_opt e0 "followerCount" /\
               prop_opt (followers_data st') "history" = prop_opt e0 "history")
      by (intros msg; split; reflexivity).
    destruct (array_of "forEach" _) as [xs|msg] eqn:Hxs; cbn [mbind res_bind mret res_ret].
    2:{ destruct (Hsame msg). repeat split; try assumption.
        intros ? ? ? ? ? ? _ _ Hxs0. unfold e0 in Hxs. congruence. }
    destruct (index_by "entityUrn" xs []) as [m|msg] eqn:Hm; cbn [mbind res_bind mret res_ret].
    2:{ destruct (Hsame msg). repeat split; try assumption.
        intros ? ? ? ? ? ? _ _ Hxs0 Hm0. unfold e0 in Hxs. congruence. }
    destruct (array_of _ fl) as [ys|msg] eqn:Hys; cbn [mbind res_bind mret res_ret].
    2:{ destruct (Hsame msg). repeat split; try assumption.
        intros ? ? ? ? ? ? _ Hfl. subst fl. rewrite Hfl in Hys. discriminate Hys. }
    destruct (index_by "entityUrn" ys m) as [m'|msg] eqn:Hm'; cbn [mbind res_bind mret res_ret].
    2:{ destruct (Hsame msg). repeat split; try assumption.
        intros ? ? ? ? ? ? _ Hfl Hxs0 Hm0 Hm0'. subst fl. rewrite Hfl in Hys.
        injection Hys as <-. unfold e0 in Hxs. congruence. }
    cbn [snd]. rewrite followers_data_insert
      by (rewrite !truthy_assign; apply truthy_followers_data).
    rewrite !prop_opt_assign.
    repeat split.
    + destruct e0; reflexivity.
    + destruct e0; reflexivity.
    + intros fs x ys0 xs0 m0 m0' He0 Hfl Hxs0 Hm0 Hm0'.
      subst fl e0. rewrite Hfl in Hys. injection Hys as <-.
      rewrite He0 in *. cbn.
      assert (xs0 = xs) as -> by congruence.
      assert (m0 = m) as -> by congruence.
      congruence.
  - cbn [mbind res_bind mret res_ret snd]. rewrite followers_data_insert
      by (rewrite !truthy_assign; apply truthy_followers_data).
    rewrite !prop_opt_assign.
    repeat split.
    + destruct e0; reflexivity.
    + destruct e0; reflexivity.
    + intros fs x ys xs m m' _ Hfl. subst fl. rewrite Hfl in Hlist.
      cbn in Hlist. discriminate Hlist.
Qed.

Lemma followers_falsy_count_frame_witness :
  let st' := (saveFollowersToStorage "t1" followers_nd followers_st).2 in
  prop_opt (followers_data st') "followerCount" = VNum 7 /\
  prop_opt (followers_data st') "history"
  = VArr [VObj [("count", VNum 7); ("timestamp", VStr "t0")]] /\
  prop_opt (followers_data st') "followers"
  = VArr [VObj [("entityUrn", VStr "f1")];
          VObj [("entityUrn", VStr "f2"); ("name", VStr "B")]].
Proof.
  destruct (followers_falsy_count_frame "t1" followers_nd followers_st (or_introl eq_refl))
    as (H1 & H2 & H3).
  split; [exact H1|split; [exact H2|]].
  rewrite (H3 _ _ _ _ _ _ eq_refl eq_refl eq_refl eq_refl eq_refl). reflexivity.
Defined.

(** ** Sorting *)

Lemma in_take {A} (n : nat) (xs : list A) (x : A) : In x (take n xs) -> In x xs.
Proof. intros H. rewrite <- (firstn_skipn n xs). apply in_or_app. now left. Qed.

Lemma in_drop {A} (n : nat) (xs : list A) (x : A) : In x (drop n xs) -> In x xs.
Proof. intros H. rewrite <- (firstn_skipn n xs). apply in_or_app. now right. Qed.

Section SortByKey.

Variable key : value -> Z.
Variable cmp : value -> value -> Z.
Hypothesis cmp_key : forall a b, cmp a b = key b - key a.

Lemma insert_by_perm (x : value) (xs : list value) :
  Permutation (insert_by cmp x xs) (x :: xs).
Proof.
  induction xs as [|y ys IH]; cbn; [reflexivity|].
  destruct (cmp x y <=? 0); [reflexivity|].
  rewrite IH. apply perm_swap.
Qed.

Lemma sort_by_perm (xs : list value) : Permutation (sort_by cmp xs) xs.
Proof.
  induction xs as [|x xs IH]; cbn; [reflexivity|].
  rewrite insert_by_perm. now apply perm_skip.
Qed.

Lemma insert_by_ranked (x : value) (xs : list value) :
  ranked key xs -> ranked key (insert_by cmp x xs).
Proof.
  unfold ranked. induction 1 as [|y ys Hys IH Hy]; cbn.
  - repeat constructor.
  - rewrite cmp_key. destruct (Z.leb_spec (key y - key x) 0) as [Hle|Hgt].
    + constructor; [constructor; assumption|].
      constructor; [lia|].
      rewrite List.Forall_forall in Hy |- *. intros z Hz. specialize (Hy z Hz). lia.
    + constructor; [exact IH|].
      rewrite List.Forall_forall in Hy |- *. intros z Hz.
      apply (Permutation_in _ (insert_by_perm x ys)) in Hz.
      destruct Hz as [<-|Hz]; [lia|auto].
Qed.

Lemma sort_by_ranked (xs : list value) : ranked key (sort_by cmp xs).
Proof.
  induction xs as [|x xs IH]; cbn; [constructor|].
  now apply insert_by_ranked.
Qed.

Lemma ranked_take (n : nat) (xs : list value) : ranked key xs -> ranked key (take n xs).
Proof.
  unfold ranked. intros H. revert n. induction H as [|x xs Hxs IH Hx]; intros [|n]; cbn;
    try constructor.
  - apply IH.
  - rewrite List.Forall_forall in Hx |- *. intros z Hz. apply Hx.
    eapply in_take; eassumption.
Qed.

(** In a ranked sequence a record of the first [n] is never below one of
    the rest. *)
Lemma ranked_take_drop (n : nat) (xs : list value) (k d : value) :
  ranked key xs -> In k (take n xs) -> In d (drop n xs) -> key d <= key k.
Proof.
  unfold ranked. intros H. revert n. induction H as [|x xs Hxs IH Hx]; intros n Hk Hd.
  - destruct n; contradiction.
  - destruct n as [|n]; [contradiction|].
    cbn in Hk, Hd. destruct Hk as [<-|Hk].
    + rewrite List.Forall_forall in Hx. apply Hx.
      eapply in_drop; eassumption.
    + eapply IH; eassumption.
Qed.

(** The sort is stable: a ranked sequence followed by records that are not
    above any of it keeps its place. *)
Lemma sort_by_app_low (ks ds : list value) :
  ranked key ks ->
  (forall k d, In k ks -> In d ds -> key d <= key k) ->
  sort_by cmp (ks ++ ds)%list = (ks ++ sort_by cmp ds)%list.
Proof.
  unfold ranked. intros H. induction H as [|k ks Hks IH Hk]; intros Hlow; cbn; [reflexivity|].
  rewrite IH by (intros; apply Hlow; [now right|assumption]).
  destruct ks as [|k' ks']; cbn.
  - destruct (sort_by cmp ds) as [|d ds'] eqn:Hds; cbn; [reflexivity|].
    rewrite cmp_key.
    assert (Hd : In d ds).
    { apply (Permutation_in _ (sort_by_perm ds)). rewrite Hds. now left. }
    specialize (Hlow k d (or_introl eq_refl) Hd).
    destruct (Z.leb_spec (key d - key k) 0); [reflexivity|lia].
  - rewrite cmp_key. apply Forall_inv in Hk.
    destruct (Z.leb_spec (key k' - key k) 0); [reflexivity|lia].
Qed.

Lemma sort_by_ranked_id (xs : list value) : ranked key xs -> sort_by cmp xs = xs.
Proof.
  intros H. rewrite <- (app_nil_r xs) at 1.
  rewrite sort_by_app_low; [apply app_nil_r|assumption|intros ? ? _ []].
Qed.

End SortByKey.

(** ** Maps filled with fresh keys *)

Lemma prop_truthy (p : value) (k : string) :
  truthy (prop_opt p k) = true -> prop p k = Ok (prop_opt p k).
Proof. destruct p; cbn; try discriminate; reflexivity. Qed.

Lemma map_get_fresh (k : value) (m : jsmap) : map_has k m = false -> map_get k m = VUndef.
Proof.
  unfold map_has. induction m as [|[k' v] m IH]; cbn; [reflexivity|].
  intros H. apply orb_false_elim in H as [-> H]. auto.
Qed.

Lemma map_set_fresh (k v : value) (m : jsmap) :
  map_has k m = false -> map_set k v m = (m ++ [(k, v)])%list.
Proof.
  unfold map_has. induction m as [|[k' v'] m IH]; cbn; [reflexivity|].
  intros H. apply orb_false_elim in H as [-> H]. now rewrite IH.
Qed.

Lemma map_has_app (k : value) (m m' : jsmap) :
  map_has k (m ++ m') = map_has k m || map_has k m'.
Proof. unfold map_has. apply existsb_app. Qed.

Lemma same_value_zero_sym (a b : value) : same_value_zero a b = same_value_zero b a.
Proof.
  destruct a, b; cbn; try reflexivity.
  - destruct b, b0; reflexivity.
  - apply Z.eqb_sym.
  - apply String.eqb_sym.
Qed.

Lemma existsb_false_in {A} (f : A -> bool) (xs : list A) (x : A) :
  existsb f xs = false -> In x xs -> f x = false.
Proof.
  intros H Hin. destruct (f x) eqn:Hf; [|reflexivity].
  rewrite <- H. symmetry. apply existsb_exists. eauto.
Qed.

Lemma addFeedPost_fresh (now : string) (p : value) (m : jsmap) (n : Z) :
  truthy (prop_opt p "urn") = true ->
  map_has (prop_opt p "urn") m = false ->
  addFeedPost now (m, n) p
  = Ok (m ++ [(prop_opt p "urn", merge_record now VUndef p)], n + 1).
Proof.
  intros Hp Hpm. unfold addFeedPost.
  rewrite (prop_truthy _ _ Hp). cbn [mbind res_bind mret res_ret fst snd].
  rewrite Hp, (map_get_fresh _ _ Hpm), (map_set_fresh _ _ _ Hpm). reflexivity.
Qed.

Lemma foldM_addFeedPost_fresh (now : string) (posts : list value) (m : jsmap) (n : Z) :
  forallb (fun p => truthy (prop_opt p "urn")) posts = true ->
  distinct_keys (map (fun p => prop_opt p "urn") posts) = true ->
  (forall p, In p posts -> map_has (prop_opt p "urn") m = false) ->
  foldM (addFeedPost now) posts (m, n)
  = Ok (m ++ map (fun p => (prop_opt p "urn", merge_record now VUndef p)) posts,
        n + Z.of_nat (length posts)).
Proof.
  revert m n. induction posts as [|p posts IH]; intros m n Hurn Hdist Hfresh.
  - cbn. rewrite app_nil_r, Z.add_0_r. reflexivity.
  - cbn [forallb map distinct_keys] in Hurn, Hdist.
    apply andb_prop in Hurn as [Hp Hurn]. apply andb_prop in Hdist as [Hnew Hdist].
    apply negb_true_iff in Hnew.
    pose proof (Hfresh p (or_introl eq_refl)) as Hpm.
    cbn [foldM]. rewrite (addFeedPost_fresh _ _ _ _ Hp Hpm). cbn [mbind res_bind].
    rewrite IH; [|assumption|assumption|].
    + cbn [map length]. rewrite <- app_assoc. cbn [app]. f_equal. f_equal. lia.
    + intros q Hq. rewrite map_has_app, (Hfresh q (or_intror Hq)). cbn.
      rewrite orb_false_r.
      apply (existsb_false_in _ _ _ Hnew). apply in_map_iff. eauto.
Qed.

Lemma prop_opt_merge_fresh (now : string) (p : value) (k : string) :
  truthy (prop_opt p "urn") = true ->
  prop_opt (merge_record now VUndef p) k
  = if String.eqb "lastUpdated" k then VStr now else prop_opt p k.
Proof.
  intros Hp. destruct p; try (cbn in Hp; discriminate Hp).
  unfold merge_record. cbn [spread]. rewrite !prop_opt_obj, get_field_set_field.
  destruct (String.eqb "lastUpdated" k); [reflexivity|].
  change (fold_left _ fs []) with (spread (VObj fs) []).
  rewrite get_field_spread. cbn. destruct (get_field k fs); reflexivity.
Qed.

(** ** Feed statistics never raise on records whose hashtags are arrays *)

Lemma calculateFeedStats_ok (posts : list value) :
  Forall (fun p => hashtags_ok p = true) posts ->
  exists stats, calculateFeedStats posts = Ok stats.
Proof.
  intros Hok. unfold calculateFeedStats.
  destruct posts as [|p0 posts0]; [eexists; reflexivity|].
  set (posts := p0 :: posts0) in *. clearbody posts.
  assert (Hfold : forall counts, exists c,
    foldM (fun counts p =>
             tags ← array_of "forEach" (js_or (prop_opt p "hashtags") (VArr []));
             mret (fold_left (fun c tag => count_key (toString tag) c) tags counts))
          posts counts = Ok c).
  { induction Hok as [|p ps Hp _ IH]; intros counts; cbn [foldM]; [eexists; reflexivity|].
    unfold hashtags_ok in Hp.
    destruct (js_or (prop_opt p "hashtags") (VArr [])); try discriminate Hp.
    cbn [array_of mbind res_bind mret res_ret]. apply IH. }
  destruct (Hfold []) as [c ->]. cbn [mbind res_bind]. eexists; reflexivity.
Qed.

Lemma js_gt_num_or0 (v : value) (n : Z) : 1 <= n -> js_gt v n = (n <? num_or0 v).
Proof.
  intros Hn. destruct v; cbn; try reflexivity; try (symmetry; apply Z.ltb_ge; lia).
  destruct b; symmetry; apply Z.ltb_ge; lia.
Qed.

Lemma feedTopHits_spec (ps : list value) :
  feedTopHits ps = take 20 (List.filter (fun p => 50 <? engagementScore p) ps).
Proof.
  unfold feedTopHits. f_equal. apply filter_ext. intros p.
  apply js_gt_num_or0. lia.
Qed.

(** ** Feed posts: rank and top hits *)

Lemma stored_empty (key : string) : stored key ∅ = VNull.
Proof. unfold stored. rewrite lookup_empty. reflexivity. Qed.

Lemma Forall_insert_by {A} (P : A -> Prop) (cmp : A -> A -> Z) (x : A) (xs : list A) :
  P x -> Forall P xs -> Forall P (insert_by cmp x xs).
Proof.
  intros Hx. induction 1 as [|y ys Hy Hys IH]; cbn; [repeat constructor; assumption|].
  destruct (cmp x y <=? 0); repeat (constructor; try assumption).
Qed.

Lemma Forall_sort_by {A} (P : A -> Prop) (cmp : A -> A -> Z) (xs : list A) :
  Forall P xs -> Forall P (sort_by cmp xs).
Proof.
  induction 1 as [|x xs Hx _ IH]; cbn; [constructor|].
  now apply Forall_insert_by.
Qed.

Lemma feed_scenario (now : string) :
  let st' := (saveFeedPostsToStorage now (VArr [feed_a; feed_b]) ∅).2 in
  collection FEED_POSTS (Some "posts") st'
  = VArr [VObj [("urn", VStr "a"); ("engagementScore", VNum 60); ("lastUpdated", VStr now)];
          VObj [("urn", VStr "b"); ("engagementScore", VNum 10); ("lastUpdated", VStr now)]] /\
  prop_opt (stored FEED_POSTS st') "topHits"
  = VArr [VObj [("urn", VStr "a"); ("engagementScore", VNum 60); ("lastUpdated", VStr now)]].
Proof. vm_compute. split; reflexivity. Qed.

Lemma feed_save_ranked (now : string) (newPosts : value) (st : store) :
  let st' := (saveFeedPostsToStorage now newPosts st).2 in
  st' = st \/
  exists ps stats,
    st' = <[FEED_POSTS :=
              VObj [("posts", VArr ps);
                    ("topHits",
                     VArr (take 20 (List.filter (fun p => 50 <? engagementScore p) ps)));
                    ("totalCount", len ps); ("lastUpdated", VStr now);
                    ("stats", stats)]]> st /\
    ranked engagementScore ps /\ (length ps <= 500)%nat.
Proof.
  unfold saveFeedPostsToStorage, try_catch.
  destruct newPosts as [| | | | |[|p posts]|]; cbn; try (now left).
  destruct (array_of _ _) as [xs|msg]; cbn; [|now left].
  destruct (index_by _ _ _) as [m|msg]; cbn; [|now left].
  destruct (addFeedPost now (m, 0) p ≫= _) as [r|msg]; cbn; [|now left].
  destruct (calculateFeedStats _) as [stats|msg]; cbn; [|now left].
  right. eexists _, stats. rewrite feedTopHits_spec.
  split; [reflexivity|]. split.
  - apply ranked_take.
    apply (sort_by_ranked engagementScore); reflexivity.
  - apply length_take_le.
Qed.

Lemma feed_save_top (now : string) (posts : list value) :
  feed_batch_ok posts = true -> posts <> [] ->
  let st' := (saveFeedPostsToStorage now (VArr posts) ∅).2 in
  exists kept dropped,
    collection FEED_POSTS (Some "posts") st' = VArr kept /\
    Permutation (kept ++ dropped) (map (merge_record now VUndef) posts) /\
    length kept = Nat.min 500 (length posts) /\
    (forall k d, In k kept -> In d dropped -> engagementScore d <= engagementScore k).
Proof.
  intros Hok Hne. unfold feed_batch_ok in Hok.
  apply andb_prop in Hok as [Hall Hdist].
  assert (Hurn : forallb (fun p => truthy (prop_opt p "urn")) posts = true).
  { rewrite forallb_forall in Hall |- *. intros p Hp.
    specialize (Hall p Hp). now apply andb_prop in Hall as [-> _]. }
  set (merged := map (merge_record now VUndef) posts).
  set (cmp := fun a b : value => engagementScore b - engagementScore a).
  assert (Htags : Forall (fun p => hashtags_ok p = true) (take 500 (sort_by cmp merged))).
  { apply Forall_take, Forall_sort_by. subst merged. rewrite Forall_map.
    rewrite forallb_forall in Hall. apply List.Forall_forall. intros p Hp.
    specialize (Hall p Hp). apply andb_prop in Hall as [Hu Hh].
    unfold hashtags_ok in *. rewrite (prop_opt_merge_fresh _ _ _ Hu). exact Hh. }
  destruct (calculateFeedStats_ok _ Htags) as [stats Hstats].
  exists (take 500 (sort_by cmp merged)), (drop 500 (sort_by cmp merged)).
  split; [|split; [|split]].
  - unfold saveFeedPostsToStorage, try_catch.
    destruct posts as [|p posts']; [contradiction|].
    set (posts := p :: posts') in *.
    rewrite stored_empty.
    cbn [js_or truthy array_of index_by foldM mbind res_bind mret res_ret].
    rewrite (foldM_addFeedPost_fresh now posts [] 0 Hurn Hdist) by reflexivity.
    cbn [mbind res_bind mret res_ret fst snd app].
    unfold map_values. rewrite map_map. cbn [snd].
    change (map (fun x : value => merge_record now VUndef x) posts) with merged.
    fold cmp. rewrite Hstats.
    cbn [mbind res_bind mret res_ret fst snd].
    unfold collection. rewrite stored_insert.
    destruct (decide (FEED_POSTS = FEED_POSTS)); [|congruence]. reflexivity.
  - rewrite take_drop. apply sort_by_perm.
  - rewrite length_take, length_sort_by. subst merged. rewrite length_map. lia.
  - intros k d. apply (ranked_take_drop engagementScore).
    apply (sort_by_ranked engagementScore). reflexivity.
Qed.



(** ** Identity-keyed merge *)

Lemma has_field_true_get_field (k : string) (fs : list (string * value)) :
  has_field k fs = true <-> is_Some (get_field k fs).
Proof.
  pose proof (has_field_get_field k fs) as H.
  destruct (has_field k fs), (get_field k fs) as [v|].
  - split; intros _; [eexists|]; reflexivity.
  - destruct H as [_ H]. discriminate (H eq_refl).
  - destruct H as [H _]. discriminate (H eq_refl).
  - split; [discriminate|]. intros [? [=]].
Qed.

Lemma get_field_spread_any (k : string) (e : value) :
  get_field k (spread e []) = get_field k (fields_of e).
Proof.
  destruct e; try reflexivity.
  rewrite get_field_spread. cbn. destruct (get_field k fs); reflexivity.
Qed.

Lemma get_field_merge_record (now : string) (e : value) (pfs : list (string * value))
      (k : string) :
  get_field k (fields_of (merge_record now e (VObj pfs)))
  = if String.eqb "lastUpdated" k then Some (VStr now)
    else match get_field k pfs with
         | Some v => Some v
         | None => get_field k (fields_of e)
         end.
Proof.
  unfold merge_record. cbn [fields_of].
  rewrite get_field_set_field, get_field_spread, get_field_spread_any. reflexivity.
Qed.

(** The record that [{...existing, ...incoming, lastUpdated: now}] builds. *)
Lemma merge_record_fields (now : string) (e : value) (pfs : list (string * value))
      (k : string) :
  let r := merge_record now e (VObj pfs) in
  (has_field k (fields_of r)
   = has_field k (fields_of e) || has_field k pfs || String.eqb "lastUpdated" k) /\
  (k <> "lastUpdated" -> has_field k pfs = true ->
   prop_opt r k = prop_opt (VObj pfs) k) /\
  (k <> "lastUpdated" -> has_field k pfs = false ->
   prop_opt r k = default VUndef (get_field k (fields_of e))) /\
  prop_opt r "lastUpdated" = VStr now.
Proof.
  intros r. subst r.
  pose proof (get_field_merge_record now e pfs k) as Hget.
  split; [|split; [|split]].
  - destruct (has_field k (fields_of (merge_record now e (VObj pfs)))) eqn:Hr.
    + apply has_field_true_get_field in Hr. rewrite Hget in Hr. symmetry.
      destruct (String.eqb "lastUpdated" k); [now rewrite orb_true_r|].
      rewrite orb_false_r. apply orb_true_iff.
      destruct (get_field k pfs) eqn:Hp.
      * right. apply has_field_true_get_field. rewrite Hp. eauto.
      * left. now apply has_field_true_get_field.
    + apply has_field_get_field in Hr. rewrite Hget in Hr. symmetry.
      destruct (String.eqb "lastUpdated" k); [discriminate|].
      rewrite orb_false_r.
      destruct (get_field k pfs) eqn:Hp; [discriminate|].
      apply orb_false_iff. split; now apply has_field_get_field.
  - intros Hk Hhas. apply has_field_true_get_field in Hhas as [v Hv].
    unfold merge_record in *. cbn [fields_of] in Hget. rewrite !prop_opt_obj, Hget, Hv.
    destruct (String.eqb_spec "lastUpdated" k); [congruence|reflexivity].
  - intros Hk Hhas. apply has_field_get_field in Hhas.
    unfold merge_record in *. cbn [fields_of] in Hget. rewrite !prop_opt_obj, Hget, Hhas.
    destruct (String.eqb_spec "lastUpdated" k); [congruence|reflexivity].
  - unfold merge_record. rewrite prop_opt_obj, get_field_set_field. reflexivity.
Qed.

Lemma length_map_set (k v : value) (m : jsmap) : (length (map_set k v m) <= S (length m))%nat.
Proof.
  induction m as [|[k' v'] m IH]; cbn; [lia|].
  destruct (same_value_zero k' k); cbn; lia.
Qed.

Lemma in_map_set (k v : value) (m : jsmap) : In v (map_values (map_set k v m)).
Proof.
  unfold map_values. induction m as [|[k' v'] m IH]; cbn; [now left|].
  destruct (same_value_zero k' k); cbn; [now left|now right].
Qed.

Lemma length_index_by (key : string) (xs : list value) (m0 m : jsmap) :
  index_by key xs m0 = Ok m -> (length m <= length m0 + length xs)%nat.
Proof.
  unfold index_by. revert m0. induction xs as [|x xs IH]; intros m0; cbn [foldM].
  - intros [= <-]. lia.
  - destruct (prop x key) as [u|msg]; cbn [mbind res_bind mret res_ret]; [|intros [=]].
    intros H. apply IH in H. cbn [length].
    destruct (truthy u); [|lia].
    pose proof (length_map_set u x m0). lia.
Qed.

Lemma take_all {A} (n : nat) (xs : list A) : (length xs <= n)%nat -> take n xs = xs.
Proof. intros H. now apply firstn_all2. Qed.

Lemma addMyPost_step (now : string) (m : jsmap) (n : Z) (p : value) :
  truthy (prop_opt p "urn") = true ->
  addMyPost now (m, n) p
  = Ok (map_set (prop_opt p "urn") (merge_record now (map_get (prop_opt p "urn") m) p) m,
        if map_has (prop_opt p "urn") m then n else n + 1).
Proof.
  intros Hp. unfold addMyPost. rewrite (prop_truthy _ _ Hp).
  cbn [mbind res_bind mret res_ret fst snd]. rewrite Hp. reflexivity.
Qed.

Lemma addFeedPost_step (now : string) (m : jsmap) (n : Z) (p : value) :
  truthy (prop_opt p "urn") = true ->
  addFeedPost now (m, n) p
  = Ok (map_set (prop_opt p "urn") (merge_record now (map_get (prop_opt p "urn") m) p) m,
        if truthy (map_get (prop_opt p "urn") m) then n else n + 1).
Proof.
  intros Hp. unfold addFeedPost. rewrite (prop_truthy _ _ Hp).
  cbn [mbind res_bind mret res_ret fst snd]. rewrite Hp. reflexivity.
Qed.

(** An incoming record of my-posts over the stored one with its key. *)
Lemma my_posts_merge_stored mean (now : string) (st : store) (xs : list value) (m : jsmap)
      (p : value) :
  my_posts_array st = VArr xs ->
  index_by "urn" xs [] = Ok m ->
  (length xs < 200)%nat ->
  truthy (prop_opt p "urn") = true ->
  exists ps,
    collection MY_POSTS (Some "posts") (saveMyPostsToStorage mean now (VArr [p]) st).2
    = VArr ps /\
    In (merge_record now (map_get (prop_opt p "urn") m) p) ps.
Proof.
  intros Hxs Hm Hlen Hp.
  unfold saveMyPostsToStorage, try_catch.
  fold (my_posts_array st). rewrite Hxs.
  cbn [array_of mbind res_bind mret res_ret]. rewrite Hm.
  cbn [mbind res_bind mret res_ret foldM]. rewrite (addMyPost_step _ _ _ _ Hp).
  cbn [mbind res_bind mret res_ret fst snd].
  set (merged := merge_record now (map_get (prop_opt p "urn") m) p).
  set (m' := map_set (prop_opt p "urn") merged m).
  set (cmp := fun a b : value => myPostScore b - myPostScore a).
  eexists. split.
  - unfold collection. rewrite stored_insert.
    destruct (decide (MY_POSTS = MY_POSTS)); [|congruence]. reflexivity.
  - rewrite take_all.
    + apply (Permutation_in _ (Permutation_sym (sort_by_perm cmp (map_values m')))).
      apply in_map_set.
    + rewrite length_sort_by. unfold map_values. rewrite length_map.
      pose proof (length_map_set (prop_opt p "urn") merged m).
      pose proof (length_index_by _ _ _ _ Hm). cbn in *. subst m'. lia.
Qed.

(** Two incoming records with one key in a batch, into an empty storage. *)
Lemma feed_merge_in_batch (now : string) (p1 p2 : value) :
  truthy (prop_opt p1 "urn") = true ->
  same_value_zero (prop_opt p1 "urn") (prop_opt p2 "urn") = true ->
  hashtags_ok (merge_record now (merge_record now VUndef p1) p2) = true ->
  collection FEED_POSTS (Some "posts") (saveFeedPostsToStorage now (VArr [p1; p2]) ∅).2
  = VArr [merge_record now (merge_record now VUndef p1) p2].
Proof.
  intros H1 Hsame Htags.
  assert (H2 : truthy (prop_opt p2 "urn") = true).
  { destruct (prop_opt p1 "urn"), (prop_opt p2 "urn"); cbn in *; try discriminate;
      try assumption.
    - apply Bool.eqb_prop in Hsame. congruence.
    - apply Z.eqb_eq in Hsame. congruence.
    - apply String.eqb_eq in Hsame. congruence. }
  unfold saveFeedPostsToStorage, try_catch. rewrite stored_empty.
  cbn [js_or truthy array_of index_by foldM mbind res_bind mret res_ret].
  rewrite addFeedPost_fresh by (assumption || reflexivity).
  cbn [mbind res_bind mret res_ret app]. rewrite (addFeedPost_step _ _ _ _ H2).
  cbn [mbind res_bind mret res_ret fst snd map_get map_set].
  rewrite Hsame. cbn [map_values map snd sort_by insert_by take].
  destruct (calculateFeedStats_ok [merge_record now (merge_record now VUndef p1) p2])
    as [stats Hstats]; [repeat constructor; exact Htags|].
  rewrite Hstats. cbn [mbind res_bind mret res_ret fst snd].
  unfold collection. rewrite stored_insert.
  destruct (decide (FEED_POSTS = FEED_POSTS)); [|congruence]. reflexivity.
Qed.

Lemma map_get_map_set_same (k v : value) (m : jsmap) :
  same_value_zero k k = true -> map_get k (map_set k v m) = v.
Proof.
  intros Hk. induction m as [|[k' v'] m IH]; cbn.
  - now rewrite Hk.
  - destruct (same_value_zero k' k) eqn:Hk'; cbn; rewrite Hk'; [reflexivity|exact IH].
Qed.

(** The comments loop leaves a stored record as it is. *)
Lemma addComment_present (m : jsmap) (n : Z) (c : value) :
  truthy (prop_opt c "urn") = true ->
  map_has (prop_opt c "urn") m = true ->
  addComment (m, n) c = Ok (m, n).
Proof.
  intros Hc Hhas. unfold addComment. rewrite (prop_truthy _ _ Hc).
  cbn [mbind res_bind mret res_ret fst snd]. rewrite Hhas, andb_false_r. reflexivity.
Qed.

(** The trending loop replaces it by the incoming record. *)
Lemma addTopic_replaces (now : string) (m : jsmap) (t : value) :
  truthy (prop_opt t "topic") = true ->
  same_value_zero (prop_opt t "topic") (prop_opt t "topic") = true ->
  exists m',
    addTopic now m t = Ok m' /\
    map_get (prop_opt t "topic") m' = VObj (set_field "lastSeen" (VStr now) (spread t [])).
Proof.
  intros Ht Hk. unfold addTopic. rewrite (prop_truthy _ _ Ht).
  cbn [mbind res_bind mret res_ret]. rewrite Ht.
  eexists. split; [reflexivity|]. now apply map_get_map_set_same.
Qed.




(** ** Message protocol *)

Lemma structured_failure (msg : string) : structured (failure msg).
Proof. structured_false. Qed.

Lemma structured_getLinkedInCookies e : structured (getLinkedInCookies e).
Proof. unfold getLinkedInCookies. structured_tc. Qed.

Lemma structured_appendToStorage now key newData st :
  structured (appendToStorage now key newData st).1.
Proof. unfold appendToStorage. structured_tc. Qed.

Lemma structured_saveFeedPostsToStorage now newPosts st :
  structured (saveFeedPostsToStorage now newPosts st).1.
Proof. unfold saveFeedPostsToStorage. structured_tc. Qed.

Lemma structured_saveCommentsToStorage now newComments st :
  structured (saveCommentsToStorage now newComments st).1.
Proof. unfold saveCommentsToStorage. structured_tc. Qed.

Lemma structured_saveMyPostsToStorage mean now newPosts st :
  structured (saveMyPostsToStorage mean now newPosts st).1.
Proof. unfold saveMyPostsToStorage. structured_tc. Qed.

Lemma structured_savePostAnalyticsToStorage mean now newData st :
  structured (savePostAnalyticsToStorage mean now newData st).1.
Proof. unfold savePostAnalyticsToStorage. structured_tc. Qed.

Lemma structured_saveFollowersToStorage now newData st :
  structured (saveFollowersToStorage now newData st).1.
Proof. unfold saveFollowersToStorage. structured_tc. Qed.

Lemma structured_saveTrendingToStorage now newTopics st :
  structured (saveTrendingToStorage now newTopics st).1.
Proof. unfold saveTrendingToStorage. structured_tc. Qed.

Lemma structured_saveAudienceDataToStorage now newData st :
  structured (saveAudienceDataToStorage now newData st).1.
Proof. unfold saveAudienceDataToStorage. structured_tc. Qed.

Lemma structured_exportAsCSV e dataKey st r :
  exportAsCSV e dataKey st = Ok r -> structured r.
Proof.
  unfold exportAsCSV. intros H. unfold mbind, res_bind, mret, res_ret in H.
  repeat case_match; simplify_eq; try structured_true; structured_false.
Qed.

Lemma structured_getStats st r : getStats st = Ok r -> structured r.
Proof.
  unfold getStats. intros H. unfold mbind, res_bind, mret, res_ret in H.
  repeat case_match; simplify_eq; structured_true.
Qed.

(** The remaining branches of the router. *)
Section MoreRoutes.

Variable mean : list value -> string.
Variables (e : env) (message : value) (st : store).

Lemma route_GET_COOKIES :
  prop message "type" = Ok (VStr "GET_COOKIES") ->
  handleMessage mean e message st
  = Ok (getLinkedInCookies e, st).
Proof. intros H. unfold handleMessage. rewrite H. reflexivity. Qed.

Lemma route_SAVE_DATA :
  prop message "type" = Ok (VStr "SAVE_DATA") ->
  handleMessage mean e message st
  = Ok (saveToStorage (toString (prop_opt message "key")) (prop_opt message "data") st).
Proof. intros H. unfold handleMessage. rewrite H. reflexivity. Qed.

Lemma route_GET_DATA :
  prop message "type" = Ok (VStr "GET_DATA") ->
  handleMessage mean e message st
  = Ok (getFromStorage (toString (prop_opt message "key")) st, st).
Proof. intros H. unfold handleMessage. rewrite H. reflexivity. Qed.

Lemma route_GET_ALL_DATA :
  prop message "type" = Ok (VStr "GET_ALL_DATA") ->
  handleMessage mean e message st
  = Ok (getAllStoredData st, st).
Proof. intros H. unfold handleMessage. rewrite H. reflexivity. Qed.

Lemma route_CLEAR_DATA :
  prop message "type" = Ok (VStr "CLEAR_DATA") ->
  handleMessage mean e message st
  = Ok (clearStorage st).
Proof. intros H. unfold handleMessage. rewrite H. reflexivity. Qed.

Lemma route_APPEND_DATA :
  prop message "type" = Ok (VStr "APPEND_DATA") ->
  handleMessage mean e message st
  = Ok (appendToStorage (now e) (toString (prop_opt message "key")) (prop_opt message "data") st).
Proof. intros H. unfold handleMessage. rewrite H. reflexivity. Qed.

Lemma route_PROFILE_CAPTURED :
  prop message "type" = Ok (VStr "PROFILE_CAPTURED") ->
  handleMessage mean e message st
  = Ok (saveToStorage PROFILE_DATA (prop_opt message "data") st).
Proof. intros H. unfold handleMessage. rewrite H. reflexivity. Qed.

Lemma route_ANALYTICS_CAPTURED :
  prop message "type" = Ok (VStr "ANALYTICS_CAPTURED") ->
  handleMessage mean e message st
  = Ok (saveToStorage ANALYTICS_DATA (prop_opt message "data") st).
Proof. intros H. unfold handleMessage. rewrite H. reflexivity. Qed.

Lemma route_AUDIENCE_DATA_CAPTURED :
  prop message "type" = Ok (VStr "AUDIENCE_DATA_CAPTURED") ->
  handleMessage mean e message st
  = Ok (saveAudienceDataToStorage (now e) (prop_opt message "data") st).
Proof. intros H. unfold handleMessage. rewrite H. reflexivity. Qed.

Lemma route_EXPORT_JSON :
  prop message "type" = Ok (VStr "EXPORT_JSON") ->
  handleMessage mean e message st
  = Ok (exportAsJSON e st, st).
Proof. intros H. unfold handleMessage. rewrite H. reflexivity. Qed.

Lemma route_EXPORT_CSV :
  prop message "type" = Ok (VStr "EXPORT_CSV") ->
  handleMessage mean e message st
  = (r ← exportAsCSV e (prop_opt message "dataKey") st; mret (r, st)).
Proof. intros H. unfold handleMessage. rewrite H. reflexivity. Qed.

Lemma route_GET_STATS :
  prop message "type" = Ok (VStr "GET_STATS") ->
  handleMessage mean e message st
  = (r ← getStats st; mret (r, st)).
Proof. intros H. unfold handleMessage. rewrite H. reflexivity. Qed.

Lemma route_FETCH_POSTS :
  prop message "type" = Ok (VStr "FETCH_POSTS") ->
  handleMessage mean e message st
  = Ok (fetchMyPosts e st).
Proof. intros H. unfold handleMessage. rewrite H. reflexivity. Qed.

Lemma route_FETCH_FEED_POSTS :
  prop message "type" = Ok (VStr "FETCH_FEED_POSTS") ->
  handleMessage mean e message st
  = Ok (fetchFeedPosts, st).
Proof. intros H. unfold handleMessage. rewrite H. reflexivity. Qed.

Lemma route_FETCH_ALL_DATA :
  prop message "type" = Ok (VStr "FETCH_ALL_DATA") ->
  handleMessage mean e message st
  = (p ← directApi e "fetchMyProfile" [] st;
     a ← directApi e "fetchAnalytics" [] p.2;
     c ← directApi e "fetchAllConnections" [VNum 500] a.2;
     mret (VObj [("success", VBool true); ("profile", p.1); ("analytics", a.1);
                 ("connections", c.1);
                 ("posts",
                  VObj [("success", VBool true);
                        ("data", VObj [("posts", VArr []); ("topHits", VArr [])])])],
           c.2)).
Proof. intros H. unfold handleMessage. rewrite H. reflexivity. Qed.

End MoreRoutes.

Lemma handleMessage_unknown mean e message st ty :
  prop message "type" = Ok ty ->
  (forall t, In t message_types -> ty <> VStr t) ->
  handleMessage mean e message st = Ok (failure "Unknown message type", st).
Proof.
  intros Hty Hunknown. unfold handleMessage. rewrite Hty.
  cbn [mbind res_bind]. cbv zeta.
  assert (Hno : forall t, In t message_types -> strict_eq ty (VStr t) = false).
  { intros t Ht. specialize (Hunknown t Ht).
    destruct ty; try reflexivity. cbn.
    destruct (String.eqb_spec s t); [congruence|reflexivity]. }
  rewrite !Hno by (cbn; tauto). reflexivity.
Qed.

Lemma handleMessage_CHECK_AUTH mean e message st :
  prop message "type" = Ok (VStr "CHECK_AUTH") ->
  handleMessage mean e message st = Ok (checkAuthentication e, st).
Proof. intros H. unfold handleMessage. rewrite H. reflexivity. Qed.

Lemma handleMessage_structured mean e message st ty resp st' :
  prop message "type" = Ok ty ->
  ty <> VStr "CHECK_AUTH" ->
  (forall t, In t api_requests -> ty <> VStr t) ->
  handleMessage mean e message st = Ok (resp, st') ->
  structured resp.
Proof.
  intros Hty Hauth Hapi Hr.
  assert (Hcases : (exists t, ty = VStr t /\ In t message_types) \/
                   (forall t, In t message_types -> ty <> VStr t)).
  { destruct ty; try (right; intros t _; discriminate).
    destruct (in_dec string_dec s message_types) as [Hin|Hout].
    - left. eauto.
    - right. intros t Ht [= ->]. contradiction. }
  destruct Hcases as [(t & -> & Hin)|Hunknown].
  2:{ rewrite (handleMessage_unknown _ _ _ _ _ Hty Hunknown) in Hr.
      injection Hr as <- _. apply structured_failure. }
  assert (Hsplit : forall (x : value * store), Ok x = Ok (resp, st') -> resp = x.1)
    by (intros x [= ->]; reflexivity).
  unfold message_types in Hin. cbn [In] in Hin.
  repeat (destruct Hin as [<-|Hin]); try contradiction.
  - rewrite (route_GET_COOKIES _ _ _ _ Hty) in Hr. apply Hsplit in Hr as ->.
    apply structured_getLinkedInCookies.
  - rewrite (route_SAVE_DATA _ _ _ _ Hty) in Hr. apply Hsplit in Hr as ->. structured_true.
  - rewrite (route_GET_DATA _ _ _ _ Hty) in Hr. apply Hsplit in Hr as ->. structured_true.
  - rewrite (route_GET_ALL_DATA _ _ _ _ Hty) in Hr. apply Hsplit in Hr as ->. structured_true.
  - rewrite (route_CLEAR_DATA _ _ _ _ Hty) in Hr. apply Hsplit in Hr as ->. structured_true.
  - rewrite (route_APPEND_DATA _ _ _ _ Hty) in Hr. apply Hsplit in Hr as ->.
    apply structured_appendToStorage.
  - rewrite (route_API_CAPTURED _ _ _ _ Hty) in Hr. apply Hsplit in Hr as ->.
    apply structured_appendToStorage.
  - rewrite (route_PROFILE_CAPTURED _ _ _ _ Hty) in Hr. apply Hsplit in Hr as ->.
    structured_true.
  - rewrite (route_ANALYTICS_CAPTURED _ _ _ _ Hty) in Hr. apply Hsplit in Hr as ->.
    structured_true.
  - rewrite (route_POST_ANALYTICS_CAPTURED _ _ _ _ Hty) in Hr. apply Hsplit in Hr as ->.
    apply structured_savePostAnalyticsToStorage.
  - rewrite (route_AUDIENCE_DATA_CAPTURED _ _ _ _ Hty) in Hr. apply Hsplit in Hr as ->.
    apply structured_saveAudienceDataToStorage.
  - rewrite (route_SAVE_FEED_POSTS _ _ _ _ Hty) in Hr. apply Hsplit in Hr as ->.
    apply structured_saveFeedPostsToStorage.
  - rewrite (route_SAVE_COMMENTS _ _ _ _ Hty) in Hr. apply Hsplit in Hr as ->.
    apply structured_saveCommentsToStorage.
  - rewrite (route_SAVE_MY_POSTS _ _ _ _ Hty) in Hr. apply Hsplit in Hr as ->.
    apply structured_saveMyPostsToStorage.
  - rewrite (route_SAVE_FOLLOWERS _ _ _ _ Hty) in Hr. apply Hsplit in Hr as ->.
    apply structured_saveFollowersToStorage.
  - rewrite (route_SAVE_TRENDING _ _ _ _ Hty) in Hr. apply Hsplit in Hr as ->.
    apply structured_saveTrendingToStorage.
  - rewrite (route_EXPORT_JSON _ _ _ _ Hty) in Hr. apply Hsplit in Hr as ->. structured_true.
  - rewrite (route_EXPORT_CSV _ _ _ _ Hty) in Hr.
    destruct (exportAsCSV _ _ _) as [r|msg] eqn:Hcsv; [|discriminate Hr].
    apply Hsplit in Hr as ->. eapply structured_exportAsCSV; eassumption.
  - rewrite (route_GET_STATS _ _ _ _ Hty) in Hr.
    destruct (getStats _) as [r|msg] eqn:Hstats; [|discriminate Hr].
    apply Hsplit in Hr as ->. eapply structured_getStats; eassumption.
  - exfalso. apply (Hapi "FETCH_PROFILE"); [cbn; tauto|reflexivity].
  - exfalso. apply (Hapi "FETCH_ANALYTICS"); [cbn; tauto|reflexivity].
  - exfalso. apply (Hapi "FETCH_CONNECTIONS"); [cbn; tauto|reflexivity].
  - exfalso. apply (Hapi "FETCH_CONNECTIONS_SUMMARY"); [cbn; tauto|reflexivity].
  - exfalso. apply (Hapi "FETCH_ALL_CONNECTIONS"); [cbn; tauto|reflexivity].
  - rewrite (route_FETCH_POSTS _ _ _ _ Hty) in Hr. apply Hsplit in Hr as ->. structured_true.
  - rewrite (route_FETCH_FEED_POSTS _ _ _ _ Hty) in Hr. apply Hsplit in Hr as ->.
    structured_true.
  - rewrite (route_FETCH_ALL_DATA _ _ _ _ Hty) in Hr.
    destruct (directApi e "fetchMyProfile" [] st) as [p|msg]; [|discriminate Hr].
    cbn [mbind res_bind] in Hr.
    destruct (directApi e "fetchAnalytics" [] p.2) as [a|msg]; [|discriminate Hr].
    cbn [mbind res_bind] in Hr.
    destruct (directApi e "fetchAllConnections" [VNum 500] a.2) as [c|msg];
      [|discriminate Hr].
    apply Hsplit in Hr as ->. structured_true.
Qed.

Section ApiRoutes.

Variable mean : list value -> string.
Variables (e : env) (message : value) (st : store).

Lemma route_api (t : string) :
  In t api_requests ->
  prop message "type" = Ok (VStr t) ->
  exists name args, handleMessage mean e message st = directApi e name args st.
Proof.
  intros Hin Hty. unfold api_requests in Hin. cbn [In] in Hin.
  repeat (destruct Hin as [<-|Hin]); try contradiction;
    unfold handleMessage; rewrite Hty; eexists _, _; reflexivity.
Qed.

End ApiRoutes.




(** ** Resubmitting a batch *)

(** ** Upserts *)

Lemma same_value_zero_eq (a b : value) : same_value_zero a b = true -> a = b.
Proof.
  destruct a, b; cbn; try discriminate; try reflexivity.
  - intros H. apply Bool.eqb_prop in H. congruence.
  - intros H. apply Z.eqb_eq in H. congruence.
  - intros H. apply String.eqb_eq in H. congruence.
Qed.

Lemma same_value_zero_refl (a : value) : primitive a = true -> same_value_zero a a = true.
Proof.
  destruct a; cbn; try discriminate; try reflexivity.
  - intros _. destruct b; reflexivity.
  - intros _. apply Z.eqb_refl.
  - intros _. apply String.eqb_refl.
Qed.

Lemma map_get_map_set (u k v : value) (m : jsmap) :
  map_get u (map_set k v m) = if same_value_zero k u then v else map_get u m.
Proof.
  induction m as [|[k' v'] m IH]; cbn; [reflexivity|].
  destruct (same_value_zero k' k) eqn:Hk; cbn.
  - apply same_value_zero_eq in Hk as ->. destruct (same_value_zero k u); reflexivity.
  - rewrite IH. destruct (same_value_zero k' u) eqn:Hu; [|reflexivity].
    apply same_value_zero_eq in Hu as ->. now rewrite same_value_zero_sym, Hk.
Qed.

Lemma map_has_map_set (u k v : value) (m : jsmap) :
  map_has u (map_set k v m) = map_has u m || same_value_zero k u.
Proof.
  unfold map_has. induction m as [|[k' v'] m IH]; cbn; [now rewrite orb_false_r|].
  destruct (same_value_zero k' k) eqn:Hk; cbn.
  - apply same_value_zero_eq in Hk as ->.
    destruct (same_value_zero k u); cbn; [reflexivity|now rewrite orb_false_r].
  - rewrite IH. now rewrite orb_assoc.
Qed.

Lemma keys_map_set (k v : value) (m : jsmap) :
  map fst (map_set k v m) = if map_has k m then map fst m else map fst m ++ [k].
Proof.
  unfold map_has. induction m as [|[k' v'] m IH]; cbn; [reflexivity|].
  destruct (same_value_zero k' k) eqn:Hk; cbn; [reflexivity|].
  rewrite IH. destruct (existsb _ m); reflexivity.
Qed.

Lemma map_has_keys (u : value) (m : jsmap) :
  map_has u m = existsb (fun k => same_value_zero k u) (map fst m).
Proof. unfold map_has. induction m as [|[k v] m IH]; cbn; [reflexivity|]. now rewrite IH. Qed.

Lemma distinct_keys_app (ks : list value) (k : value) :
  distinct_keys ks = true ->
  existsb (fun k' => same_value_zero k' k) ks = false ->
  distinct_keys (ks ++ [k]) = true.
Proof.
  induction ks as [|k0 ks IH]; cbn; [reflexivity|].
  intros Hd Hk. apply andb_prop in Hd as [Hk0 Hd]. apply orb_false_elim in Hk as [Hk0k Hk].
  rewrite existsb_app, (IH Hd Hk). cbn. rewrite Hk0k.
  apply negb_true_iff in Hk0. rewrite Hk0. reflexivity.
Qed.

Lemma distinct_keys_map_set (k v : value) (m : jsmap) :
  distinct_keys (map fst m) = true -> distinct_keys (map fst (map_set k v m)) = true.
Proof.
  intros Hd. rewrite keys_map_set. destruct (map_has k m) eqn:Hhas; [exact Hd|].
  apply distinct_keys_app; [exact Hd|]. now rewrite <- map_has_keys.
Qed.

(** With distinct keys, [set] on a present key touches one entry. *)
Lemma map_set_present (k : value) (g : value -> value) (m : jsmap) :
  distinct_keys (map fst m) = true ->
  map_has k m = true ->
  map_set k (g (map_get k m)) m
  = map (fun kv => if same_value_zero kv.1 k then (kv.1, g kv.2) else kv) m.
Proof.
  unfold map_has. induction m as [|[k' v'] m IH]; cbn; [discriminate|].
  intros Hd Hhas. apply andb_prop in Hd as [Hnew Hd]. apply negb_true_iff in Hnew.
  destruct (same_value_zero k' k) eqn:Hk; cbn.
  - f_equal. apply same_value_zero_eq in Hk as ->.
    clear IH Hhas Hd. induction m as [|[k1 v1] m IH]; cbn; [reflexivity|].
    cbn in Hnew. apply orb_false_elim in Hnew as [H1 Hnew].
    rewrite same_value_zero_sym, H1. f_equal. exact (IH Hnew).
  - f_equal. apply IH; assumption.
Qed.

Lemma map_set_map_get (k : value) (m : jsmap) :
  map_has k m = true -> map_set k (map_get k m) m = m.
Proof.
  unfold map_has. induction m as [|[k' v'] m IH]; cbn; [discriminate|].
  destruct (same_value_zero k' k) eqn:Hk; cbn; [reflexivity|].
  intros H. f_equal. exact (IH H).
Qed.

Section Upsert.

Variable key : string.
Variable upd : value -> value -> value.

Let key_of (p : value) : value := prop_opt p key.

Lemma upsert_all_cons (p : value) (ps : list value) (m : jsmap) :
  upsert_all key upd (p :: ps) m = upsert_all key upd ps (upsert key upd m p).
Proof. reflexivity. Qed.

Lemma for_key_cons (u p : value) (ps : list value) :
  for_key key u (p :: ps)
  = if truthy (key_of p) && same_value_zero (key_of p) u
    then p :: for_key key u ps else for_key key u ps.
Proof. reflexivity. Qed.

Lemma keys_upsert_present (m : jsmap) (p : value) :
  (truthy (key_of p) = true -> map_has (key_of p) m = true) ->
  map fst (upsert key upd m p) = map fst m.
Proof.
  intros Hp. unfold upsert. fold (key_of p).
  destruct (truthy (key_of p)); [|reflexivity].
  rewrite keys_map_set, (Hp eq_refl). reflexivity.
Qed.

Lemma distinct_keys_upsert_all (ps : list value) (m : jsmap) :
  distinct_keys (map fst m) = true ->
  distinct_keys (map fst (upsert_all key upd ps m)) = true.
Proof.
  revert m. induction ps as [|p ps IH]; intros m Hd; [exact Hd|].
  rewrite upsert_all_cons. apply IH. unfold upsert.
  destruct (truthy _); [now apply distinct_keys_map_set|exact Hd].
Qed.

(** The entry of a key after the loop: the records of the batch for that
    key, folded in order over the entry found. *)
Lemma map_get_upsert_all (u : value) (ps : list value) (m : jsmap) :
  map_get u (upsert_all key upd ps m)
  = fold_left upd (for_key key u ps) (map_get u m).
Proof.
  revert m. induction ps as [|p ps IH]; intros m; [reflexivity|].
  rewrite upsert_all_cons, IH, for_key_cons. unfold upsert. fold (key_of p).
  destruct (truthy (key_of p)); cbn [andb]; [|reflexivity].
  rewrite map_get_map_set.
  destruct (same_value_zero (key_of p) u) eqn:Hu; [|reflexivity].
  apply same_value_zero_eq in Hu as <-. reflexivity.
Qed.

Lemma map_has_upsert_all_mono (u : value) (ps : list value) (m : jsmap) :
  map_has u m = true -> map_has u (upsert_all key upd ps m) = true.
Proof.
  revert m. induction ps as [|p ps IH]; intros m Hm; [exact Hm|].
  rewrite upsert_all_cons. apply IH. unfold upsert.
  destruct (truthy _); [|exact Hm]. now rewrite map_has_map_set, Hm.
Qed.

Lemma map_has_upsert_all (p : value) (ps : list value) (m : jsmap) :
  In p ps -> truthy (key_of p) = true -> primitive (key_of p) = true ->
  map_has (key_of p) (upsert_all key upd ps m) = true.
Proof.
  revert m. induction ps as [|q ps IH]; intros m Hin Ht Hprim; [contradiction|].
  rewrite upsert_all_cons. destruct Hin as [->|Hin]; [|now apply IH].
  apply map_has_upsert_all_mono. unfold upsert. fold (key_of p). rewrite Ht.
  rewrite map_has_map_set, same_value_zero_refl by assumption. apply orb_true_r.
Qed.

(** When every key of the batch is present, the loop rewrites the entries
    in place. *)
Lemma upsert_all_present (ps : list value) (m : jsmap) :
  distinct_keys (map fst m) = true ->
  (forall p, In p ps -> truthy (key_of p) = true -> map_has (key_of p) m = true) ->
  upsert_all key upd ps m
  = map (fun kv => (kv.1, fold_left upd (for_key key kv.1 ps) kv.2)) m.
Proof.
  revert m. induction ps as [|p ps IH]; intros m Hd Hall.
  - cbn. rewrite <- (map_id m) at 1. apply map_ext. now intros [k v].
  - rewrite upsert_all_cons.
    assert (Hkeys : map fst (upsert key upd m p) = map fst m)
      by (apply keys_upsert_present, Hall; now left).
    rewrite IH.
    + unfold upsert. fold (key_of p). destruct (truthy (key_of p)) eqn:Ht.
      * rewrite (map_set_present _ (fun e => upd e p)) by (auto; apply Hall; auto; now left).
        rewrite map_map. apply map_ext. intros [k v]. cbn [fst snd].
        rewrite for_key_cons, Ht. cbn [andb]. rewrite (same_value_zero_sym (key_of p)).
        destruct (same_value_zero k (key_of p)); reflexivity.
      * apply map_ext. intros [k v]. cbn [fst snd]. rewrite for_key_cons, Ht. reflexivity.
    + now rewrite Hkeys.
    + intros q Hq Htq. rewrite map_has_keys, Hkeys, <- map_has_keys.
      apply Hall; [now right|assumption].
Qed.

End Upsert.

Lemma existsb_perm {A} (f : A -> bool) (xs ys : list A) :
  Permutation xs ys -> existsb f xs = existsb f ys.
Proof.
  induction 1 as [|x xs ys _ IH|x y xs|xs ys zs _ IH1 _ IH2]; cbn.
  - reflexivity.
  - now rewrite IH.
  - destruct (f x), (f y); reflexivity.
  - congruence.
Qed.

Lemma distinct_keys_perm (ks ks' : list value) :
  Permutation ks ks' -> distinct_keys ks = distinct_keys ks'.
Proof.
  induction 1 as [|k ks ks' Hp IH|k k' ks|ks1 ks2 ks3 _ IH1 _ IH2]; cbn.
  - reflexivity.
  - rewrite IH. f_equal. f_equal. now apply existsb_perm.
  - rewrite (same_value_zero_sym k' k).
    destruct (same_value_zero k k'), (existsb (same_value_zero k) ks),
      (existsb (same_value_zero k') ks); reflexivity.
  - congruence.
Qed.

Lemma truthy_of_truthy_prop (v : value) (key : string) :
  truthy (prop_opt v key) = true -> truthy v = true.
Proof.
  destruct v; cbn; try discriminate; try reflexivity.
  unfold prop_opt; cbn. destruct (String.eqb key "length"); [|discriminate].
  destruct s; [discriminate|reflexivity].
Qed.

Lemma map_get_in (k v : value) (m : jsmap) :
  distinct_keys (map fst m) = true -> In (k, v) m -> same_value_zero k k = true ->
  map_get k m = v.
Proof.
  induction m as [|[k' v'] m IH]; cbn; [contradiction|].
  intros Hd Hin Hk. apply andb_prop in Hd as [Hnew Hd]. apply negb_true_iff in Hnew.
  destruct Hin as [[= -> ->]|Hin]; [now rewrite Hk|].
  destruct (same_value_zero k' k) eqn:Hk'; [|now apply IH].
  exfalso. apply same_value_zero_eq in Hk' as ->.
  assert (Hex : existsb (same_value_zero k) (map fst m) = true)
    by (apply existsb_exists; exists k; split; [apply (in_map fst _ _ Hin)|exact Hk]).
  congruence.
Qed.

Lemma for_key_nonprimitive (key : string) (k : value) (ps : list value) :
  primitive k = false -> for_key key k ps = [].
Proof.
  intros Hk. unfold for_key. induction ps as [|p ps IH]; [reflexivity|]. cbn.
  assert (same_value_zero (prop_opt p key) k = false) as ->
    by (destruct (prop_opt p key), k; cbn; try reflexivity; discriminate Hk).
  rewrite andb_false_r. exact IH.
Qed.

Section Reindex.

Variable key : string.
(** [upd] is what the first pass does with an entry, [upd'] what the second
    pass does. *)
Variables upd upd' : value -> value -> value.

Let key_of (p : value) : value := prop_opt p key.

(** [upd] files its result under the key of the record. *)
Hypothesis upd_key : forall e p,
    truthy (key_of p) = true -> e = VUndef \/ key_of e = key_of p ->
    key_of (upd e p) = key_of p.

Lemma keyed_reindex (m : jsmap) : keyed key m -> m = reindex key (map_values m).
Proof.
  unfold keyed, reindex, map_values. induction 1 as [|[k v] m [Hk _] _ IH]; cbn; [reflexivity|].
  cbn in Hk. rewrite Hk. f_equal. exact IH.
Qed.

Lemma map_get_keyed (k : value) (m : jsmap) :
  keyed key m -> map_get k m = VUndef \/ key_of (map_get k m) = k.
Proof.
  unfold keyed. induction 1 as [|[k' v'] m [Hk _] _ IH]; cbn; [now left|].
  destruct (same_value_zero k' k) eqn:Hsame; [|exact IH].
  right. apply same_value_zero_eq in Hsame as <-. exact Hk.
Qed.

Lemma keyed_map_set (k v : value) (m : jsmap) :
  keyed key m -> key_of v = k -> truthy k = true -> keyed key (map_set k v m).
Proof.
  unfold keyed. intros Hm Hv Hk. induction Hm as [|[k' v'] m [Hk' Ht'] Hm IH]; cbn.
  - repeat constructor; assumption.
  - destruct (same_value_zero k' k) eqn:Hsame.
    + apply same_value_zero_eq in Hsame as ->. constructor; [split; assumption|].
      exact Hm.
    + constructor; [split; assumption|exact IH].
Qed.

Lemma keyed_upsert_all (ps : list value) (m : jsmap) :
  keyed key m -> keyed key (upsert_all key upd ps m).
Proof.
  revert m. induction ps as [|p ps IH]; intros m Hm; [exact Hm|].
  rewrite upsert_all_cons. apply IH. unfold upsert. fold (key_of p).
  destruct (truthy (key_of p)) eqn:Ht; [|exact Hm].
  apply keyed_map_set; [exact Hm| |exact Ht].
  apply upd_key; [exact Ht|]. apply (map_get_keyed _ _ Hm).
Qed.

Lemma keyed_truthy_values (m : jsmap) (k v : value) :
  keyed key m -> In (k, v) m -> truthy (key_of v) = true.
Proof.
  unfold keyed. rewrite List.Forall_forall. intros Hm Hin.
  destruct (Hm _ Hin) as [Hk Ht]. cbn in Hk, Ht. unfold key_of. now rewrite Hk.
Qed.

Section SecondPass.

Variables (ps vs : list value) (m0 : jsmap).
Hypothesis keyed_m0 : keyed key m0.
Hypothesis distinct_m0 : distinct_keys (map fst m0) = true.
Hypothesis primitive_keys : Forall (fun p => primitive (key_of p) = true) ps.
Hypothesis stored_values : Permutation vs (map_values (upsert_all key upd ps m0)).

Let m1 := upsert_all key upd ps m0.

Lemma reindex_perm : Permutation (reindex key vs) m1.
Proof.
  assert (Hk1 : keyed key m1) by now apply keyed_upsert_all.
  rewrite (keyed_reindex m1 Hk1). unfold reindex. now apply Permutation_map.
Qed.

(** The second pass of a batch over the Map rebuilt from what the first
    pass left, in any order: every stored record has the records of the
    batch with its key folded over it, in place. *)
Lemma upsert_all_second :
  map_values (upsert_all key upd' ps (reindex key vs)) = map (again key upd' ps) vs.
Proof.
  assert (Hd1 : distinct_keys (map fst m1) = true) by now apply distinct_keys_upsert_all.
  pose proof reindex_perm as Hp.
  rewrite upsert_all_present.
  - unfold map_values, reindex. rewrite !map_map. reflexivity.
  - rewrite (distinct_keys_perm _ (map fst m1)); [exact Hd1|now apply Permutation_map].
  - intros p Hin Ht. rewrite map_has_keys.
    rewrite (existsb_perm _ _ (map fst m1)) by now apply Permutation_map.
    rewrite <- map_has_keys. apply map_has_upsert_all; try assumption.
    rewrite List.Forall_forall in primitive_keys. now apply primitive_keys.
Qed.

(** Where a stored record comes from: the records of the batch with its
    key, all of a truthy key, folded by the first pass over the entry found
    (or over [undefined]). *)
Lemma stored_origin (v : value) :
  In v vs ->
  let batch := for_key key (key_of v) ps in
  Forall (fun p => truthy (key_of p) = true) batch /\
  (batch = [] \/
   exists e, (e = VUndef \/ truthy (key_of e) = true) /\ v = fold_left upd batch e).
Proof.
  intros Hin batch. split.
  { subst batch. unfold for_key. apply List.Forall_forall. intros p Hp.
    apply filter_In in Hp as [_ Hp]. now apply andb_prop in Hp as [Hp _]. }
  assert (Hk1 : keyed key m1) by now apply keyed_upsert_all.
  assert (Hd1 : distinct_keys (map fst m1) = true) by now apply distinct_keys_upsert_all.
  assert (Hin1 : In (key_of v, v) m1).
  { apply (Permutation_in _ reindex_perm). unfold reindex. apply in_map_iff. eauto. }
  destruct (primitive (key_of v)) eqn:Hpk.
  - right. exists (map_get (key_of v) m0). split.
    + destruct (map_get_keyed (key_of v) m0 keyed_m0) as [He|He]; [now left|right].
      fold key_of in He. rewrite He.
      unfold keyed in Hk1. rewrite List.Forall_forall in Hk1.
      now destruct (Hk1 _ Hin1) as [_ Ht].
    + subst batch. rewrite <- map_get_upsert_all. fold m1. symmetry.
      apply map_get_in; [assumption|assumption|now apply same_value_zero_refl].
  - left. subst batch. now apply for_key_nonprimitive.
Qed.

End SecondPass.

End Reindex.

(** ** Objects with distinct property names *)

Lemma keys_set_field (k : string) (v : value) (fs : list (string * value)) :
  map fst (set_field k v fs) = if has_field k fs then map fst fs else map fst fs ++ [k].
Proof.
  unfold set_field. destruct (has_field k fs).
  - rewrite map_map. apply map_ext. intros [k' v']. cbn. destruct (String.eqb k' k); reflexivity.
  - now rewrite map_app.
Qed.

Lemma has_field_keys (k : string) (fs : list (string * value)) :
  has_field k fs = existsb (fun k' => String.eqb k' k) (map fst fs).
Proof. unfold has_field. induction fs as [|[k' v] fs IH]; cbn; [reflexivity|]. now rewrite IH. Qed.

Lemma has_field_false_notin (k : string) (fs : list (string * value)) :
  has_field k fs = false -> ~ In k (map fst fs).
Proof.
  rewrite has_field_keys. intros H Hin.
  assert (existsb (fun k' => String.eqb k' k) (map fst fs) = true)
    by (apply existsb_exists; exists k; split; [assumption|apply String.eqb_refl]).
  congruence.
Qed.

Lemma NoDup_set_field (k : string) (v : value) (fs : list (string * value)) :
  NoDup (map fst fs) -> NoDup (map fst (set_field k v fs)).
Proof.
  intros H. rewrite keys_set_field. destruct (has_field k fs) eqn:Hhas; [exact H|].
  apply NoDup_app. split; [exact H|]. split.
  - intros x Hx Hx'. apply list_elem_of_In in Hx, Hx'. destruct Hx' as [<-|[]].
    now apply has_field_false_notin in Hhas.
  - repeat constructor. intros Hx. apply list_elem_of_In in Hx. contradiction.
Qed.

Lemma NoDup_spread (o : value) (acc : list (string * value)) :
  NoDup (map fst acc) -> NoDup (map fst (spread o acc)).
Proof.
  destruct o; try (intros H; exact H). cbn.
  revert acc. induction fs as [|[k v] fs IH]; intros acc H; cbn; [exact H|].
  apply IH. now apply NoDup_set_field.
Qed.

Lemma NoDup_merge_record (now : string) (e p : value) :
  NoDup (map fst (fields_of (merge_record now e p))).
Proof.
  unfold merge_record. cbn [fields_of].
  apply NoDup_set_field, NoDup_spread, NoDup_spread. constructor.
Qed.

(** Spreading an object with distinct names over nothing gives it back. *)
Lemma spread_fresh (fs acc : list (string * value)) :
  NoDup (map fst fs) ->
  (forall k, In k (map fst fs) -> has_field k acc = false) ->
  spread (VObj fs) acc = acc ++ fs.
Proof.
  cbn. revert acc. induction fs as [|[k v] fs IH]; intros acc Hnd Hfresh; cbn.
  - now rewrite app_nil_r.
  - cbn in Hnd. apply NoDup_cons in Hnd as [Hk Hnd].
    rewrite list_elem_of_In in Hk.
    unfold set_field at 2. rewrite (Hfresh k) by now left.
    rewrite IH; [now rewrite <- app_assoc|exact Hnd|].
    intros k' Hk'. rewrite has_field_keys, map_app, existsb_app, <- has_field_keys.
    rewrite (Hfresh k') by now right. cbn.
    destruct (String.eqb_spec k k') as [->|]; [contradiction|reflexivity].
Qed.

Lemma spread_nodup (fs : list (string * value)) :
  NoDup (map fst fs) -> spread (VObj fs) [] = fs.
Proof. intros H. rewrite spread_fresh; [reflexivity|exact H|reflexivity]. Qed.

(** Spreading an object whose names are all present keeps the names. *)
Lemma keys_spread_present (pfs acc : list (string * value)) :
  (forall k, In k (map fst pfs) -> has_field k acc = true) ->
  map fst (spread (VObj pfs) acc) = map fst acc.
Proof.
  cbn. revert acc. induction pfs as [|[k v] pfs IH]; intros acc Hall; cbn; [reflexivity|].
  assert (Hk : map fst (set_field k v acc) = map fst acc)
    by (rewrite keys_set_field, (Hall k) by (now left); reflexivity).
  rewrite IH; [exact Hk|].
  intros k' Hk'. rewrite has_field_keys, Hk, <- has_field_keys. apply Hall. now right.
Qed.

(** Two objects with the same distinct names in the same order and the
    same values are one object. *)
Lemma fields_ext (fs gs : list (string * value)) :
  NoDup (map fst fs) -> map fst fs = map fst gs ->
  (forall k, get_field k fs = get_field k gs) ->
  fs = gs.
Proof.
  revert gs. induction fs as [|[k v] fs IH]; intros [|[k' v'] gs] Hnd Hkeys Hget;
    try discriminate; [reflexivity|].
  cbn in Hkeys. injection Hkeys as <- Hkeys.
  cbn in Hnd. apply NoDup_cons in Hnd as [Hk Hnd].
  rewrite list_elem_of_In in Hk.
  assert (Hkf : get_field k fs = None).
  { apply has_field_get_field. destruct (has_field k fs) eqn:Hh; [|reflexivity].
    exfalso. apply Hk. rewrite has_field_keys in Hh. apply existsb_exists in Hh as (x & Hx & Hxk).
    apply String.eqb_eq in Hxk as ->. exact Hx. }
  assert (Hkg : get_field k gs = None).
  { apply has_field_get_field. rewrite has_field_keys, <- Hkeys, <- has_field_keys.
    now apply has_field_get_field. }
  f_equal.
  - pose proof (Hget k) as H. cbn in H. rewrite Hkf, Hkg, String.eqb_refl in H. congruence.
  - apply IH; [exact Hnd|exact Hkeys|].
    intros k0. pose proof (Hget k0) as H. cbn in H.
    destruct (String.eqb_spec k k0) as [Heq|Hne]; [subst k0; congruence|].
    destruct (get_field k0 fs), (get_field k0 gs); congruence.
Qed.

(** ** Merging a batch twice *)

Lemma lookup_batch_snoc (k : string) (ps : list value) (p : value) :
  lookup_batch k (ps ++ [p])
  = match get_field k (fields_of p) with
    | Some v => Some v
    | None => lookup_batch k ps
    end.
Proof. unfold lookup_batch. now rewrite fold_left_app. Qed.

Lemma lookup_batch_in (k : string) (ps : list value) (p : value) :
  In p ps -> is_Some (get_field k (fields_of p)) -> is_Some (lookup_batch k ps).
Proof.
  induction ps as [|q ps IH] using rev_ind; [contradiction|].
  intros Hin Hp. rewrite lookup_batch_snoc. apply in_app_or in Hin as [Hin|[->|[]]].
  - destruct (get_field k (fields_of q)); [eauto|now apply IH].
  - destruct Hp as [v ->]. eauto.
Qed.

Lemma get_field_fold_merge (now : string) (ps : list value) (a : value) (k : string) :
  Forall (fun p => exists fs, p = VObj fs) ps -> ps <> [] ->
  get_field k (fields_of (fold_left (merge_record now) ps a))
  = if String.eqb "lastUpdated" k then Some (VStr now)
    else match lookup_batch k ps with
         | Some v => Some v
         | None => get_field k (fields_of a)
         end.
Proof.
  induction ps as [|p ps IH] using rev_ind; [congruence|].
  intros Hobj _. apply Forall_app in Hobj as [Hobj Hp].
  apply Forall_inv in Hp as [pfs ->].
  rewrite fold_left_app, lookup_batch_snoc. cbn [fold_left fields_of].
  rewrite get_field_merge_record.
  destruct (String.eqb "lastUpdated" k) eqn:Hk; [reflexivity|].
  destruct (get_field k pfs); [reflexivity|].
  destruct ps as [|q ps']; [reflexivity|].
  rewrite IH by (assumption || discriminate). reflexivity.
Qed.

Lemma get_field_is_Some_keys (k : string) (fs : list (string * value)) :
  In k (map fst fs) -> is_Some (get_field k fs).
Proof.
  intros Hin. apply has_field_true_get_field. rewrite has_field_keys.
  apply existsb_exists. exists k. split; [exact Hin|apply String.eqb_refl].
Qed.

(** Merging records whose properties the object already has, [lastUpdated]
    included, keeps its property names. *)
Lemma keys_fold_merge_present (now : string) (ps : list value) (afs : list (string * value)) :
  NoDup (map fst afs) ->
  has_field "lastUpdated" afs = true ->
  Forall (fun p => exists fs, p = VObj fs /\
                              forall k, In k (map fst fs) -> has_field k afs = true) ps ->
  exists afs', fold_left (merge_record now) ps (VObj afs) = VObj afs' /\
               map fst afs' = map fst afs.
Proof.
  intros Hnd Hlu Hps. revert afs Hnd Hlu Hps.
  induction ps as [|p ps IH]; intros afs Hnd Hlu Hps; [cbn; eauto|].
  apply Forall_cons in Hps as [(pfs & -> & Hp) Hps]. cbn [fold_left].
  set (afs1 := set_field "lastUpdated" (VStr now) (spread (VObj pfs) (spread (VObj afs) []))).
  assert (Hkeys : map fst afs1 = map fst afs).
  { subst afs1. rewrite spread_nodup by exact Hnd.
    rewrite keys_set_field.
    assert (has_field "lastUpdated" (spread (VObj pfs) afs) = true) as ->
      by (rewrite has_field_keys, keys_spread_present, <- has_field_keys; assumption).
    now apply keys_spread_present. }
  change (merge_record now (VObj afs) (VObj pfs)) with (VObj afs1).
  destruct (IH afs1) as (afs' & Hfold & Hk').
  - now rewrite Hkeys.
  - now rewrite has_field_keys, Hkeys, <- has_field_keys.
  - eapply Forall_impl; [exact Hps|]. cbn. intros q (fs & -> & Hq). exists fs. split; [reflexivity|].
    intros k Hk. rewrite has_field_keys, Hkeys, <- has_field_keys. now apply Hq.
  - exists afs'. split; [exact Hfold|congruence].
Qed.

Lemma merge_twice (now : string) (ps : list value) (e : value) :
  Forall (fun p => exists fs, p = VObj fs) ps ->
  fold_left (merge_record now) ps (fold_left (merge_record now) ps e)
  = fold_left (merge_record now) ps e.
Proof.
  intros Hobj. destruct (decide (ps = [])) as [->|Hne]; [reflexivity|].
  set (r := fold_left (merge_record now) ps e).
  assert (Hr : exists rfs, r = VObj rfs /\ NoDup (map fst rfs)).
  { subst r. destruct ps as [|p ps] using rev_ind; [congruence|].
    rewrite fold_left_app. cbn [fold_left]. eexists. split; [reflexivity|].
    apply (NoDup_merge_record now (fold_left (merge_record now) ps e) p). }
  destruct Hr as (rfs & Hr & Hnd).
  assert (Hget : forall k, get_field k rfs
                 = if String.eqb "lastUpdated" k then Some (VStr now)
                   else match lookup_batch k ps with
                        | Some v => Some v
                        | None => get_field k (fields_of e)
                        end).
  { intros k. rewrite <- (get_field_fold_merge now ps e k Hobj Hne).
    fold r. now rewrite Hr. }
  rewrite Hr.
  destruct (keys_fold_merge_present now ps rfs Hnd) as (rfs' & Hfold & Hkeys).
  - apply has_field_true_get_field. rewrite Hget. cbn. eauto.
  - rewrite List.Forall_forall in Hobj |- *. intros p Hp.
    destruct (Hobj p Hp) as [pfs ->]. exists pfs. split; [reflexivity|].
    intros k Hk. apply has_field_true_get_field. rewrite Hget.
    destruct (String.eqb "lastUpdated" k); [eauto|].
    destruct (lookup_batch_in k ps (VObj pfs) Hp) as [v ->]; [|eauto].
    now apply get_field_is_Some_keys.
  - rewrite Hfold. f_equal. apply fields_ext.
    + apply (proj2 (NoDup_ListNoDup _)). rewrite Hkeys. now apply NoDup_ListNoDup.
    + exact Hkeys.
    + intros k.
      change rfs' with (fields_of (VObj rfs')). rewrite <- Hfold.
      rewrite (get_field_fold_merge now ps (VObj rfs) k Hobj Hne). cbn [fields_of].
      rewrite (Hget k). destruct (String.eqb "lastUpdated" k); [reflexivity|].
      destruct (lookup_batch k ps); reflexivity.
Qed.

(** ** The loops of the store are upserts *)

Lemma prop_opt_of_prop (p : value) (k : string) (v : value) :
  prop p k = Ok v -> prop_opt p k = v.
Proof. unfold prop_opt. now intros ->. Qed.

Lemma index_by_upsert (key : string) (xs : list value) (m m' : jsmap) :
  index_by key xs m = Ok m' -> m' = upsert_all key take_incoming xs m.
Proof.
  unfold index_by. revert m. induction xs as [|x xs IH]; intros m; cbn [foldM].
  - now intros [= <-].
  - destruct (prop x key) as [k|msg] eqn:Hk; cbn [mbind res_bind mret res_ret]; [|intros [=]].
    intros H. apply IH in H. rewrite upsert_all_cons. unfold upsert.
    now rewrite (prop_opt_of_prop _ _ _ Hk).
Qed.

Lemma index_by_truthy (key : string) (xs : list value) (m : jsmap) :
  Forall (fun x => truthy (prop_opt x key) = true) xs ->
  index_by key xs m = Ok (upsert_all key take_incoming xs m).
Proof.
  unfold index_by. intros H. revert m. induction H as [|x xs Hx _ IH]; intros m; [reflexivity|].
  cbn [foldM]. rewrite (prop_truthy _ _ Hx). cbn [mbind res_bind mret res_ret].
  rewrite IH, upsert_all_cons. unfold upsert. reflexivity.
Qed.

Lemma upsert_all_fresh (key : string) (vs : list value) (m : jsmap) :
  Forall (fun x => truthy (prop_opt x key) = true) vs ->
  distinct_keys (map (fun v => prop_opt v key) vs) = true ->
  (forall v, In v vs -> map_has (prop_opt v key) m = false) ->
  upsert_all key take_incoming vs m = m ++ reindex key vs.
Proof.
  intros Ht. revert m. induction Ht as [|v vs Hv _ IH]; intros m Hd Hfresh.
  - cbn. now rewrite app_nil_r.
  - cbn [map distinct_keys] in Hd. apply andb_prop in Hd as [Hnew Hd].
    apply negb_true_iff in Hnew.
    rewrite upsert_all_cons. unfold upsert. rewrite Hv.
    rewrite map_set_fresh by (apply Hfresh; now left).
    rewrite IH; [cbn; now rewrite <- app_assoc|exact Hd|].
    intros w Hw. rewrite map_has_app, (Hfresh w) by now right. cbn.
    rewrite orb_false_r.
    apply (existsb_false_in _ _ _ Hnew). apply in_map_iff. eauto.
Qed.

Lemma take_incoming_key (key : string) (e p : value) :
  truthy (prop_opt p key) = true ->
  e = VUndef \/ prop_opt e key = prop_opt p key ->
  prop_opt (take_incoming e p) key = prop_opt p key.
Proof. reflexivity. Qed.

Lemma keyed_nil (key : string) : keyed key [].
Proof. constructor. Qed.

Lemma index_by_keyed (key : string) (xs : list value) (m : jsmap) :
  index_by key xs [] = Ok m -> keyed key m /\ distinct_keys (map fst m) = true.
Proof.
  intros H. apply index_by_upsert in H as ->. split.
  - apply keyed_upsert_all; [apply take_incoming_key|apply keyed_nil].
  - now apply distinct_keys_upsert_all.
Qed.

(** What is read back from a ranked collection is the Map of its records. *)
Lemma index_by_values (key : string) (vs : list value) (m : jsmap) :
  keyed key m -> distinct_keys (map fst m) = true ->
  Permutation vs (map_values m) ->
  index_by key vs [] = Ok (reindex key vs).
Proof.
  intros Hk Hd Hperm.
  assert (Hm : Permutation (reindex key vs) m).
  { rewrite (keyed_reindex key m Hk). unfold reindex. now apply Permutation_map. }
  assert (Ht : Forall (fun x => truthy (prop_opt x key) = true) vs).
  { apply List.Forall_forall. intros v Hv.
    assert (Hin : In (prop_opt v key, v) m).
    { apply (Permutation_in _ Hm). unfold reindex. apply in_map_iff. eauto. }
    unfold keyed in Hk. rewrite List.Forall_forall in Hk. now destruct (Hk _ Hin). }
  rewrite (index_by_truthy _ _ _ Ht), upsert_all_fresh; [reflexivity|exact Ht| |reflexivity].
  rewrite <- Hd. replace (map (fun v => prop_opt v key) vs) with (map fst (reindex key vs)).
  - apply distinct_keys_perm. now apply Permutation_map.
  - unfold reindex. rewrite map_map. reflexivity.
Qed.

Lemma map_values_reindex (key : string) (vs : list value) :
  map_values (reindex key vs) = vs.
Proof. unfold map_values, reindex. rewrite map_map. apply map_id. Qed.

(** *** My posts *)

Lemma merge_record_key (now : string) (e p : value) :
  truthy (prop_opt p "urn") = true ->
  e = VUndef \/ prop_opt e "urn" = prop_opt p "urn" ->
  prop_opt (merge_record now e p) "urn" = prop_opt p "urn".
Proof.
  intros Hp _. destruct p; try (cbn in Hp; discriminate Hp).
  destruct (merge_record_fields now e fs "urn") as (_ & Hwin & _ & _).
  apply Hwin; [discriminate|].
  apply has_field_true_get_field. rewrite prop_opt_obj in Hp.
  destruct (get_field "urn" fs); [eauto|discriminate Hp].
Qed.

Lemma truthy_urn_obj (p : value) :
  truthy (prop_opt p "urn") = true -> exists fs, p = VObj fs.
Proof. destruct p; try (cbn; discriminate). eauto. Qed.

Lemma sum_by_map_in (f : value -> Z) (g : value -> value) (xs : list value) :
  (forall x, In x xs -> f (g x) = f x) -> sum_by f (map g xs) = sum_by f xs.
Proof.
  unfold sum_by. generalize 0. induction xs as [|x xs IH]; intros z H; [reflexivity|].
  cbn. rewrite (H x) by now left. apply IH. intros y Hy. apply H. now right.
Qed.

Lemma insert_by_map (cmp : value -> value -> Z) (g : value -> value) (x : value)
      (ys : list value) :
  (forall y, In y ys -> cmp (g x) (g y) = cmp x y) ->
  insert_by cmp (g x) (map g ys) = map g (insert_by cmp x ys).
Proof.
  induction ys as [|y ys IH]; intros H; [reflexivity|]. cbn.
  rewrite (H y) by now left. destruct (cmp x y <=? 0); [reflexivity|].
  cbn. f_equal. apply IH. intros z Hz. apply H. now right.
Qed.

(** Sorting commutes with a change of the records that the ranking does not
    see. *)
Lemma sort_by_map_in (key : value -> Z) (g : value -> value) (xs : list value) :
  (forall x, In x xs -> key (g x) = key x) ->
  sort_by (fun a b => key b - key a) (map g xs)
  = map g (sort_by (fun a b => key b - key a) xs).
Proof.
  set (cmp := fun a b => key b - key a).
  induction xs as [|x xs IH]; intros H; [reflexivity|]. cbn.
  rewrite IH by (intros y Hy; apply H; now right).
  apply insert_by_map. intros y Hy. unfold cmp.
  apply (Permutation_in _ (sort_by_perm cmp xs)) in Hy.
  rewrite (H x) by now left. rewrite (H y) by now right. reflexivity.
Qed.

Lemma js_or_truthy (a b : value) : truthy a = true -> js_or a b = a.
Proof. intros H. unfold js_or. now rewrite H. Qed.

Lemma same_but_refl (stamp : string) (a : value) : same_but stamp a a.
Proof. intros f _. reflexivity. Qed.

Lemma arr_same_but_refl (stamp : string) (a : value) : arr_same_but stamp a a.
Proof.
  destruct a; try reflexivity. cbn. induction xs; constructor; [apply same_but_refl|assumption].
Qed.

Lemma Forall2_map_same_but (stamp : string) (g : value -> value) (vs : list value) :
  Forall (fun v => same_but stamp (g v) v) vs -> Forall2 (same_but stamp) (map g vs) vs.
Proof. induction 1; cbn; constructor; assumption. Qed.

Lemma fold_merge_obj (now : string) (ps : list value) (e : value) :
  ps <> [] -> exists fs, fold_left (merge_record now) ps e = VObj fs.
Proof.
  destruct ps as [|p ps] using rev_ind; [congruence|]. intros _.
  rewrite fold_left_app. cbn. eauto.
Qed.

(** Merging a batch into what merging it at another time left changes
    [lastUpdated] alone. *)
Lemma merge_again_same_but (now1 now2 : string) (ps : list value) (e : value) :
  Forall (fun p => exists fs, p = VObj fs) ps ->
  same_but "lastUpdated"
           (fold_left (merge_record now2) ps (fold_left (merge_record now1) ps e))
           (fold_left (merge_record now1) ps e).
Proof.
  intros Hobj. destruct (decide (ps = [])) as [->|Hne]; [apply same_but_refl|].
  intros f Hf.
  set (r1 := fold_left (merge_record now1) ps e).
  destruct (fold_merge_obj now2 ps r1 Hne) as [fs2 H2].
  destruct (fold_merge_obj now1 ps e Hne) as [fs1 H1]. fold r1 in H1.
  pose proof (get_field_fold_merge now2 ps r1 f Hobj Hne) as G2.
  pose proof (get_field_fold_merge now1 ps e f Hobj Hne) as G1. fold r1 in G1.
  rewrite H2. rewrite H2 in G2. rewrite H1. rewrite H1 in G1, G2. cbn [fields_of] in G1, G2.
  rewrite !prop_opt_obj, G2, G1.
  destruct (String.eqb_spec "lastUpdated" f) as [<-|_]; [congruence|].
  destruct (lookup_batch f ps); reflexivity.
Qed.

Lemma addMyPost_upsert (now : string) (m : jsmap) (n : Z) (p : value) (r : jsmap * Z) :
  addMyPost now (m, n) p = Ok r -> r.1 = upsert "urn" (merge_record now) m p.
Proof.
  unfold addMyPost, upsert. destruct (prop p "urn") as [u|msg] eqn:Hu; [|intros [=]].
  rewrite (prop_opt_of_prop _ _ _ Hu). cbn [mbind res_bind mret res_ret fst snd].
  destruct (truthy u); now intros [= <-].
Qed.

(** Whether the my-posts loop completes does not depend on the time or on
    the Map it starts from. *)
Lemma foldM_addMyPost_upsert (now : string) (ps : list value) (m : jsmap) (n : Z)
      (r : jsmap * Z) :
  foldM (addMyPost now) ps (m, n) = Ok r ->
  r.1 = upsert_all "urn" (merge_record now) ps m /\
  forall now' m' n', exists n'', foldM (addMyPost now') ps (m', n')
                                 = Ok (upsert_all "urn" (merge_record now') ps m', n'').
Proof.
  revert m n. induction ps as [|p ps IH]; intros m n; cbn [foldM].
  - intros [= <-]. split; [reflexivity|]. intros now' m' n'. eexists. reflexivity.
  - destruct (addMyPost now (m, n) p) as [[m1 n1]|msg] eqn:Hp; cbn [mbind res_bind];
      [|intros [=]].
    intros H. apply IH in H as [Hr Htot]. apply addMyPost_upsert in Hp as Hm1. cbn in Hm1.
    split; [now rewrite upsert_all_cons, <- Hm1|].
    intros now' m' n'.
    assert (Hstep : exists n1', addMyPost now' (m', n') p
                                = Ok (upsert "urn" (merge_record now') m' p, n1')).
    { unfold addMyPost, upsert in *.
      destruct (prop p "urn") as [u|msg] eqn:Hu; [|discriminate Hp].
      rewrite (prop_opt_of_prop _ _ _ Hu). cbn [mbind res_bind mret res_ret fst snd].
      destruct (truthy u); eexists; reflexivity. }
    destruct Hstep as [n1' ->]. cbn [mbind res_bind].
    destruct (Htot now' (upsert "urn" (merge_record now') m' p) n1') as [n'' ->].
    eexists. now rewrite upsert_all_cons.
Qed.

Lemma my_posts_array_insert (d : value) (st : store) (ps : list value) :
  prop_opt d "posts" = VArr ps -> truthy d = true ->
  my_posts_array (<[MY_POSTS := d]> st) = VArr ps.
Proof.
  intros Hd Ht. unfold my_posts_array. rewrite stored_insert.
  destruct (decide (MY_POSTS = MY_POSTS)); [|congruence].
  rewrite (js_or_truthy d) by exact Ht. rewrite (js_or_truthy d) by exact Ht.
  rewrite Hd. reflexivity.
Qed.

(** What [saveMyPostsToStorage] does to the storage: nothing, whatever the
    time, or a write of the merged, ranked and truncated posts. *)
Lemma saveMyPostsToStorage_cases mean (ps : list value) (st : store) :
  (forall now, (saveMyPostsToStorage mean now (VArr ps) st).2 = st) \/
  exists xs m0,
    my_posts_array st = VArr xs /\
    index_by "urn" xs [] = Ok m0 /\
    forall now,
      (saveMyPostsToStorage mean now (VArr ps) st).2
      = <[MY_POSTS :=
            myPostsData mean now
              (take 200 (sort_by (fun a b => myPostScore b - myPostScore a)
                                 (map_values (upsert_all "urn" (merge_record now) ps m0))))]> st.
Proof.
  unfold saveMyPostsToStorage, try_catch. fold (my_posts_array st).
  destruct ps as [|p ps]; [now left|].
  destruct (my_posts_array st) as [| | | | |xs|] eqn:Hxs; cbn [array_of mbind res_bind];
    try (now left).
  destruct (index_by "urn" xs []) as [m0|msg] eqn:Hm0; cbn [mbind res_bind]; [|now left].
  destruct (foldM (addMyPost "") (p :: ps) (m0, 0)) as [r0|msg] eqn:Hr0.
  - right. exists xs, m0. split; [reflexivity|]. split; [exact Hm0|]. intros now.
    destruct (foldM_addMyPost_upsert _ _ _ _ _ Hr0) as [_ Htot].
    destruct (Htot now m0 0) as [n' ->]. reflexivity.
  - left. intros now.
    destruct (foldM (addMyPost now) (p :: ps) (m0, 0)) as [r|msg'] eqn:Hr; [|reflexivity].
    destruct (foldM_addMyPost_upsert _ _ _ _ _ Hr) as [_ Htot].
    destruct (Htot "" m0 0) as [n' Hn']. congruence.
Qed.

Lemma myPostScore_same_but (a b : value) :
  same_but "lastUpdated" a b -> myPostScore a = myPostScore b.
Proof.
  intros H. unfold myPostScore, engagement_likes, engagement_comments.
  now rewrite (H "engagement") by discriminate.
Qed.

(** The summary of the my-posts collection does not see [lastUpdated]. *)
Lemma myPostsData_same_but mean (now1 now2 : string) (g : value -> value)
      (vs : list value) :
  Forall (fun v => truthy (prop_opt v "urn") = true /\ same_but "lastUpdated" (g v) v) vs ->
  let d1 := myPostsData mean now1 vs in
  let d2 := myPostsData mean now2 (map g vs) in
  arr_same_but "lastUpdated" (prop_opt d2 "posts") (prop_opt d1 "posts") /\
  same_but "lastUpdated" (prop_opt d2 "bestPost") (prop_opt d1 "bestPost") /\
  prop_opt d2 "totalCount" = prop_opt d1 "totalCount" /\
  prop_opt d2 "stats" = prop_opt d1 "stats".
Proof.
  intros H d1 d2. subst d1 d2.
  assert (Hs : Forall (fun v => same_but "lastUpdated" (g v) v) vs)
    by (eapply Forall_impl; [exact H|]; cbn; tauto).
  rewrite List.Forall_forall in Hs.
  repeat split.
  - cbn. apply Forall2_map_same_but. now apply List.Forall_forall.
  - unfold myPostsData. cbn -[same_but]. destruct H as [|v vs [Hv Hg] _]; cbn -[same_but].
    + apply same_but_refl.
    + rewrite !js_or_truthy; [exact Hg|now apply (truthy_of_truthy_prop v "urn")|].
      apply (truthy_of_truthy_prop (g v) "urn"). now rewrite (Hg "urn") by discriminate.
  - unfold myPostsData, len. cbn. now rewrite length_map.
  - unfold myPostsData. rewrite !prop_opt_obj. cbn [get_field String.eqb Ascii.eqb Bool.eqb default].
    rewrite length_map, !sum_by_map_in, map_map.
    + rewrite (map_ext_in (fun x => prop_opt (prop_opt (g x) "analytics") "engagementRate")
                          (fun p => prop_opt (prop_opt p "analytics") "engagementRate"));
        [reflexivity|].
      intros v Hv. now rewrite (Hs v Hv "analytics") by discriminate.
    + intros v Hv. unfold engagement_comments. now rewrite (Hs v Hv "engagement") by discriminate.
    + intros v Hv. unfold engagement_likes. now rewrite (Hs v Hv "engagement") by discriminate.
    + intros v Hv. now rewrite (Hs v Hv "analytics") by discriminate.
Qed.

(** Submitting a batch of my-posts a second time, at any time, when the
    first submission left the collection below its capacity. *)
Lemma my_posts_resubmitted mean (now1 now2 : string) (ps : list value) (st : store) :
  Forall (fun p => primitive (prop_opt p "urn") = true) ps ->
  let st1 := (saveMyPostsToStorage mean now1 (VArr ps) st).2 in
  (arr_len (collection MY_POSTS (Some "posts") st1) < 200)%nat ->
  let st2 := (saveMyPostsToStorage mean now2 (VArr ps) st1).2 in
  st2 = st1 \/
  exists vs g,
    st1 = <[MY_POSTS := myPostsData mean now1 vs]> st /\
    st2 = <[MY_POSTS := myPostsData mean now2 (map g vs)]> st /\
    Forall (fun v => truthy (prop_opt v "urn") = true /\
                     same_but "lastUpdated" (g v) v /\
                     (now2 = now1 -> g v = v)) vs.
Proof.
  intros Hprim st1 Hlen st2. subst st2 st1.
  destruct (saveMyPostsToStorage_cases mean ps st) as [Hsame|(xs & m0 & Hxs & Hm0 & Hst1)].
  { left. now rewrite !Hsame. }
  set (cmp := fun a b : value => myPostScore b - myPostScore a) in *.
  destruct (index_by_keyed _ _ _ Hm0) as [Hk0 Hd0].
  set (m1 := upsert_all "urn" (merge_record now1) ps m0).
  set (vs := sort_by cmp (map_values m1)).
  assert (Hk1 : keyed "urn" m1)
    by (apply keyed_upsert_all; [apply merge_record_key|exact Hk0]).
  assert (Hd1 : distinct_keys (map fst m1) = true) by now apply distinct_keys_upsert_all.
  assert (Hperm : Permutation vs (map_values m1)) by apply sort_by_perm.
  assert (Hall : take 200 vs = vs).
  { rewrite Hst1 in Hlen. unfold collection in Hlen. rewrite stored_insert in Hlen.
    destruct (decide (MY_POSTS = MY_POSTS)); [|congruence]. cbn in Hlen.
    rewrite length_take in Hlen. apply take_all. fold m1 cmp vs in Hlen. lia. }
  rewrite !(Hst1 now1). fold m1 vs. rewrite Hall.
  destruct (saveMyPostsToStorage_cases mean ps (<[MY_POSTS := myPostsData mean now1 vs]> st))
    as [Hsame|(xs' & m0' & Hxs' & Hm0' & Hst2)]; [left; apply Hsame|].
  right. set (g := again "urn" (merge_record now2) ps). exists vs, g.
  rewrite my_posts_array_insert with (ps := vs) in Hxs' by reflexivity.
  injection Hxs' as <-.
  rewrite (index_by_values "urn" vs m1 Hk1 Hd1 Hperm) in Hm0'. injection Hm0' as <-.
  assert (Hg : Forall (fun v => truthy (prop_opt v "urn") = true /\
                               same_but "lastUpdated" (g v) v /\
                               (now2 = now1 -> g v = v)) vs).
  { apply List.Forall_forall. intros v Hv. split.
    { apply (keyed_truthy_values "urn" m1 (prop_opt v "urn") v Hk1).
      apply (Permutation_in _ (reindex_perm "urn" (merge_record now1) (merge_record_key now1)
                                            ps vs m0 Hk0 Hperm)).
      unfold reindex. apply in_map_iff. eauto. }
    destruct (stored_origin "urn" (merge_record now1) (merge_record_key now1)
                            ps vs m0 Hk0 Hd0 Hperm v Hv) as [Hbatch Horigin].
    subst g. unfold again.
    destruct Horigin as [->|(e & _ & He)]; [split; [apply same_but_refl|reflexivity]|].
    assert (Hobj : Forall (fun p => exists fs, p = VObj fs)
                          (for_key "urn" (prop_opt v "urn") ps))
      by (eapply Forall_impl; [exact Hbatch|apply truthy_urn_obj]).
    split.
    - rewrite He at 2 3. apply (merge_again_same_but now1 now2 _ e Hobj).
    - intros ->. rewrite He at 2 3. now apply merge_twice. }
  split; [reflexivity|]. split; [|exact Hg].
  rewrite Hst2, insert_insert_eq. f_equal. f_equal.
  rewrite (upsert_all_second "urn" (merge_record now1) (merge_record now2)
             (merge_record_key now1) ps vs m0 Hk0 Hd0 Hprim Hperm).
  fold g. fold cmp. unfold cmp at 1.
  rewrite (sort_by_map_in myPostScore g vs).
  - fold cmp. rewrite (sort_by_ranked_id myPostScore cmp);
      [|reflexivity|apply (sort_by_ranked myPostScore); reflexivity].
    apply take_all. rewrite length_map, <- Hall, length_take. lia.
  - intros v Hv. rewrite List.Forall_forall in Hg. apply myPostScore_same_but.
    now destruct (Hg v Hv) as (_ & Hsb & _).
Qed.

(** *** Comments *)

Lemma keep_existing_key (e p : value) :
  truthy (prop_opt p "urn") = true ->
  e = VUndef \/ prop_opt e "urn" = prop_opt p "urn" ->
  prop_opt (keep_existing e p) "urn" = prop_opt p "urn".
Proof.
  intros _ [->|He]; [reflexivity|]. unfold keep_existing. now destruct (truthy e).
Qed.

Lemma fold_keep_truthy (ps : list value) (e : value) :
  truthy e = true -> fold_left keep_existing ps e = e.
Proof.
  intros He. induction ps as [|p ps IH]; [reflexivity|]. cbn.
  unfold keep_existing at 2. now rewrite He.
Qed.

Lemma map_get_truthy (key : string) (u : value) (m : jsmap) :
  keyed key m -> map_has u m = true -> truthy (map_get u m) = true.
Proof.
  unfold keyed, map_has. induction 1 as [|[k v] m [Hk Ht] _ IH]; cbn; [discriminate|].
  destruct (same_value_zero k u); cbn; [|exact IH].
  intros _. cbn in Hk, Ht. apply (truthy_of_truthy_prop v key). now rewrite Hk.
Qed.

Lemma addComment_upsert (m : jsmap) (n : Z) (c : value) (r : jsmap * Z) :
  keyed "urn" m ->
  addComment (m, n) c = Ok r -> r.1 = upsert "urn" keep_existing m c.
Proof.
  intros Hk. unfold addComment, upsert.
  destruct (prop c "urn") as [u|msg] eqn:Hu; [|intros [=]].
  rewrite (prop_opt_of_prop _ _ _ Hu). cbn [mbind res_bind mret res_ret fst snd].
  destruct (truthy u) eqn:Ht; cbn [andb]; [|now intros [= <-]].
  destruct (map_has u m) eqn:Hhas; cbn [negb]; intros [= <-]; cbn [fst].
  - unfold keep_existing. rewrite (map_get_truthy "urn" u m Hk Hhas).
    symmetry. now apply map_set_map_get.
  - now rewrite (map_get_fresh _ _ Hhas).
Qed.

Lemma keyed_upsert (key : string) (upd : value -> value -> value) (m : jsmap) (p : value) :
  (forall e p,
      truthy (prop_opt p key) = true -> e = VUndef \/ prop_opt e key = prop_opt p key ->
      prop_opt (upd e p) key = prop_opt p key) ->
  keyed key m -> keyed key (upsert key upd m p).
Proof. intros Hupd Hm. apply (keyed_upsert_all key upd Hupd [p] m Hm). Qed.

Lemma foldM_addComment_upsert (ps : list value) (m : jsmap) (n : Z) (r : jsmap * Z) :
  keyed "urn" m ->
  foldM addComment ps (m, n) = Ok r ->
  r.1 = upsert_all "urn" keep_existing ps m /\
  forall m' n', keyed "urn" m' ->
                exists n'', foldM addComment ps (m', n')
                            = Ok (upsert_all "urn" keep_existing ps m', n'').
Proof.
  revert m n. induction ps as [|p ps IH]; intros m n Hk; cbn [foldM].
  - intros [= <-]. split; [reflexivity|]. intros m' n' _. eexists. reflexivity.
  - destruct (addComment (m, n) p) as [[m1 n1]|msg] eqn:Hp; cbn [mbind res_bind];
      [|intros [=]].
    apply (addComment_upsert _ _ _ _ Hk) in Hp as Hm1. cbn in Hm1.
    intros H. apply IH in H as [Hr Htot];
      [|rewrite Hm1; apply keyed_upsert; [apply keep_existing_key|exact Hk]].
    split; [now rewrite upsert_all_cons, <- Hm1|].
    intros m' n' Hk'.
    assert (Hstep : exists r', addComment (m', n') p = Ok r').
    { unfold addComment in *.
      destruct (prop p "urn") as [u|msg] eqn:Hu; [|discriminate Hp].
      cbn [mbind res_bind mret res_ret fst snd]. destruct (_ && _); eexists; reflexivity. }
    destruct Hstep as [[m1' n1'] Hstep]. rewrite Hstep. cbn [mbind res_bind].
    apply (addComment_upsert _ _ _ _ Hk') in Hstep as Hm1'. cbn in Hm1'. subst m1'.
    destruct (Htot (upsert "urn" keep_existing m' p) n1') as [n'' ->].
    { apply keyed_upsert; [apply keep_existing_key|exact Hk']. }
    eexists. now rewrite upsert_all_cons.
Qed.

Lemma comments_array_insert (d : value) (st : store) (cs : list value) :
  prop_opt d "comments" = VArr cs -> truthy d = true ->
  comments_array (<[COMMENTS := d]> st) = VArr cs.
Proof.
  intros Hd Ht. unfold comments_array. rewrite stored_insert.
  destruct (decide (COMMENTS = COMMENTS)); [|congruence].
  rewrite (js_or_truthy d) by exact Ht. rewrite (js_or_truthy d) by exact Ht.
  rewrite Hd. reflexivity.
Qed.

Lemma saveCommentsToStorage_cases (cs : list value) (st : store) :
  (forall now, (saveCommentsToStorage now (VArr cs) st).2 = st) \/
  exists xs m0 r,
    comments_array st = VArr xs /\
    index_by "urn" xs [] = Ok m0 /\
    foldM addComment cs (m0, 0) = Ok r /\
    forall now,
      (saveCommentsToStorage now (VArr cs) st).2
      = <[COMMENTS :=
            commentsData now
              (take 1000 (sort_by (fun a b => likes b - likes a) (map_values r.1)))]> st.
Proof.
  unfold saveCommentsToStorage, try_catch. fold (comments_array st).
  destruct cs as [|c cs]; [now left|].
  destruct (comments_array st) as [| | | | |xs|] eqn:Hxs; cbn [array_of mbind res_bind];
    try (now left).
  destruct (index_by "urn" xs []) as [m0|msg] eqn:Hm0; cbn [mbind res_bind]; [|now left].
  destruct (foldM addComment (c :: cs) (m0, 0)) as [r|msg] eqn:Hr; cbn [mbind res_bind];
    [|now left].
  right. exists xs, m0, r. repeat split; assumption.
Qed.

(** Submitting a batch of comments a second time, at any time, when the
    first submission left the collection below its capacity. *)
Lemma comments_resubmitted (now1 now2 : string) (cs : list value) (st : store) :
  Forall (fun p => primitive (prop_opt p "urn") = true) cs ->
  let st1 := (saveCommentsToStorage now1 (VArr cs) st).2 in
  (arr_len (collection COMMENTS (Some "comments") st1) < 1000)%nat ->
  let st2 := (saveCommentsToStorage now2 (VArr cs) st1).2 in
  st2 = st1 \/
  exists vs, st1 = <[COMMENTS := commentsData now1 vs]> st /\
             st2 = <[COMMENTS := commentsData now2 vs]> st.
Proof.
  intros Hprim st1 Hlen st2. subst st2 st1.
  destruct (saveCommentsToStorage_cases cs st)
    as [Hsame|(xs & m0 & r & Hxs & Hm0 & Hr & Hst1)].
  { left. now rewrite !Hsame. }
  set (cmp := fun a b : value => likes b - likes a) in *.
  destruct (index_by_keyed _ _ _ Hm0) as [Hk0 Hd0].
  destruct (foldM_addComment_upsert _ _ _ _ Hk0 Hr) as [Hr1 Htot].
  set (m1 := upsert_all "urn" keep_existing cs m0) in *.
  set (vs := sort_by cmp (map_values r.1)) in *.
  assert (Hk1 : keyed "urn" m1)
    by (apply keyed_upsert_all; [apply keep_existing_key|exact Hk0]).
  assert (Hd1 : distinct_keys (map fst m1) = true) by now apply distinct_keys_upsert_all.
  assert (Hperm : Permutation vs (map_values m1)).
  { subst vs. rewrite Hr1. apply sort_by_perm. }
  assert (Hall : take 1000 vs = vs).
  { rewrite Hst1 in Hlen. unfold collection in Hlen. rewrite stored_insert in Hlen.
    destruct (decide (COMMENTS = COMMENTS)); [|congruence]. cbn in Hlen.
    rewrite length_take in Hlen. apply take_all. lia. }
  rewrite Hall in Hst1. rewrite !Hst1.
  destruct (saveCommentsToStorage_cases cs (<[COMMENTS := commentsData now1 vs]> st))
    as [Hsame|(xs' & m0' & r' & Hxs' & Hm0' & Hr' & Hst2)]; [left; apply Hsame|].
  right. exists vs. split; [reflexivity|].
  rewrite Hst2. rewrite insert_insert_eq. f_equal. f_equal.
  rewrite comments_array_insert with (cs := vs) in Hxs' by reflexivity.
  injection Hxs' as <-.
  rewrite (index_by_values "urn" vs m1 Hk1 Hd1 Hperm) in Hm0'. injection Hm0' as <-.
  assert (Hkv : keyed "urn" (reindex "urn" vs)).
  { apply (index_by_keyed "urn" vs). apply (index_by_values "urn" vs m1 Hk1 Hd1 Hperm). }
  destruct (foldM_addComment_upsert _ _ _ _ Hkv Hr') as [-> _].
  rewrite (upsert_all_second "urn" keep_existing keep_existing keep_existing_key
             cs vs m0 Hk0 Hd0 Hprim Hperm).
  rewrite (map_ext_in (again "urn" keep_existing cs) id), map_id.
  - fold cmp. rewrite (sort_by_ranked_id likes cmp); [exact Hall|reflexivity|].
    subst vs. apply (sort_by_ranked likes). reflexivity.
  - intros v Hv. unfold again, id. apply fold_keep_truthy.
    apply (truthy_of_truthy_prop v "urn").
    apply (keyed_truthy_values "urn" (reindex "urn" vs) (prop_opt v "urn") v Hkv).
    unfold reindex. apply in_map_iff. eauto.
Qed.

Lemma prop_opt_commentsData (now1 now2 : string) (vs : list value) (f : string) :
  f <> "lastUpdated" ->
  prop_opt (commentsData now2 vs) f = prop_opt (commentsData now1 vs) f.
Proof.
  intros Hf. unfold commentsData. rewrite !prop_opt_obj. cbn [get_field].
  repeat (match goal with
          | |- context [String.eqb ?a ?b] => destruct (String.eqb_spec a b)
          end; try reflexivity; try congruence).
Qed.

(** *** Trending topics *)

Lemma stamp_topic_key (now : string) (e t : value) :
  truthy (prop_opt t "topic") = true ->
  e = VUndef \/ prop_opt e "topic" = prop_opt t "topic" ->
  prop_opt (stamp_topic now t) "topic" = prop_opt t "topic".
Proof.
  intros Ht _. destruct t; try (cbn in Ht; discriminate Ht).
  unfold stamp_topic. rewrite !prop_opt_obj, get_field_set_field. cbn [String.eqb Ascii.eqb].
  rewrite get_field_spread. cbn. destruct (get_field "topic" fs); reflexivity.
Qed.

Lemma fold_replace_last {A B} (g : B -> A) (ps : list B) (p : B) (e : A) :
  fold_left (fun _ t => g t) (ps ++ [p]) e = g p.
Proof. now rewrite fold_left_app. Qed.

Lemma stamp_topic_same_but (now1 now2 : string) (t : value) :
  same_but "lastSeen" (stamp_topic now2 t) (stamp_topic now1 t).
Proof.
  intros f Hf. unfold stamp_topic. rewrite !prop_opt_obj, !get_field_set_field.
  destruct (String.eqb_spec "lastSeen" f) as [<-|_]; [congruence|reflexivity].
Qed.

Lemma addTopic_upsert (now : string) (p : value) (m m1 : jsmap) :
  addTopic now m p = Ok m1 ->
  m1 = upsert "topic" (fun _ t => stamp_topic now t) m p /\
  forall now' m',
    addTopic now' m' p = Ok (upsert "topic" (fun _ t => stamp_topic now' t) m' p).
Proof.
  unfold addTopic, upsert, stamp_topic.
  destruct (prop p "topic") as [u|msg] eqn:Hu; cbn [mbind res_bind mret res_ret];
    [|intros [=]].
  rewrite (prop_opt_of_prop _ _ _ Hu). intros [= <-]. split; reflexivity.
Qed.

(** Whether the trending loop completes does not depend on the time or on
    the Map it starts from. *)
Lemma foldM_addTopic_upsert (now : string) (ps : list value) (m m1 : jsmap) :
  foldM (addTopic now) ps m = Ok m1 ->
  m1 = upsert_all "topic" (fun _ t => stamp_topic now t) ps m /\
  forall now' m', foldM (addTopic now') ps m'
                  = Ok (upsert_all "topic" (fun _ t => stamp_topic now' t) ps m').
Proof.
  revert m m1. induction ps as [|p ps IH]; intros m m1; cbn [foldM].
  - intros [= <-]. split; reflexivity.
  - destruct (addTopic now m p) as [m2|msg] eqn:Hp; cbn [mbind res_bind]; [|intros [=]].
    apply addTopic_upsert in Hp as [-> Hp'].
    intros H. apply IH in H as [-> Htot].
    split; [now rewrite upsert_all_cons|].
    intros now' m'. rewrite Hp'. cbn [mbind res_bind]. now rewrite Htot, upsert_all_cons.
Qed.

Lemma topics_array_insert (d : value) (st : store) (ts : list value) :
  prop_opt d "topics" = VArr ts -> truthy d = true ->
  topics_array (<[TRENDING := d]> st) = VArr ts.
Proof.
  intros Hd Ht. unfold topics_array. rewrite stored_insert.
  destruct (decide (TRENDING = TRENDING)); [|congruence].
  rewrite (js_or_truthy d) by exact Ht. rewrite (js_or_truthy d) by exact Ht.
  rewrite Hd. reflexivity.
Qed.

(** What [saveTrendingToStorage] does to the storage: nothing, whatever the
    time, or a write of the topics of the Map. *)
Lemma saveTrendingToStorage_cases (ts : list value) (st : store) :
  (forall now, (saveTrendingToStorage now (VArr ts) st).2 = st) \/
  exists xs m0,
    topics_array st = VArr xs /\
    index_by "topic" xs [] = Ok m0 /\
    forall now,
      (saveTrendingToStorage now (VArr ts) st).2
      = <[TRENDING :=
            trendingData now
              (map_values (upsert_all "topic" (fun _ t => stamp_topic now t) ts m0))]> st.
Proof.
  unfold saveTrendingToStorage, try_catch. fold (topics_array st).
  destruct ts as [|t ts]; [now left|].
  destruct (topics_array st) as [| | | | |xs|] eqn:Hxs; cbn [array_of mbind res_bind];
    try (now left).
  destruct (index_by "topic" xs []) as [m0|msg] eqn:Hm0; cbn [mbind res_bind]; [|now left].
  destruct (foldM (addTopic "") (t :: ts) m0) as [r0|msg] eqn:Hr0.
  - right. exists xs, m0. split; [reflexivity|]. split; [exact Hm0|]. intros now.
    destruct (foldM_addTopic_upsert _ _ _ _ Hr0) as [_ Htot].
    rewrite (Htot now m0). reflexivity.
  - left. intros now.
    destruct (foldM (addTopic now) (t :: ts) m0) as [r|msg'] eqn:Hr; [|reflexivity].
    destruct (foldM_addTopic_upsert _ _ _ _ Hr) as [_ Htot].
    rewrite (Htot "" m0) in Hr0. discriminate Hr0.
Qed.

(** Submitting a batch of topics a second time, at any time, when the first
    submission left the collection below its capacity. *)
Lemma trending_resubmitted (now1 now2 : string) (ts : list value) (st : store) :
  Forall (fun p => primitive (prop_opt p "topic") = true) ts ->
  let st1 := (saveTrendingToStorage now1 (VArr ts) st).2 in
  (arr_len (collection TRENDING (Some "topics") st1) < 200)%nat ->
  let st2 := (saveTrendingToStorage now2 (VArr ts) st1).2 in
  st2 = st1 \/
  exists vs g,
    (length vs < 200)%nat /\
    st1 = <[TRENDING := trendingData now1 vs]> st /\
    st2 = <[TRENDING := trendingData now2 (map g vs)]> st /\
    Forall (fun v => same_but "lastSeen" (g v) v /\ (now2 = now1 -> g v = v)) vs.
Proof.
  intros Hprim st1 Hlen st2. subst st2 st1.
  destruct (saveTrendingToStorage_cases ts st) as [Hsame|(xs & m0 & Hxs & Hm0 & Hst1)].
  { left. now rewrite !Hsame. }
  destruct (index_by_keyed _ _ _ Hm0) as [Hk0 Hd0].
  set (upd1 := fun _ t : value => stamp_topic now1 t).
  set (upd2 := fun _ t : value => stamp_topic now2 t).
  set (m1 := upsert_all "topic" upd1 ts m0).
  set (vs := map_values m1).
  assert (Hk1 : keyed "topic" m1)
    by (apply keyed_upsert_all; [apply stamp_topic_key|exact Hk0]).
  assert (Hd1 : distinct_keys (map fst m1) = true) by now apply distinct_keys_upsert_all.
  assert (Hperm : Permutation vs (map_values m1)) by reflexivity.
  assert (Hall : (length vs < 200)%nat).
  { rewrite Hst1 in Hlen. unfold collection in Hlen. rewrite stored_insert in Hlen.
    destruct (decide (TRENDING = TRENDING)); [|congruence]. cbn in Hlen.
    rewrite length_take in Hlen. fold upd1 m1 vs in Hlen. lia. }
  rewrite !(Hst1 now1). fold upd1 m1 vs.
  destruct (saveTrendingToStorage_cases ts (<[TRENDING := trendingData now1 vs]> st))
    as [Hsame|(xs' & m0' & Hxs' & Hm0' & Hst2)]; [left; apply Hsame|].
  right. set (g := again "topic" upd2 ts). exists vs, g.
  rewrite topics_array_insert with (ts := vs) in Hxs'
    by (try reflexivity; cbn; f_equal; apply take_all; lia).
  injection Hxs' as <-.
  rewrite (index_by_values "topic" vs m1 Hk1 Hd1 Hperm) in Hm0'. injection Hm0' as <-.
  split; [exact Hall|]. split; [reflexivity|]. split.
  - rewrite Hst2, insert_insert_eq. f_equal. f_equal. fold upd2.
    apply (upsert_all_second "topic" upd1 upd2 (stamp_topic_key now1)
             ts vs m0 Hk0 Hd0 Hprim Hperm).
  - apply List.Forall_forall. intros v Hv.
    destruct (stored_origin "topic" upd1 (stamp_topic_key now1)
                            ts vs m0 Hk0 Hd0 Hperm v Hv) as [_ Horigin].
    subst g. unfold again.
    destruct Horigin as [->|(e & _ & He)]; [split; [apply same_but_refl|reflexivity]|].
    destruct (for_key "topic" (prop_opt v "topic") ts) as [|p batch] using rev_ind;
      [split; [apply same_but_refl|reflexivity]|].
    subst upd1 upd2. rewrite fold_replace_last in He. rewrite fold_replace_last.
    subst v. split; [apply stamp_topic_same_but|now intros ->].
Qed.

Lemma trendingData_same_but (now1 now2 : string) (g : value -> value) (vs : list value) :
  Forall (fun v => same_but "lastSeen" (g v) v) vs ->
  let d1 := trendingData now1 vs in
  let d2 := trendingData now2 (map g vs) in
  arr_same_but "lastSeen" (prop_opt d2 "topics") (prop_opt d1 "topics") /\
  prop_opt d2 "totalCount" = prop_opt d1 "totalCount".
Proof.
  intros H d1 d2. subst d1 d2. split.
  - cbn. rewrite firstn_map. apply Forall2_map_same_but. now apply Forall_take.
  - unfold trendingData, len. cbn. now rewrite length_map.
Qed.

Lemma stored_insert_same (key : string) (d : value) (st : store) :
  truthy d = true -> stored key (<[key := d]> st) = d.
Proof.
  intros H. rewrite stored_insert. destruct (decide (key = key)); [|congruence].
  now apply js_or_truthy.
Qed.

(** *** Feed posts

    [saveFeedPostsToStorage] reads back the object it stored as if it were
    the array of posts: a second submission is rejected and stores
    nothing. *)

Lemma feed_save_over_object (now : string) (p : value) (ps : list value) (st : store)
      (fs : list (string * value)) :
  stored FEED_POSTS st = VObj fs ->
  saveFeedPostsToStorage now (VArr (p :: ps)) st
  = (failure "allPosts.forEach is not a function", st).
Proof. intros H. unfold saveFeedPostsToStorage. rewrite H. reflexivity. Qed.

Lemma saveFeedPostsToStorage_cases (now : string) (p : value) (ps : list value)
      (st : store) :
  (exists msg, saveFeedPostsToStorage now (VArr (p :: ps)) st = (failure msg, st)) \/
  (exists resp fs,
      saveFeedPostsToStorage now (VArr (p :: ps)) st = (resp, <[FEED_POSTS := VObj fs]> st)).
Proof.
  unfold saveFeedPostsToStorage, try_catch.
  destruct (array_of "allPosts.forEach" _) as [xs|msg]; cbn [mbind res_bind]; [|eauto].
  destruct (index_by "urn" xs []) as [m0|msg]; cbn [mbind res_bind]; [|eauto].
  destruct (foldM (addFeedPost now) (p :: ps) (m0, 0)) as [r|msg]; cbn [mbind res_bind];
    [|eauto].
  destruct (calculateFeedStats _) as [stats|msg]; cbn [mbind res_bind mret res_ret];
    [|eauto].
  right. eauto.
Qed.

Lemma feed_resubmission_rejected (now1 now2 : string) (ps : list value) (st : store) :
  let r1 := saveFeedPostsToStorage now1 (VArr ps) st in
  prop_opt r1.1 "success" = VBool true -> ps <> [] ->
  saveFeedPostsToStorage now2 (VArr ps) r1.2
  = (failure "allPosts.forEach is not a function", r1.2).
Proof.
  intros r1 Hok Hne. destruct ps as [|p ps]; [congruence|]. subst r1.
  destruct (saveFeedPostsToStorage_cases now1 p ps st) as [[msg H]|(resp & fs & H)];
    rewrite H in *; cbn [fst snd] in *.
  - discriminate Hok.
  - eapply feed_save_over_object. now apply stored_insert_same.
Qed.

(** ** Resubmission: where the state changes *)




(** * Further properties of the interceptor *)

(** ** Classification: range *)

Lemma find_In {A} (f : A -> bool) (xs : list A) (x : A) : find f xs = Some x -> In x xs.
Proof. intros H. now apply find_some in H. Qed.

(** X1. [categorize] answers one of nine category names, whatever the URL;
    and for a URL without a query identifier one of the six names of the
    URL fallback: [myPosts], [comments] and [reactions] are reached through
    a query identifier only. *)
Theorem categorize_range (url : string) :
  In (categorize url)
     ["feed"; "myPosts"; "comments"; "reactions"; "messaging"; "profile"; "network";
      "analytics"; "other"] /\
  (extractQueryId url = None ->
   In (categorize url) ["feed"; "messaging"; "profile"; "network"; "analytics"; "other"]).
Proof.
  unfold categorize.
  set (byUrl := if includes (toLowerCase url) "feed" then "feed" else _).
  assert (Hby : In byUrl ["feed"; "messaging"; "profile"; "network"; "analytics"; "other"]).
  { subst byUrl.
    repeat match goal with
           | |- context [if ?b then _ else _] => destruct b
           end; cbv [In]; tauto. }
  split.
  - destruct (extractQueryId url) as [q|].
    + destruct (find _ graphqlCategories) as [entry|] eqn:Hfind.
      * apply find_In in Hfind. unfold graphqlCategories in Hfind. cbv [In] in Hfind.
        cbv [In]. intuition (subst; cbv [fst]; auto 10).
      * cbv [In] in Hby |- *. tauto.
    + cbv [In] in Hby |- *. tauto.
  - intros ->. exact Hby.
Qed.

(** ** The query identifier *)

Lemma strip_prefix_append (p s r : string) : strip_prefix p s = Some r -> s = p +:+ r.
Proof.
  revert s. induction p as [|a p IH]; intros s; destruct s as [|b s]; cbn; try discriminate.
  - now intros [= <-].
  - now intros [= <-].
  - destruct (Ascii.eqb_spec a b) as [->|]; [|discriminate].
    intros H. now rewrite (IH _ H).
Qed.

(** A string is the run of letters it starts with, followed by a rest that
    does not start with a letter. *)
Lemma letters_split (s : string) :
  exists rest, s = letters s +:+ rest /\ letters rest = "".
Proof.
  induction s as [|c s (rest & Hs & Hrest)]; [exists ""; split; reflexivity|].
  cbn [letters]. destruct (is_letter c) eqn:Hc.
  - exists rest. split; [|exact Hrest].
    change (String c s = String c (letters s +:+ rest)). congruence.
  - exists (String c s). split; [reflexivity|]. cbn. now rewrite Hc.
Qed.

Lemma letters_all (s : string) (c : ascii) :
  In c (list_ascii_of_string (letters s)) -> is_letter c = true.
Proof.
  induction s as [|a s IH]; cbn; [contradiction|].
  destruct (is_letter a) eqn:Ha; cbn; [|contradiction].
  intros [<-|H]; [exact Ha|now apply IH].
Qed.

Lemma includes_prefix (s p : string) : String.prefix p s = true -> includes s p = true.
Proof. intros H. destruct s; cbn in *; now rewrite H. Qed.

Lemma includes_false_tail (c : ascii) (s p : string) :
  includes (String c s) p = false -> includes s p = false.
Proof. cbn [includes]. intros H. now apply orb_false_elim in H as [_ H]. Qed.

Lemma prefix_append (p r : string) : String.prefix p (p +:+ r) = true.
Proof.
  induction p as [|a p IH]; simpl; [now destruct r|].
  destruct (ascii_dec a a); [exact IH|congruence].
Qed.

(** X2. The query identifier [extractQueryId] finds is never empty, holds
    letters only, and is the whole run of letters that follows an
    occurrence of [queryId=] in the URL; a URL that does not contain
    [queryId=] has none. *)
Theorem extractQueryId_shape (url : string) :
  (forall q,
      extractQueryId url = Some q ->
      q <> "" /\
      (forall c, In c (list_ascii_of_string q) -> is_letter c = true) /\
      exists pre post,
        url = pre +:+ "queryId=" +:+ q +:+ post /\ letters post = "") /\
  (includes url "queryId=" = false -> extractQueryId url = None).
Proof.
  split.
  - induction url as [|c url IH]; intros q; [discriminate|].
    cbn [extractQueryId].
    assert (Hrest : extractQueryId url = Some q ->
                    q <> "" /\
                    (forall c, In c (list_ascii_of_string q) -> is_letter c = true) /\
                    exists pre post,
                      String c url = pre +:+ "queryId=" +:+ q +:+ post /\ letters post = "").
    { intros H. destruct (IH q H) as (Hne & Hall & pre & post & Hurl & Hpost).
      split; [exact Hne|]. split; [exact Hall|].
      exists (String c pre), post. split; [|exact Hpost].
      change (String c url = String c (pre +:+ "queryId=" +:+ q +:+ post)). congruence. }
    destruct (strip_prefix "queryId=" (String c url)) as [after|] eqn:Hstrip; [|exact Hrest].
    destruct (letters after) as [|a q'] eqn:Hq; [exact Hrest|].
    intros [= <-]. split; [discriminate|]. split.
    + intros c' Hc'. rewrite <- Hq in Hc'. now apply letters_all in Hc'.
    + destruct (letters_split after) as (post & Hafter & Hpost).
      exists "", post. split; [|exact Hpost].
      apply strip_prefix_append in Hstrip. rewrite Hstrip, Hafter at 1. now rewrite Hq.
  - induction url as [|c url IH]; [reflexivity|].
    intros Hinc. cbn [extractQueryId].
    destruct (strip_prefix "queryId=" (String c url)) as [after|] eqn:Hstrip.
    + exfalso. apply strip_prefix_append in Hstrip.
      assert (includes (String c url) "queryId=" = true)
        by (apply includes_prefix; rewrite Hstrip; apply prefix_append).
      congruence.
    + apply IH. now apply includes_false_tail in Hinc.
Qed.

Lemma extractQueryId_shape_witness :
  extractQueryId feed_url = Some "voyagerFeedDashMainFeed" /\
  (exists pre post,
      feed_url = pre +:+ "queryId=" +:+ "voyagerFeedDashMainFeed" +:+ post /\
      letters post = "") /\
  extractQueryId profile_url = None.
Proof.
  destruct (extractQueryId_shape feed_url) as [Hsome _].
  destruct (extractQueryId_shape profile_url) as [_ Hnone].
  split; [reflexivity|]. split.
  - now destruct (Hsome "voyagerFeedDashMainFeed" eq_refl) as (_ & _ & H).
  - apply Hnone. reflexivity.
Defined.

(** ** The tiers together *)

Import Tiers.

Section TierRuns.

Variable getPathname : string -> string.
Variable parse : string -> res value.

Lemma looksLikeResponse_truthy (v : value) : looksLikeResponse v = true -> truthy v = true.
Proof. destruct v; cbn; try discriminate. reflexivity. Qed.

Lemma event_ok_event (type url method : string) (data : value) (now : Z) :
  shouldCapture url = true -> truthy data = true ->
  In type ["fetch"; "xhr"; "response-json"; "json-parse"] ->
  event_ok getPathname (event getPathname type url method data now).
Proof. intros Hu Hd Ht. repeat split; assumption. Qed.

(** The JSON.parse tier does nothing, or consumes the pointer and
    dispatches at most the event of the pointed URL. *)
Lemma jsonParse_cases (result : value) (now : Z) (t : tracker) :
  jsonParse getPathname result now t = (None, t) \/
  exists url,
    lastVoyagerUrl t = Some url /\ looksLikeResponse result = true /\
    (jsonParse getPathname result now t).2
    = {| lastVoyagerUrl := None;
         lastVoyagerTimestamp := lastVoyagerTimestamp t;
         pendingRequests := pendingRequests t |} /\
    ((jsonParse getPathname result now t).1 = None \/
     (jsonParse getPathname result now t).1
     = Some (event getPathname "json-parse" url "GET" result now)).
Proof.
  unfold jsonParse. destruct (lastVoyagerUrl t) as [url|]; [|now left].
  destruct (negb (String.eqb url "") && (now - lastVoyagerTimestamp t <? 5000));
    [|now left].
  destruct (looksLikeResponse result) eqn:Hlook; [|now left].
  right. exists url. repeat split.
  destruct (String.eqb (categorize url) "feed" || includes url "Feed"); [now right|now left].
Qed.

Lemma responseJson_ok (url : string) (result : value) (now : Z) :
  Forall (event_ok getPathname) (responseJson getPathname url result now).
Proof.
  unfold responseJson. destruct (shouldCapture url) eqn:Hu; [|constructor].
  destruct (truthy result) eqn:Hr; cbn [andb]; [|constructor].
  apply List.Forall_cons; [|constructor].
  apply event_ok_event; try assumption. cbv [In]. tauto.
Qed.

Lemma fetchCapture_ok (url method : string) (r : response) (nj nf : Z) :
  Forall (event_ok getPathname) (fetchCapture getPathname url method r nj nf).
Proof.
  unfold fetchCapture.
  destruct (shouldCapture url) eqn:Hurl; [|constructor].
  destruct (includes _ "application/json"); [|constructor].
  destruct (resp_json r) as [data|msg]; [|constructor].
  apply Forall_app. split; [apply responseJson_ok|].
  destruct (truthy data) eqn:Hd; [|constructor].
  apply List.Forall_cons; [|constructor].
  apply event_ok_event; try assumption. cbv [In]. tauto.
Qed.

Lemma jsonParse_ok (result : value) (now : Z) (t : tracker) :
  pointer_ok t ->
  Forall (event_ok getPathname) (option_list (jsonParse getPathname result now t).1) /\
  pointer_ok (jsonParse getPathname result now t).2.
Proof.
  intros Ht.
  destruct (jsonParse_cases result now t) as [->|(url & Hurl & Hlook & -> & [->| ->])];
    cbn [fst snd option_list].
  - split; [constructor|exact Ht].
  - split; [constructor|]. intros u. cbn. discriminate.
  - split; [|intros u; cbn; discriminate].
    apply List.Forall_cons; [|constructor].
    apply event_ok_event; [now apply Ht|now apply looksLikeResponse_truthy|].
    cbv [In]. tauto.
Qed.

(** The XHR listener does nothing, or runs the JSON.parse tier on the
    parsed text and dispatches that text when it is truthy. *)
Lemma xhrLoad_cases (method url : string) (status : Z) (ct : option string) (txt : string)
      (n1 n2 : Z) (t : tracker) :
  let r := xhrLoad getPathname parse method url status ct txt n1 n2 t in
  (r = ([], t) /\
   (shouldCapture url = false \/ status < 200 \/ 300 <= status \/ json_content ct = false \/
    exists msg, parse txt = Throw msg)) \/
  exists json,
    shouldCapture url = true /\ 200 <= status < 300 /\ json_content ct = true /\
    parse txt = Ok json /\
    r = ((option_list (jsonParse getPathname json n1 t).1
          ++ (if truthy json then [event getPathname "xhr" url method json n2] else []))%list,
         (jsonParse getPathname json n1 t).2).
Proof.
  unfold xhrLoad, json_content.
  destruct (shouldCapture url); cbn [andb]; [|left; tauto].
  destruct (Z.leb_spec 200 status); cbn [andb]; [|left; tauto].
  destruct (Z.ltb_spec status 300); cbn [andb]; [|left; tauto].
  destruct (includes (default "" ct) "application/json"); [|left; tauto].
  destruct (parse txt) as [json|msg]; [|left; eauto 10].
  right. exists json. repeat split; assumption.
Qed.

Lemma step_ok (t : tracker) (o : op) :
  pointer_ok t ->
  Forall (event_ok getPathname) (step getPathname parse t o).1 /\
  pointer_ok (step getPathname parse t o).2.
Proof.
  intros Ht. destruct o as [url id method now r nj nf np|method url status ct txt n1 n2
                           |url result now|result now]; cbn [step fst snd].
  - split.
    + destruct r as [r|]; [apply fetchCapture_ok|constructor].
    + unfold pointer_ok, purgePending, trackFetch. cbn [lastVoyagerUrl].
      destruct (shouldCapture url) eqn:Hurl; cbn [lastVoyagerUrl]; [|exact Ht].
      now intros u [= <-].
  - destruct (xhrLoad_cases method url status ct txt n1 n2 t)
      as [[-> _]|(json & Hurl & _ & _ & _ & ->)]; cbn [fst snd].
    + split; [constructor|exact Ht].
    + destruct (jsonParse_ok json n1 t Ht) as [Hev Hp]. split; [|exact Hp].
      apply Forall_app. split; [exact Hev|].
      destruct (truthy json) eqn:Hj; [|constructor].
      apply List.Forall_cons; [|constructor].
      apply event_ok_event; try assumption. cbv [In]. tauto.
  - split; [apply responseJson_ok|exact Ht].
  - apply jsonParse_ok, Ht.
Qed.

Lemma run_ok (os : list op) (t : tracker) :
  pointer_ok t ->
  Forall (event_ok getPathname) (run getPathname parse os t).1 /\
  pointer_ok (run getPathname parse os t).2.
Proof.
  revert t. induction os as [|o os IH]; intros t Ht; cbn [run fst snd].
  - split; [constructor|exact Ht].
  - destruct (step_ok t o Ht) as [Hev Hp]. destruct (IH _ Hp) as [Hev' Hp'].
    split; [now apply Forall_app|exact Hp'].
Qed.

(** X3. Whatever the page does, every event a tier dispatches carries a
    URL that matches a capture pattern and a truthy payload, and its
    category, query identifier, GraphQL flag and endpoint are those of its
    URL: the tiers classify alike, the JSON.parse tier included, whose URL
    is the one of an earlier call of [fetch]. *)
Theorem tiers_dispatch_captured_urls (os : list op) :
  Forall (event_ok getPathname) (run getPathname parse os tracker_init).1.
Proof. apply run_ok. intros url. cbn. discriminate. Qed.

(** *** One JSON.parse capture per tracked call of [fetch] *)

Lemma count_app {A} (f : A -> bool) (xs ys : list A) :
  length (List.filter f (xs ++ ys)) = (length (List.filter f xs) + length (List.filter f ys))%nat.
Proof. now rewrite List.filter_app, length_app. Qed.

Lemma count_none {A} (f : A -> bool) (xs : list A) :
  Forall (fun x => f x = false) xs -> length (List.filter f xs) = 0%nat.
Proof. induction 1 as [|x xs Hx _ IH]; cbn; [reflexivity|]. now rewrite Hx. Qed.

Lemma responseJson_type (url : string) (result : value) (now : Z) :
  Forall (fun e => is_type "json-parse" e = false)
         (responseJson getPathname url result now).
Proof. unfold responseJson. destruct (_ && _); repeat constructor. Qed.

Lemma fetchCapture_type (url method : string) (r : response) (nj nf : Z) :
  Forall (fun e => is_type "json-parse" e = false)
         (fetchCapture getPathname url method r nj nf).
Proof.
  unfold fetchCapture. destruct (shouldCapture url); [|constructor].
  destruct (includes _ _); [|constructor]. destruct (resp_json r); [|constructor].
  apply Forall_app. split; [apply responseJson_type|].
  destruct (truthy a); repeat constructor.
Qed.

Lemma jsonParse_count (result : value) (now : Z) (t : tracker) :
  (length (List.filter (is_type "json-parse")
                       (option_list (jsonParse getPathname result now t).1))
   + pointer_set (jsonParse getPathname result now t).2 <= pointer_set t)%nat.
Proof.
  destruct (jsonParse_cases result now t) as [->|(url & Hurl & _ & -> & [->| ->])];
    unfold pointer_set; cbn [fst snd option_list lastVoyagerUrl List.filter length];
    try rewrite Hurl; cbn; lia.
Qed.

Lemma step_count (t : tracker) (o : op) :
  (length (List.filter (is_type "json-parse") (step getPathname parse t o).1)
   + pointer_set (step getPathname parse t o).2
   <= (if tracked o then 1 else 0) + pointer_set t)%nat.
Proof.
  destruct o as [url id method now r nj nf np|method url status ct txt n1 n2
                |url result now|result now]; cbn [step fst snd tracked].
  - rewrite count_none by (destruct r; [apply fetchCapture_type|constructor]).
    unfold pointer_set, purgePending, trackFetch. cbn [lastVoyagerUrl].
    destruct (shouldCapture url); cbn [lastVoyagerUrl]; [|lia].
    destruct (lastVoyagerUrl t); lia.
  - destruct (xhrLoad_cases method url status ct txt n1 n2 t)
      as [[-> _]|(json & _ & _ & _ & _ & ->)]; cbn [fst snd List.filter length]; [lia|].
    rewrite count_app, (count_none _ (if truthy json then _ else _))
      by (destruct (truthy json); repeat constructor).
    pose proof (jsonParse_count json n1 t). lia.
  - rewrite count_none by apply responseJson_type. lia.
  - pose proof (jsonParse_count result now t). lia.
Qed.

Lemma run_count (os : list op) (t : tracker) :
  (length (List.filter (is_type "json-parse") (run getPathname parse os t).1)
   + pointer_set (run getPathname parse os t).2
   <= length (List.filter tracked os) + pointer_set t)%nat.
Proof.
  revert t. induction os as [|o os IH]; intros t; cbn [run fst snd List.filter]; [cbn; lia|].
  rewrite count_app. pose proof (step_count t o) as Hstep.
  pose proof (IH (step getPathname parse t o).2) as Hrest.
  destruct (tracked o); cbn [length]; lia.
Qed.

(** X4. Whatever the page does, the JSON.parse tier dispatches at most one
    event per call of [fetch] that the tracking wrapper recorded: a match
    clears the pointer, and only a recorded call sets it again. *)
Theorem one_json_parse_event_per_tracked_fetch (os : list op) :
  (length (List.filter (is_type "json-parse") (run getPathname parse os tracker_init).1)
   <= length (List.filter tracked os))%nat.
Proof. pose proof (run_count os tracker_init) as H. cbn in H. lia. Qed.

(** *** The wrapper of [fetch] *)

(** X5. The wrapper of [fetch] dispatches exactly when the URL matches a
    capture pattern, the content type contains [application/json] and the
    body parses to a truthy value: then the ['fetch'] event comes last, and
    before it the wrapped [json()] of the clone has dispatched the same
    body as a ['response-json'] event when the URL of the response matches
    a capture pattern too.  In every other case it dispatches nothing. *)
Theorem fetch_wrapper_dispatch (url method : string) (r : response) (nj nf : Z) :
  let evs := fetchCapture getPathname url method r nj nf in
  (forall data,
      shouldCapture url = true -> json_content (resp_contentType r) = true ->
      resp_json r = Ok data -> truthy data = true ->
      evs = (responseJson getPathname (resp_url r) data nj
             ++ [event getPathname "fetch" url method data nf])%list /\
      (shouldCapture (resp_url r) = true ->
       evs = [event getPathname "response-json" (resp_url r) "GET" data nj;
              event getPathname "fetch" url method data nf])) /\
  (evs <> [] ->
   shouldCapture url = true /\ json_content (resp_contentType r) = true /\
   exists data, resp_json r = Ok data /\ truthy data = true).
Proof.
  intros evs. subst evs. unfold fetchCapture, json_content. split.
  - intros data -> -> -> Hd. rewrite Hd. split; [reflexivity|].
    intros Hr. unfold responseJson. now rewrite Hr, Hd.
  - destruct (shouldCapture url); [|congruence].
    destruct (includes _ _); [|congruence].
    destruct (resp_json r) as [data|msg]; [|congruence].
    unfold responseJson. destruct (truthy data) eqn:Hd; [intros _; eauto|].
    destruct (shouldCapture (resp_url r)); cbn; congruence.
Qed.

(** *** The wrapper of [XMLHttpRequest] *)

(** X6. The XHR listener dispatches its ['xhr'] event exactly when the URL
    matches a capture pattern, the status is 2xx, the content type contains
    [application/json] and the text parses to a truthy value.  Outside
    these conditions on URL, status and content type the text is not even
    parsed: nothing is dispatched and the tracker is untouched.  The
    listener never sets the pointer of the JSON.parse tier: it leaves it or
    clears it. *)
Theorem xhr_listener_dispatch (method url : string) (status : Z) (ct : option string)
        (txt : string) (n1 n2 : Z) (t : tracker) :
  let r := xhrLoad getPathname parse method url status ct txt n1 n2 t in
  ((exists e, In e r.1 /\ ev_type e = "xhr") <->
   (shouldCapture url = true /\ 200 <= status < 300 /\ json_content ct = true /\
    exists json, parse txt = Ok json /\ truthy json = true)) /\
  (shouldCapture url = false \/ status < 200 \/ 300 <= status \/ json_content ct = false ->
   r = ([], t)) /\
  (lastVoyagerUrl r.2 = lastVoyagerUrl t \/ lastVoyagerUrl r.2 = None).
Proof.
  intros r. subst r.
  destruct (xhrLoad_cases method url status ct txt n1 n2 t)
    as [[-> Hwhy]|(json & Hurl & Hstatus & Hct & Hparse & ->)]; cbn [fst snd].
  - split; [|split; [reflexivity|now left]].
    split; [intros (e & [] & _)|].
    intros (Hurl & Hstatus & Hct & json & Hparse & _).
    destruct Hwhy as [H|[H|[H|[H|[msg H]]]]]; try congruence; lia.
  - split; [|split].
    + split.
      * intros (e & Hin & Htype). repeat (split; [assumption|]).
        exists json. split; [exact Hparse|].
        apply in_app_or in Hin as [Hin|Hin].
        -- destruct (jsonParse_cases json n1 t) as [Hnone|(u & _ & _ & _ & [Hnone|Hsome])];
             rewrite ?Hnone, ?Hsome in Hin; cbn in Hin; try contradiction.
           destruct Hin as [<-|[]]. discriminate Htype.
        -- destruct (truthy json); [reflexivity|contradiction].
      * intros (_ & _ & _ & json' & Hparse' & Htruthy).
        assert (json' = json) as -> by congruence.
        exists (event getPathname "xhr" url method json n2). split; [|reflexivity].
        apply in_or_app. right. rewrite Htruthy. now left.
    + intros [H|[H|[H|H]]]; try congruence; lia.
    + destruct (jsonParse_cases json n1 t) as [->|(u & _ & _ & -> & _)]; [now left|now right].
Qed.

End TierRuns.

Lemma fetch_wrapper_dispatch_witness :
  fetchCapture (fun u => u) feed_url "GET" example_response 1 2
  = [event (fun u => u) "response-json" feed_url "GET" (VObj [("data", VObj [])]) 1;
     event (fun u => u) "fetch" feed_url "GET" (VObj [("data", VObj [])]) 2].
Proof.
  destruct (fetch_wrapper_dispatch (fun u => u) feed_url "GET" example_response 1 2)
    as [H _].
  apply (H (VObj [("data", VObj [])])); reflexivity.
Defined.

Lemma xhr_listener_dispatch_witness :
  xhrLoad (fun u => u) example_parse "GET" feed_url 404 (Some "application/json") "[1]" 1 2
          tracker_init
  = ([], tracker_init) /\
  exists e,
    In e (xhrLoad (fun u => u) example_parse "GET" feed_url 200 (Some "application/json")
                  "[1]" 1 2 tracker_init).1 /\
    ev_type e = "xhr".
Proof.
  split.
  - destruct (xhr_listener_dispatch (fun u => u) example_parse "GET" feed_url 404
                (Some "application/json") "[1]" 1 2 tracker_init) as (_ & H & _).
    apply H. right. right. left. lia.
  - destruct (xhr_listener_dispatch (fun u => u) example_parse "GET" feed_url 200
                (Some "application/json") "[1]" 1 2 tracker_init) as (H & _ & _).
    apply H. repeat split; try reflexivity; try lia.
    exists (VArr [VNum 1]). split; reflexivity.
Defined.

(** * Further properties of the service worker *)

(** ** Generic storage requests *)

(** X7. A value saved with [SAVE_DATA] under a string key is what a
    following [GET_DATA] of that key answers, except that a falsy value (0,
    the empty string, [false], [null]) comes back as [null]; a [GET_DATA]
    of another key answers what it answered before. *)
Theorem save_data_then_get_data mean (e e' : env) (m g : value) (st : store) (k : string) :
  prop m "type" = Ok (VStr "SAVE_DATA") -> prop_opt m "key" = VStr k ->
  prop g "type" = Ok (VStr "GET_DATA") ->
  exists st1,
    handleMessage mean e m st = Ok (VObj [("success", VBool true)], st1) /\
    (prop_opt g "key" = VStr k ->
     handleMessage mean e' g st1
     = Ok (VObj [("success", VBool true);
                 ("data", if truthy (prop_opt m "data") then prop_opt m "data" else VNull)],
           st1)) /\
    (forall k', k' <> k -> prop_opt g "key" = VStr k' ->
                exists r, handleMessage mean e' g st = Ok (r, st) /\
                          handleMessage mean e' g st1 = Ok (r, st1)).
Proof.
  intros Hm Hk Hg. exists (<[k := prop_opt m "data"]> st).
  rewrite (route_SAVE_DATA mean e m st Hm), Hk. split; [reflexivity|]. split.
  - intros Hgk. rewrite (route_GET_DATA mean e' g _ Hg), Hgk. unfold getFromStorage.
    cbn [toString]. rewrite stored_insert. destruct (decide (k = k)); [|congruence].
    reflexivity.
  - intros k' Hne Hgk. exists (getFromStorage k' st).
    rewrite !(route_GET_DATA mean e' g _ Hg), Hgk. cbn [toString]. split; [reflexivity|].
    unfold getFromStorage. rewrite stored_insert.
    destruct (decide (k = k')); [congruence|reflexivity].
Qed.

Lemma save_data_then_get_data_witness :
  let save d := VObj [("type", VStr "SAVE_DATA"); ("key", VStr "k"); ("data", d)] in
  let get := VObj [("type", VStr "GET_DATA"); ("key", VStr "k")] in
  (exists st1,
      handleMessage mean0 env0 (save (VNum 0)) ∅ = Ok (VObj [("success", VBool true)], st1) /\
      handleMessage mean0 env0 get st1
      = Ok (VObj [("success", VBool true); ("data", VNull)], st1)) /\
  (exists st1,
      handleMessage mean0 env0 (save (VNum 7)) ∅ = Ok (VObj [("success", VBool true)], st1) /\
      handleMessage mean0 env0 get st1
      = Ok (VObj [("success", VBool true); ("data", VNum 7)], st1)).
Proof.
  intros save get. split.
  - destruct (save_data_then_get_data mean0 env0 env0 (save (VNum 0)) get ∅ "k")
      as (st1 & H1 & H2 & _); try reflexivity.
    exists st1. split; [exact H1|]. now apply H2.
  - destruct (save_data_then_get_data mean0 env0 env0 (save (VNum 7)) get ∅ "k")
      as (st1 & H1 & H2 & _); try reflexivity.
    exists st1. split; [exact H1|]. now apply H2.
Defined.

Lemma getStats_empty :
  getStats ∅
  = Ok (VObj [("success", VBool true);
              ("stats",
               VObj [("apisCaptured", VNum 0); ("hasProfile", VBool false);
                     ("hasAnalytics", VBool false); ("hasConnections", VBool false);
                     ("connectionsCount", VNum 0); ("totalConnections", VNum 0);
                     ("lastCapture", VNull)])]).
Proof. unfold getStats. rewrite !lookup_empty. reflexivity. Qed.

(** X8. After [CLEAR_DATA] nothing of the storage is left, whatever it
    held: [GET_DATA] answers [null] for every key, [GET_ALL_DATA] an empty
    object, and [GET_STATS] no capture, no profile, no analytics and no
    connections. *)
Theorem clear_data_then_reads mean (e e' : env) (m g : value) (st : store) :
  prop m "type" = Ok (VStr "CLEAR_DATA") ->
  exists st1,
    handleMessage mean e m st = Ok (VObj [("success", VBool true)], st1) /\
    (prop g "type" = Ok (VStr "GET_DATA") ->
     handleMessage mean e' g st1
     = Ok (VObj [("success", VBool true); ("data", VNull)], st1)) /\
    (prop g "type" = Ok (VStr "GET_ALL_DATA") ->
     handleMessage mean e' g st1
     = Ok (VObj [("success", VBool true); ("data", VObj [])], st1)) /\
    (prop g "type" = Ok (VStr "GET_STATS") ->
     handleMessage mean e' g st1
     = Ok (VObj [("success", VBool true);
                 ("stats",
                  VObj [("apisCaptured", VNum 0); ("hasProfile", VBool false);
                        ("hasAnalytics", VBool false); ("hasConnections", VBool false);
                        ("connectionsCount", VNum 0); ("totalConnections", VNum 0);
                        ("lastCapture", VNull)])], st1)).
Proof.
  intros Hm. exists ∅. rewrite (route_CLEAR_DATA mean e m st Hm).
  split; [reflexivity|]. split; [|split]; intros Hg.
  - rewrite (route_GET_DATA mean e' g _ Hg). unfold getFromStorage.
    now rewrite stored_empty.
  - rewrite (route_GET_ALL_DATA mean e' g _ Hg). unfold getAllStoredData.
    now rewrite map_to_list_empty.
  - rewrite (route_GET_STATS mean e' g _ Hg), getStats_empty. reflexivity.
Qed.

Lemma clear_data_then_reads_witness :
  exists st1,
    handleMessage mean0 env0 (VObj [("type", VStr "CLEAR_DATA")]) my_posts_st
    = Ok (VObj [("success", VBool true)], st1) /\
    handleMessage mean0 env0 (VObj [("type", VStr "GET_DATA"); ("key", VStr MY_POSTS)]) st1
    = Ok (VObj [("success", VBool true); ("data", VNull)], st1).
Proof.
  destruct (clear_data_then_reads mean0 env0 env0 (VObj [("type", VStr "CLEAR_DATA")])
              (VObj [("type", VStr "GET_DATA"); ("key", VStr MY_POSTS)]) my_posts_st eq_refl)
    as (st1 & H1 & H2 & _).
  exists st1. split; [exact H1|]. now apply H2.
Defined.

(** ** The log of [appendToStorage] *)

Lemma slice_last_snoc (n : nat) (xs : list value) (x : value) :
  (0 < n)%nat ->
  slice_last n (xs ++ [x]) = drop (length xs + 1 - n) xs ++ [x].
Proof.
  intros Hn. unfold slice_last. rewrite length_app. cbn [length].
  rewrite drop_app_le by lia. reflexivity.
Qed.

Lemma appendToStorage_array (now key : string) (fs : list (string * value)) (st : store)
      (xs : list value) :
  js_or (stored key st) (VArr []) = VArr xs ->
  let entry := VObj (set_field "capturedAt" (VStr now) (spread (VObj fs) [])) in
  let kept := drop (length xs + 1 - 1000) xs in
  appendToStorage now key (VObj fs) st
  = (VObj [("success", VBool true); ("count", len (kept ++ [entry]))],
     <[key := VArr (kept ++ [entry])]> st).
Proof.
  intros Hxs entry kept. unfold appendToStorage. rewrite Hxs.
  cbn [array_of mbind res_bind mret res_ret try_catch].
  now rewrite slice_last_snoc by lia.
Qed.

(** X9. [appendToStorage] on a key that holds an array (or nothing) stores
    the array with the new entry last: the entry is the payload with
    [capturedAt] set to the time of the call (over a [capturedAt] of its
    own), the earlier entries keep their order, and only the oldest are
    dropped, as many as exceed 1000; [count] is the length stored. *)
Theorem append_keeps_recent_entries (now key : string) (fs : list (string * value))
        (st : store) (xs : list value) :
  js_or (stored key st) (VArr []) = VArr xs ->
  exists dropped kept entry,
    xs = dropped ++ kept /\
    length dropped = (length xs + 1 - 1000)%nat /\
    appendToStorage now key (VObj fs) st
    = (VObj [("success", VBool true); ("count", len (kept ++ [entry]))],
       <[key := VArr (kept ++ [entry])]> st) /\
    (length (kept ++ [entry]) <= 1000)%nat /\
    prop_opt entry "capturedAt" = VStr now /\
    (forall f, f <> "capturedAt" -> prop_opt entry f = prop_opt (VObj fs) f).
Proof.
  intros Hxs.
  exists (take (length xs + 1 - 1000) xs), (drop (length xs + 1 - 1000) xs),
    (VObj (set_field "capturedAt" (VStr now) (spread (VObj fs) []))).
  split; [now rewrite take_drop|]. split; [rewrite length_take; lia|].
  split; [now apply appendToStorage_array|]. split; [|split].
  - rewrite length_app, length_drop. cbn [length]. lia.
  - rewrite prop_opt_obj, get_field_set_field. reflexivity.
  - intros f Hf. rewrite !prop_opt_obj, get_field_set_field.
    destruct (String.eqb_spec "capturedAt" f) as [<-|_]; [congruence|].
    now rewrite get_field_spread_any.
Qed.

Lemma append_keeps_recent_entries_witness :
  exists dropped kept entry,
    [VNum 1; VNum 2] = dropped ++ kept /\
    length dropped = 0%nat /\
    appendToStorage "t1" "log" (VObj [("url", VStr "u"); ("capturedAt", VStr "t0")])
                    {[ "log" := VArr [VNum 1; VNum 2] ]}
    = (VObj [("success", VBool true); ("count", len (kept ++ [entry]))],
       <["log" := VArr (kept ++ [entry])]> {[ "log" := VArr [VNum 1; VNum 2] ]}) /\
    (length (kept ++ [entry]) <= 1000)%nat /\
    prop_opt entry "capturedAt" = VStr "t1" /\
    (forall f, f <> "capturedAt" ->
               prop_opt entry f
               = prop_opt (VObj [("url", VStr "u"); ("capturedAt", VStr "t0")]) f).
Proof.
  apply (append_keeps_recent_entries "t1" "log"
           [("url", VStr "u"); ("capturedAt", VStr "t0")]
           {[ "log" := VArr [VNum 1; VNum 2] ]} [VNum 1; VNum 2]).
  vm_compute. reflexivity.
Defined.

(** X10. [appendToStorage] on a key that holds a truthy value that is not
    an array (the object a save operation stored, a string, a number)
    answers [currentArray.push is not a function] and leaves the storage as
    it is: it never overwrites such a value. *)
Theorem append_refuses_non_array (now key : string) (newData v : value) (st : store) :
  st !! key = Some v -> truthy v = true -> (forall xs, v <> VArr xs) ->
  appendToStorage now key newData st
  = (failure "currentArray.push is not a function", st).
Proof.
  intros Hv Ht Harr. unfold appendToStorage, stored. rewrite Hv. cbn [default].
  rewrite !js_or_truthy by (rewrite ?js_or_truthy; assumption).
  destruct v; try discriminate Ht; try reflexivity.
  now destruct (Harr xs).
Qed.

Lemma append_refuses_non_array_witness :
  appendToStorage "t1" MY_POSTS (VObj [("url", VStr "u")]) my_posts_st
  = (failure "currentArray.push is not a function", my_posts_st).
Proof.
  apply (append_refuses_non_array "t1" MY_POSTS _
           (VObj [("posts", VArr [my_post_old]); ("totalCount", VNum 1)]));
    [vm_compute; reflexivity|reflexivity|discriminate].
Defined.

(** ** Captures and statistics *)

Lemma index_last (xs : list value) (x : value) :
  index (VArr (xs ++ [x])) (Z.of_nat (length (xs ++ [x])) - 1) = x.
Proof.
  unfold index. rewrite length_app. cbn [length].
  destruct (Z.ltb_spec (Z.of_nat (length xs + 1) - 1) 0); [lia|].
  replace (Z.to_nat (Z.of_nat (length xs + 1) - 1)) with (length xs) by lia.
  now rewrite list_lookup_middle.
Qed.

(** X11. After an [API_CAPTURED] message on a storage whose log is an
    array (or absent), [GET_STATS] reports the time of that capture as
    [lastCapture] and the length of the log, at most 1000, as
    [apisCaptured]. *)
Theorem api_captured_then_get_stats mean (e e' : env) (m g : value) (st : store)
        (xs : list value) :
  prop m "type" = Ok (VStr "API_CAPTURED") ->
  js_or (stored CAPTURED_APIS st) (VArr []) = VArr xs ->
  prop g "type" = Ok (VStr "GET_STATS") ->
  exists r st1 stats,
    handleMessage mean e m st = Ok (r, st1) /\
    prop_opt r "success" = VBool true /\
    handleMessage mean e' g st1
    = Ok (VObj [("success", VBool true); ("stats", stats)], st1) /\
    prop_opt stats "apisCaptured" = VNum (Z.of_nat (Nat.min (length xs + 1) 1000)) /\
    prop_opt stats "lastCapture" = VStr (now e).
Proof.
  intros Hm Hxs Hg.
  rewrite (route_API_CAPTURED mean e m st Hm).
  rewrite (appendToStorage_array _ _ _ _ _ Hxs).
  set (entry := VObj (set_field "capturedAt" _ _)).
  set (kept := drop _ xs).
  do 3 eexists. split; [reflexivity|]. split; [reflexivity|].
  rewrite (route_GET_STATS mean e' g _ Hg). unfold getStats.
  rewrite lookup_insert_eq.
  change (js_or (default VUndef (Some (VArr (kept ++ [entry])))) (VArr []))
    with (VArr (kept ++ [entry])).
  assert (Hlen : prop_opt (VArr (kept ++ [entry])) "length"
                 = VNum (Z.of_nat (length (kept ++ [entry])))) by reflexivity.
  rewrite Hlen. cbn [num_or0 js_gt].
  assert ((0 <? Z.of_nat (length (kept ++ [entry]))) = true) as ->
    by (apply Z.ltb_lt; rewrite length_app; cbn; lia).
  rewrite index_last.
  assert (Hcap : prop entry "capturedAt" = Ok (VStr (now e))).
  { subst entry. unfold prop. now rewrite get_field_set_field. }
  rewrite Hcap. cbn [mbind res_bind mret res_ret]. split; [reflexivity|].
  split; [|reflexivity].
  rewrite prop_opt_obj. cbn [get_field String.eqb Ascii.eqb Bool.eqb default]. unfold id.
  do 2 f_equal. subst kept. rewrite length_app, length_drop. cbn [length]. lia.
Qed.

Lemma api_captured_then_get_stats_witness :
  exists r st1 stats,
    handleMessage mean0 env0 (VObj [("type", VStr "API_CAPTURED"); ("url", VStr "u")]) ∅
    = Ok (r, st1) /\
    handleMessage mean0 env0 (VObj [("type", VStr "GET_STATS")]) st1
    = Ok (VObj [("success", VBool true); ("stats", stats)], st1) /\
    prop_opt stats "apisCaptured" = VNum 1 /\
    prop_opt stats "lastCapture" = VStr (now env0).
Proof.
  destruct (api_captured_then_get_stats mean0 env0 env0
              (VObj [("type", VStr "API_CAPTURED"); ("url", VStr "u")])
              (VObj [("type", VStr "GET_STATS")]) ∅ [] eq_refl)
    as (r & st1 & stats & H1 & _ & H2 & H3 & H4); [vm_compute; reflexivity|reflexivity|].
  exists r, st1, stats. repeat split; assumption.
Defined.

(** ** Post analytics *)

Lemma prop_nonnull (p : value) (k : string) : nonnull p -> prop p k = Ok (prop_opt p k).
Proof. destruct p; cbn; try contradiction; reflexivity. Qed.

Lemma findIndex_position (urn : value) (xs : list value) (i : nat) :
  Forall nonnull xs ->
  findIndex_activityUrn urn xs i
  = Ok ((fun n => (n + i)%nat) <$> position (has_activityUrn urn) xs).
Proof.
  intros H. revert i. induction H as [|x xs Hx _ IH]; intros i; [reflexivity|].
  cbn [findIndex_activityUrn position]. rewrite (prop_nonnull x _ Hx).
  cbn [mbind res_bind]. unfold has_activityUrn, activityUrn.
  destruct (strict_eq (prop_opt x "activityUrn") urn); [reflexivity|].
  rewrite IH. unfold mret, res_ret. f_equal.
  destruct (position _ xs) as [n|]; cbn; [|reflexivity]. f_equal. lia.
Qed.

Lemma position_Some (f : value -> bool) (xs : list value) (i : nat) :
  position f xs = Some i -> exists x, xs !! i = Some x /\ f x = true.
Proof.
  revert i. induction xs as [|y xs IH]; intros i; cbn; [discriminate|].
  destruct (f y) eqn:Hy.
  - intros [= <-]. eauto.
  - destruct (position f xs) as [n|]; cbn; [|discriminate].
    intros [= <-]. now apply IH.
Qed.

Lemma position_existsb (f : value -> bool) (xs : list value) :
  existsb f xs = bool_decide (is_Some (position f xs)).
Proof.
  induction xs as [|y xs IH]; [reflexivity|]. cbn.
  destruct (f y); cbn; [reflexivity|]. rewrite IH.
  destruct (position f xs); reflexivity.
Qed.

Lemma sum_prop_nonnull (k : string) (xs : list value) :
  Forall nonnull xs ->
  sum_prop k xs = Ok (sum_by (fun p => num_or0 (prop_opt p k)) xs).
Proof.
  unfold sum_prop, sum_by. intros H. generalize 0.
  induction H as [|x xs Hx _ IH]; intros z; [reflexivity|].
  cbn [foldM fold_left]. rewrite (prop_nonnull x k Hx). cbn [mbind res_bind mret res_ret].
  apply IH.
Qed.

Lemma Forall_list_insert {A} (P : A -> Prop) (xs : list A) (i : nat) (x : A) :
  Forall P xs -> P x -> Forall P (<[i := x]> xs).
Proof. intros Hxs Hx. now apply Forall_insert. Qed.

Lemma distinct_keys_take (n : nat) (ks : list value) :
  distinct_keys ks = true -> distinct_keys (take n ks) = true.
Proof.
  revert n. induction ks as [|k ks IH]; intros [|n]; cbn; try reflexivity.
  intros H. apply andb_prop in H as [Hk Hd]. rewrite (IH n Hd), andb_true_r.
  apply negb_true_iff in Hk. apply negb_true_iff.
  destruct (existsb (same_value_zero k) (take n ks)) eqn:Hex; [|reflexivity].
  apply existsb_exists in Hex as (x & Hx & Hkx). apply in_take in Hx.
  rewrite <- Hk. symmetry. apply existsb_exists. eauto.
Qed.

Lemma truthy_prop_obj (p : value) (k : string) :
  truthy (prop_opt p k) = true -> k <> "length" -> exists fs, p = VObj fs.
Proof.
  destruct p; try (cbn; discriminate); eauto; unfold prop_opt; cbn;
    destruct (String.eqb_spec k "length"); try congruence; cbn; discriminate.
Qed.

Section PostAnalytics.

Variable mean : list value -> string.
Variables (now : string) (newData : value) (st : store) (xs : list value).

Let urn := activityUrn newData.
Let cmp := fun a b : value => impressions b - impressions a.

(** The posts after the update in place, or the insertion at the end. *)
Let merged : list value :=
  match position (has_activityUrn urn) xs with
  | Some i => <[i := merge_record now (default VUndef (xs !! i)) newData]> xs
  | None =>
      xs ++ [VObj (set_field "lastUpdated" (VStr now)
                     (set_field "firstCaptured" (VStr now) (spread newData [])))]
  end.

Let ps := take 100 (sort_by cmp merged).

Hypothesis urn_truthy : truthy urn = true.
Hypothesis stored_posts : post_analytics_array st = VArr xs.
Hypothesis stored_nonnull : Forall nonnull xs.

Lemma analytics_merged_nonnull : Forall nonnull merged.
Proof.
  subst merged. cbv zeta. destruct (position _ xs) as [i|].
  - apply Forall_list_insert; [exact stored_nonnull|exact I].
  - apply Forall_app. split; [exact stored_nonnull|]. repeat constructor.
Qed.

Lemma analytics_ps_nonnull : Forall nonnull ps.
Proof. apply Forall_take, Forall_sort_by, analytics_merged_nonnull. Qed.

Lemma savePostAnalyticsToStorage_run :
  exists data,
    savePostAnalyticsToStorage mean now newData st
    = (VObj [("success", VBool true); ("totalCount", len ps);
             ("isUpdate", VBool (existsb (has_activityUrn urn) xs))],
       <[POST_ANALYTICS_DATA := data]> st) /\
    prop_opt data "posts" = VArr ps /\
    prop_opt data "totalCount" = len ps /\
    prop_opt (prop_opt data "stats") "totalImpressions" = VNum (sum_by impressions ps) /\
    prop_opt data "lastUpdated" = VStr now.
Proof.
  unfold savePostAnalyticsToStorage.
  assert (Hnew : truthy newData = true).
  { destruct (truthy_prop_obj newData "activityUrn" urn_truthy) as [fs ->];
      [discriminate|reflexivity]. }
  fold (activityUrn newData). fold urn. rewrite Hnew, urn_truthy. cbn [negb orb].
  fold (post_analytics_array st). rewrite stored_posts.
  cbn [array_of mbind res_bind].
  rewrite (findIndex_position urn xs 0 stored_nonnull). cbn [mbind res_bind].
  rewrite position_existsb.
  assert (Hm : match (fun n => (n + 0)%nat) <$> position (has_activityUrn urn) xs with
               | Some i => <[i := merge_record now (default VUndef (xs !! i)) newData]> xs
               | None =>
                   xs ++ [VObj (set_field "lastUpdated" (VStr now)
                                  (set_field "firstCaptured" (VStr now)
                                             (spread newData [])))]
               end = merged).
  { subst merged. cbv zeta. destruct (position _ xs) as [i|]; cbn; [|reflexivity].
    now rewrite Nat.add_0_r. }
  rewrite Hm. fold cmp. fold ps.
  rewrite (sum_prop_nonnull "impressions" ps analytics_ps_nonnull).
  cbn [mbind res_bind mret res_ret try_catch].
  eexists. split.
  - f_equal. do 4 f_equal.
    destruct (position (has_activityUrn urn) xs); reflexivity.
  - repeat split.
Qed.

Lemma analytics_keys_merged :
  distinct_keys (map activityUrn xs) = true ->
  distinct_keys (map activityUrn merged) = true.
Proof.
  intros Hd. subst merged. cbv zeta.
  destruct (truthy_prop_obj newData "activityUrn" urn_truthy) as [fs Hfs]; [discriminate|].
  destruct (position (has_activityUrn urn) xs) as [i|] eqn:Hpos.
  - apply position_Some in Hpos as (x & Hx & Hurn).
    rewrite Hx. cbn [default].
    replace (map activityUrn (<[i := merge_record now x newData]> xs))
      with (map activityUrn xs); [exact Hd|].
    rewrite list_fmap_insert. symmetry. apply list_insert_id.
    rewrite list_lookup_fmap, Hx. cbn. f_equal.
    apply same_value_zero_eq in Hurn. rewrite Hurn. subst urn. rewrite Hfs.
    unfold activityUrn. symmetry.
    apply (merge_record_fields now x fs "activityUrn"); [discriminate|].
    apply has_field_true_get_field.
    unfold activityUrn in urn_truthy. rewrite Hfs, prop_opt_obj in urn_truthy.
    destruct (get_field "activityUrn" fs); [eauto|discriminate urn_truthy].
  - rewrite map_app. cbn [map].
    assert (Hu : activityUrn (VObj (set_field "lastUpdated" (VStr now)
                                      (set_field "firstCaptured" (VStr now)
                                                 (spread newData [])))) = urn).
    { unfold activityUrn. rewrite prop_opt_obj, !get_field_set_field.
      cbn [String.eqb Ascii.eqb Bool.eqb]. rewrite get_field_spread_any.
      subst urn. unfold activityUrn. rewrite Hfs. reflexivity. }
    rewrite Hu. apply distinct_keys_app; [exact Hd|].
    pose proof (position_existsb (has_activityUrn urn) xs) as Hex.
    rewrite Hpos in Hex. cbn in Hex.
    rewrite <- Hex. clear. induction xs as [|y ys IH]; [reflexivity|].
    cbn. now rewrite IH.
Qed.

Lemma analytics_length_merged :
  length merged
  = (length xs + if existsb (has_activityUrn urn) xs then 0 else 1)%nat.
Proof.
  subst merged. cbv zeta. rewrite position_existsb.
  destruct (position _ xs) as [i|]; cbn [bool_decide].
  - rewrite length_insert. cbn. lia.
  - rewrite length_app. reflexivity.
Qed.

End PostAnalytics.

(** X12. Post analytics with a truthy [activityUrn], saved over stored
    posts that hold no [null], are stored ranked by [impressions], highest
    first, cut to 100; the stored [totalCount] and the one of the response
    are the number of posts stored, and [stats.totalImpressions] is the sum
    of their [impressions]. *)
Theorem post_analytics_ranked mean (now : string) (newData : value) (st : store)
        (xs : list value) :
  truthy (activityUrn newData) = true ->
  post_analytics_array st = VArr xs ->
  Forall nonnull xs ->
  exists ps data r,
    savePostAnalyticsToStorage mean now newData st = (r, <[POST_ANALYTICS_DATA := data]> st) /\
    prop_opt r "success" = VBool true /\
    prop_opt r "totalCount" = len ps /\
    prop_opt data "posts" = VArr ps /\
    ranked impressions ps /\
    (length ps <= 100)%nat /\
    prop_opt data "totalCount" = len ps /\
    prop_opt (prop_opt data "stats") "totalImpressions" = VNum (sum_by impressions ps).
Proof.
  intros Hurn Hxs Hnn.
  destruct (savePostAnalyticsToStorage_run mean now newData st xs Hurn Hxs Hnn)
    as (data & Hrun & Hposts & Hcount & Hsum & _).
  set (ps := take 100 _) in *.
  exists ps, data. eexists. split; [exact Hrun|].
  split; [reflexivity|]. split; [reflexivity|]. split; [exact Hposts|].
  split; [|split; [apply length_take_le|split; assumption]].
  apply (ranked_take impressions), (sort_by_ranked impressions). reflexivity.
Qed.

Lemma post_analytics_ranked_witness :
  exists ps data r,
    savePostAnalyticsToStorage mean0 "t1" analytics_new analytics_st
    = (r, <[POST_ANALYTICS_DATA := data]> analytics_st) /\
    prop_opt r "success" = VBool true /\
    prop_opt r "totalCount" = len ps /\
    prop_opt data "posts" = VArr ps /\
    ranked impressions ps /\
    (length ps <= 100)%nat /\
    prop_opt data "totalCount" = len ps /\
    prop_opt (prop_opt data "stats") "totalImpressions" = VNum (sum_by impressions ps).
Proof.
  apply (post_analytics_ranked mean0 "t1" analytics_new analytics_st
           [analytics_other; analytics_old]).
  - reflexivity.
  - vm_compute. reflexivity.
  - repeat constructor.
Defined.

(** X13. Post analytics are kept one record per [activityUrn]: [isUpdate]
    tells whether a stored post had the [activityUrn] of the payload; if
    so the first such post is merged with the payload where it stands and
    the number of posts does not change, otherwise one post is added; and
    stored posts whose [activityUrn]s are pairwise different stay so. *)
Theorem post_analytics_one_record_per_urn mean (now : string) (newData : value)
        (st : store) (xs : list value) :
  truthy (activityUrn newData) = true ->
  post_analytics_array st = VArr xs ->
  Forall nonnull xs ->
  let known := existsb (has_activityUrn (activityUrn newData)) xs in
  exists ps data r,
    savePostAnalyticsToStorage mean now newData st = (r, <[POST_ANALYTICS_DATA := data]> st) /\
    prop_opt r "isUpdate" = VBool known /\
    prop_opt data "posts" = VArr ps /\
    length ps = Nat.min (length xs + if known then 0 else 1) 100 /\
    (distinct_keys (map activityUrn xs) = true ->
     distinct_keys (map activityUrn ps) = true).
Proof.
  intros Hurn Hxs Hnn known.
  destruct (savePostAnalyticsToStorage_run mean now newData st xs Hurn Hxs Hnn)
    as (data & Hrun & Hposts & _).
  pose proof (analytics_length_merged now newData xs) as Hlen.
  pose proof (analytics_keys_merged now newData xs Hurn) as Hkeys.
  set (merged := match position _ xs with Some i => _ | None => _ end) in *.
  set (cmp := fun a b : value => impressions b - impressions a) in *.
  exists (take 100 (sort_by cmp merged)), data. eexists. split; [exact Hrun|].
  split; [reflexivity|]. split; [exact Hposts|]. split.
  - rewrite length_take, length_sort_by, Hlen. fold known. lia.
  - intros Hd. rewrite <- firstn_map. apply distinct_keys_take.
    rewrite (distinct_keys_perm _ (map activityUrn merged)); [now apply Hkeys|].
    apply Permutation_map, sort_by_perm.
Qed.

Lemma post_analytics_one_record_per_urn_witness :
  exists ps data r,
    savePostAnalyticsToStorage mean0 "t1" analytics_new analytics_st
    = (r, <[POST_ANALYTICS_DATA := data]> analytics_st) /\
    prop_opt r "isUpdate" = VBool true /\
    prop_opt data "posts" = VArr ps /\
    length ps = 2%nat /\
    (distinct_keys (map activityUrn [analytics_other; analytics_old]) = true ->
     distinct_keys (map activityUrn ps) = true).
Proof.
  apply (post_analytics_one_record_per_urn mean0 "t1" analytics_new analytics_st
           [analytics_other; analytics_old]).
  - reflexivity.
  - vm_compute. reflexivity.
  - repeat constructor.
Defined.

(** ** Followers *)

(** X14. A payload with a truthy [followerCount], saved over a stored
    followers object (or none) whose [history] is an array (or absent):
    when the operation succeeds the count is the last entry of [history],
    with the time of the call, behind the earlier entries in their order,
    of which the oldest are dropped beyond 100; the stored [followerCount]
    and the one of the response are the new count.  It succeeds whenever
    the payload brings no non-empty [followers] list. *)
Theorem followers_count_recorded (now : string) (newData : value) (st : store)
        (efs : list (string * value)) (hs : list value) :
  let c := prop_opt newData "followerCount" in
  truthy c = true ->
  followers_data st = VObj efs ->
  js_or (prop_opt (VObj efs) "history") (VArr []) = VArr hs ->
  let r := saveFollowersToStorage now newData st in
  (prop_opt r.1 "success" = VBool true ->
   prop_opt (followers_data r.2) "history"
   = VArr (drop (length hs + 1 - 100) hs
           ++ [VObj [("count", c); ("timestamp", VStr now)]]) /\
   prop_opt (followers_data r.2) "followerCount" = c /\
   prop_opt r.1 "followerCount" = c) /\
  (truthy (prop_opt newData "followers")
   && js_gt (prop_opt (prop_opt newData "followers") "length") 0 = false ->
   prop_opt r.1 "success" = VBool true).
Proof.
  intros c Hc He0 Hhs r. subst r.
  assert (Hnew : truthy newData = true).
  { destruct (truthy_prop_obj newData "followerCount" Hc) as [fs ->];
      [discriminate|reflexivity]. }
  unfold saveFollowersToStorage, try_catch. rewrite Hnew. cbn [negb].
  fold followers_default. fold (followers_data st). fold c. rewrite Hc, He0, Hhs.
  cbn [array_of mbind res_bind mret res_ret].
  rewrite slice_last_snoc by lia.
  set (entry := VObj [("count", c); ("timestamp", VStr now)]).
  set (history := VArr (drop (length hs + 1 - 100) hs ++ [entry])).
  set (e1 := assign (assign (VObj efs) "history" history) "followerCount" c).
  set (fl := prop_opt newData "followers").
  assert (He1 : forall e2 : value,
             (exists v, e2 = assign e1 "followers" v) \/ e2 = e1 ->
             let st' := <[FOLLOWERS := assign e2 "lastUpdated" (VStr now)]> st in
             prop_opt (followers_data st') "history" = history /\
             prop_opt (followers_data st') "followerCount" = c /\
             prop_opt (assign e2 "lastUpdated" (VStr now)) "followerCount" = c).
  { intros e2 He2 st'. subst st'.
    rewrite followers_data_insert
      by (rewrite truthy_assign; destruct He2 as [[v ->]| ->]; reflexivity).
    destruct He2 as [[v ->]| ->]; subst e1; cbn [assign]; rewrite ?prop_opt_obj;
      repeat (rewrite get_field_set_field; cbn [String.eqb Ascii.eqb Bool.eqb andb]);
      cbn [default]; repeat split; reflexivity. }
  destruct (truthy fl && js_gt (prop_opt fl "length") 0) eqn:Hlist.
  - split; [|discriminate].
    destruct (array_of "forEach" _) as [xs|msg]; cbn [mbind res_bind mret res_ret fst snd];
      [|discriminate].
    destruct (index_by "entityUrn" xs []) as [m|msg];
      cbn [mbind res_bind mret res_ret fst snd]; [|discriminate].
    destruct (array_of _ fl) as [ys|msg]; cbn [mbind res_bind mret res_ret fst snd];
      [|discriminate].
    destruct (index_by "entityUrn" ys m) as [m'|msg];
      cbn [mbind res_bind mret res_ret fst snd]; [|discriminate].
    intros _. apply He1. left. eauto.
  - cbn [mbind res_bind mret res_ret fst snd]. split; [|reflexivity].
    intros _. apply He1. now right.
Qed.

Lemma followers_count_recorded_witness :
  let r := saveFollowersToStorage "t1" (VObj [("followerCount", VNum 9)]) followers_st in
  prop_opt (followers_data r.2) "history"
  = VArr [VObj [("count", VNum 7); ("timestamp", VStr "t0")];
          VObj [("count", VNum 9); ("timestamp", VStr "t1")]] /\
  prop_opt (followers_data r.2) "followerCount" = VNum 9 /\
  prop_opt r.1 "followerCount" = VNum 9.
Proof.
  destruct (followers_count_recorded "t1" (VObj [("followerCount", VNum 9)]) followers_st
              (fields_of (followers_data followers_st))
              [VObj [("count", VNum 7); ("timestamp", VStr "t0")]])
    as [H _]; [reflexivity|vm_compute; reflexivity|vm_compute; reflexivity|].
  apply H. vm_compute. reflexivity.
Defined.

Lemma keyed_values (key : string) (m : jsmap) :
  keyed key m ->
  Forall (fun f => truthy (prop_opt f key) = true) (map_values m) /\
  map (fun f => prop_opt f key) (map_values m) = map fst m.
Proof.
  unfold keyed, map_values. induction 1 as [|[k v] m [Hk Ht] _ [IH1 IH2]]; cbn.
  - split; [constructor|reflexivity].
  - cbn in Hk, Ht. split; [constructor; [now rewrite Hk|exact IH1]|].
    now rewrite Hk, IH2.
Qed.

(** X15. When a payload brings a non-empty [followers] list and the
    operation succeeds, the stored followers are those of the
    deduplication Map, cut to 500: every one has a truthy [entityUrn], no
    two have the same, a stored follower without [entityUrn] is gone, and
    [count] in the response is their number. *)
Theorem followers_list_deduplicated (now : string) (newData : value) (st : store)
        (efs : list (string * value)) (y : value) (ys : list value) :
  followers_data st = VObj efs ->
  prop_opt newData "followers" = VArr (y :: ys) ->
  let r := saveFollowersToStorage now newData st in
  prop_opt r.1 "success" = VBool true ->
  exists fl,
    prop_opt (followers_data r.2) "followers" = VArr fl /\
    Forall (fun f => truthy (prop_opt f "entityUrn") = true) fl /\
    distinct_keys (map (fun f => prop_opt f "entityUrn") fl) = true /\
    (length fl <= 500)%nat /\
    prop_opt r.1 "count" = len fl.
Proof.
  intros He0 Hfl r. subst r.
  assert (Hnew : truthy newData = true).
  { destruct (truthy_prop_obj newData "followers") as [fs ->];
      [now rewrite Hfl|discriminate|reflexivity]. }
  unfold saveFollowersToStorage, try_catch. rewrite Hnew. cbn [negb].
  fold followers_default. fold (followers_data st). rewrite He0.
  set (e1 := (if truthy (prop_opt newData "followerCount") then _ else _)).
  assert (He1 : (exists msg, e1 = Throw msg) \/ exists fs1, e1 = Ok (VObj fs1)).
  { subst e1. destruct (truthy (prop_opt newData "followerCount")); [|right; eauto].
    destruct (array_of "history.push" _) as [hs|msg]; cbn [mbind res_bind mret res_ret];
      [right|left]; eauto. }
  destruct He1 as [[msg ->]|[fs1 ->]]; cbn [mbind res_bind fst snd]; [discriminate|].
  rewrite Hfl. cbn [truthy andb].
  assert (js_gt (prop_opt (VArr (y :: ys)) "length") 0 = true) as ->
    by (cbn; apply Z.ltb_lt; lia).
  destruct (array_of "forEach" _) as [xs|msg]; cbn [mbind res_bind mret res_ret fst snd];
    [|discriminate].
  destruct (index_by "entityUrn" xs []) as [m|msg] eqn:Hm;
    cbn [array_of mbind res_bind mret res_ret fst snd]; [|discriminate].
  destruct (index_by "entityUrn" (y :: ys) m) as [m'|msg] eqn:Hm';
    cbn [mbind res_bind mret res_ret fst snd]; [|discriminate].
  intros _.
  destruct (index_by_keyed _ _ _ Hm) as [Hk Hd].
  apply index_by_upsert in Hm' as ->.
  set (m' := upsert_all "entityUrn" take_incoming (y :: ys) m).
  assert (Hk' : keyed "entityUrn" m')
    by (apply keyed_upsert_all; [apply take_incoming_key|exact Hk]).
  assert (Hd' : distinct_keys (map fst m') = true) by now apply distinct_keys_upsert_all.
  destruct (keyed_values _ _ Hk') as [Hvals Hkeys].
  exists (take 500 (map_values m')).
  rewrite followers_data_insert by reflexivity.
  cbn [assign]. rewrite !prop_opt_obj.
  repeat (rewrite get_field_set_field; cbn [String.eqb Ascii.eqb Bool.eqb andb]).
  cbn [default]. split; [reflexivity|]. split; [now apply Forall_take|].
  split; [|split; [apply length_take_le|]].
  - rewrite <- firstn_map, Hkeys. now apply distinct_keys_take.
  - unfold len. destruct (take 500 (map_values m')) as [|f fl]; reflexivity.
Qed.

Lemma followers_list_deduplicated_witness :
  let r := saveFollowersToStorage "t1" followers_nd followers_st in
  exists fl,
    prop_opt (followers_data r.2) "followers" = VArr fl /\
    Forall (fun f => truthy (prop_opt f "entityUrn") = true) fl /\
    distinct_keys (map (fun f => prop_opt f "entityUrn") fl) = true /\
    (length fl <= 500)%nat /\
    prop_opt r.1 "count" = len fl.
Proof.
  apply (followers_list_deduplicated "t1" followers_nd followers_st
           (fields_of (followers_data followers_st))
           (VObj [("entityUrn", VStr "f2"); ("name", VStr "B")]) []).
  - vm_compute. reflexivity.
  - reflexivity.
  - vm_compute. reflexivity.
Defined.

(** ** Feed posts are written once *)

(** X16. After one successful save of a non-empty batch of feed posts,
    every later save of a non-empty batch, at any time, answers
    [allPosts.forEach is not a function] and leaves the storage as it is:
    the operation reads back as an array the object it stored, so the feed
    collection is written once and never merged into. *)
Theorem feed_collection_written_once (now : string) (ps : list value) (st : store) :
  let r1 := saveFeedPostsToStorage now (VArr ps) st in
  prop_opt r1.1 "success" = VBool true -> ps <> [] ->
  (forall now' p' ps',
      saveFeedPostsToStorage now' (VArr (p' :: ps')) r1.2
      = (failure "allPosts.forEach is not a function", r1.2)) /\
  (forall later : list (string * (value * list value)),
      fold_left (fun s b => (saveFeedPostsToStorage b.1 (VArr (b.2.1 :: b.2.2)) s).2)
                later r1.2
      = r1.2).
Proof.
  intros r1 Hok Hne. destruct ps as [|p ps]; [congruence|]. subst r1.
  assert (Hobj : exists fs,
             stored FEED_POSTS (saveFeedPostsToStorage now (VArr (p :: ps)) st).2 = VObj fs).
  { destruct (saveFeedPostsToStorage_cases now p ps st) as [[msg H]|(resp & fs & H)];
      rewrite H in *; cbn [fst snd] in *; [discriminate Hok|].
    exists fs. now apply stored_insert_same. }
  destruct Hobj as [fs Hfs].
  assert (Hstep : forall now' p' ps',
             saveFeedPostsToStorage now' (VArr (p' :: ps'))
                                    (saveFeedPostsToStorage now (VArr (p :: ps)) st).2
             = (failure "allPosts.forEach is not a function",
                (saveFeedPostsToStorage now (VArr (p :: ps)) st).2))
    by (intros; now apply (feed_save_over_object _ _ _ _ fs)).
  split; [exact Hstep|].
  induction later as [|b later IH]; [reflexivity|].
  cbn [fold_left]. rewrite Hstep. exact IH.
Qed.

Lemma feed_collection_written_once_witness :
  let r1 := saveFeedPostsToStorage "t1" (VArr [my_post_old]) ∅ in
  saveFeedPostsToStorage "t2" (VArr [my_post_new]) r1.2
  = (failure "allPosts.forEach is not a function", r1.2).
Proof.
  destruct (feed_collection_written_once "t1" [my_post_old] ∅) as [H _];
    [reflexivity|discriminate|].
  apply H.
Defined.

(** * The direct API client *)

Import ApiClient.

Lemma fetchLinkedInAPI_logged_out (e : env) net (endpoint : string) (n : nat) :
  prop_opt (getLinkedInCookies e) "isAuthenticated" = VBool false ->
  fetchLinkedInAPI e net endpoint n = (failure "Not authenticated", n).
Proof. intros H. unfold fetchLinkedInAPI. now rewrite H. Qed.

Lemma fetchConnectionsSummary_failed (e : env) net (n : nat) :
  truthy (prop_opt (fetchLinkedInAPI e net "/voyager/api/relationships/connectionsSummary" n).1
                   "success") = false ->
  fetchConnectionsSummary e net n
  = fetchLinkedInAPI e net "/voyager/api/relationships/connectionsSummary" n.
Proof. intros H. unfold fetchConnectionsSummary. now rewrite H. Qed.

(** X17. [fetchAnalytics] stores and answers a record even when it learns
    nothing: when the request for the WVMP cards and the request for the
    connections summary both fail, it overwrites the stored analytics with
    [{extractedAt, source}] alone and answers [success: true] with that
    record.  Without the [li_at] cookie this is what it does, and it sends
    no request. *)
Theorem fetchAnalytics_overwrites_on_failure (e : env) net (st : store) (n : nat) :
  let blank := VObj [("extractedAt", VStr (now e)); ("source", VStr "direct_api")] in
  let w := fetchLinkedInAPI e net "/voyager/api/identity/wvmpCards" n in
  let c := fetchLinkedInAPI e net "/voyager/api/relationships/connectionsSummary" w.2 in
  (truthy (prop_opt w.1 "success") = false -> truthy (prop_opt c.1 "success") = false ->
   fetchAnalytics e net st n
   = Ok (VObj [("success", VBool true); ("data", blank)],
         <[ANALYTICS_DATA := blank]> st, c.2)) /\
  (prop_opt (getLinkedInCookies e) "isAuthenticated" = VBool false ->
   fetchAnalytics e net st n
   = Ok (VObj [("success", VBool true); ("data", blank)],
         <[ANALYTICS_DATA := blank]> st, n)).
Proof.
  intros blank w c.
  assert (Hfail : truthy (prop_opt w.1 "success") = false ->
                  truthy (prop_opt c.1 "success") = false ->
                  fetchAnalytics e net st n
                  = Ok (VObj [("success", VBool true); ("data", blank)],
                        <[ANALYTICS_DATA := blank]> st, c.2)).
  { intros Hw Hc. unfold fetchAnalytics. fold w. rewrite Hw. cbn [andb mbind res_bind mret res_ret].
    rewrite (fetchConnectionsSummary_failed e net w.2 Hc). fold c. rewrite Hc.
    reflexivity. }
  split; [exact Hfail|].
  intros Hout. subst w c.
  rewrite Hfail; rewrite ?(fetchLinkedInAPI_logged_out e net _ _ Hout); reflexivity.
Qed.

(** X18. [fetchMyProfile] stores nothing unless its second request for
    [/voyager/api/me] succeeds: when that request fails and extracting the
    member URN has not raised, it answers the failure of the request as it
    is and leaves the storage untouched, without asking for the
    connections summary.  Without the [li_at] cookie it answers [Not
    authenticated] and sends no request. *)
Theorem fetchMyProfile_failure_stores_nothing (e : env) net (st : store) (n : nat) :
  (forall memberData n1,
      fetchMemberUrn e net n = Ok (memberData, n1) ->
      let r := fetchLinkedInAPI e net "/voyager/api/me" n1 in
      truthy (prop_opt r.1 "success") = false ->
      fetchMyProfile e net st n = Ok (r.1, st, r.2)) /\
  (prop_opt (getLinkedInCookies e) "isAuthenticated" = VBool false ->
   fetchMyProfile e net st n = Ok (failure "Not authenticated", st, n)).
Proof.
  assert (Hfail : forall memberData n1,
             fetchMemberUrn e net n = Ok (memberData, n1) ->
             let r := fetchLinkedInAPI e net "/voyager/api/me" n1 in
             truthy (prop_opt r.1 "success") = false ->
             fetchMyProfile e net st n = Ok (r.1, st, r.2)).
  { intros memberData n1 Hm r Hr. unfold fetchMyProfile. rewrite Hm.
    cbn [mbind res_bind fst snd]. fold r. now rewrite Hr. }
  split; [exact Hfail|].
  intros Hout.
  assert (Hm : fetchMemberUrn e net n = Ok (failure "Could not get member URN", n)).
  { unfold fetchMemberUrn. now rewrite (fetchLinkedInAPI_logged_out e net _ _ Hout). }
  rewrite (Hfail _ _ Hm); rewrite (fetchLinkedInAPI_logged_out e net _ _ Hout); reflexivity.
Qed.

(** *** All connections *)

Section Paging.

Variable e : env.
Variable fetchConnections : Z -> res page.

Lemma collect_done (fuel : nat) (maxConnections : Z) (allConnections : list value)
      (start : Z) :
  maxConnections <= Z.of_nat (length allConnections) ->
  collect fetchConnections fuel maxConnections allConnections start
  = Ok (Some allConnections).
Proof.
  intros H. destruct fuel; cbn [collect];
    destruct (Z.ltb_spec (Z.of_nat (length allConnections)) maxConnections); try lia;
    reflexivity.
Qed.

(** X19. [fetchAllConnections] stores and answers a list even when it has
    none: when the first page fails (or [maxConnections] is not positive,
    and then no page is asked for) it overwrites the stored connections
    with an empty list and answers [success: true] with
    [totalConnections: 0]. *)
Theorem fetchAllConnections_overwrites_on_failure (fuel : nat) (maxConnections : Z)
        (st : store) :
  let blank :=
    VObj [("extractedAt", VStr (now e)); ("source", VStr "direct_api");
          ("totalConnections", VNum 0); ("fetchedConnections", VNum 0);
          ("connections", VArr [])] in
  let answer :=
    Ok (Some (VObj [("success", VBool true); ("data", blank);
                    ("totalConnections", VNum 0); ("fetchedConnections", VNum 0)],
              <[CONNECTIONS_DATA := blank]> st)) in
  (forall result,
      fetchConnections 0 = Ok (NoPage result) ->
      fetchAllConnections e fetchConnections (S fuel) maxConnections st = answer) /\
  (maxConnections <= 0 ->
   fetchAllConnections e fetchConnections fuel maxConnections st = answer).
Proof.
  intros blank answer. split.
  - intros result Hpage. unfold fetchAllConnections. cbn [collect length].
    destruct (Z.of_nat 0 <? maxConnections); cbn [negb mbind res_bind mret res_ret];
      [rewrite Hpage|]; reflexivity.
  - intros Hmax. unfold fetchAllConnections.
    rewrite collect_done by (cbn; lia). reflexivity.
Qed.

End Paging.

Lemma fetchAnalytics_overwrites_on_failure_witness :
  fetchAnalytics env0 net_down my_posts_st 0
  = Ok (VObj [("success", VBool true);
              ("data", VObj [("extractedAt", VStr (now env0));
                             ("source", VStr "direct_api")])],
        <[ANALYTICS_DATA := VObj [("extractedAt", VStr (now env0));
                                  ("source", VStr "direct_api")]]> my_posts_st, 0%nat).
Proof.
  destruct (fetchAnalytics_overwrites_on_failure env0 net_down my_posts_st 0) as [_ H].
  apply H. reflexivity.
Defined.

Lemma fetchMyProfile_failure_stores_nothing_witness :
  fetchMyProfile env0 net_down my_posts_st 0
  = Ok (failure "Not authenticated", my_posts_st, 0%nat).
Proof.
  destruct (fetchMyProfile_failure_stores_nothing env0 net_down my_posts_st 0) as [_ H].
  apply H. reflexivity.
Defined.

Lemma fetchAllConnections_overwrites_on_failure_witness :
  exists blank,
    fetchAllConnections env0 no_page 1 500 my_posts_st
    = Ok (Some (VObj [("success", VBool true); ("data", blank);
                      ("totalConnections", VNum 0); ("fetchedConnections", VNum 0)],
                <[CONNECTIONS_DATA := blank]> my_posts_st)) /\
    prop_opt blank "connections" = VArr [].
Proof.
  eexists. split.
  - destruct (fetchAllConnections_overwrites_on_failure env0 no_page 0 500 my_posts_st)
      as [H _].
    apply (H (failure "Not authenticated")). reflexivity.
  - reflexivity.
Defined.

Section Pages.

Variable fetchConnections : Z -> res page.

Lemma existingIds_spec (cs : list value) (ids0 ids : list value) :
  foldM (fun ids c => id ← connectionId c; mret (ids ++ [id])) cs ids0 = Ok ids ->
  forall d id', In d cs -> connectionId d = Ok id' -> In id' ids.
Proof.
  revert ids0. induction cs as [|c cs IH]; intros ids0; cbn [foldM]; [intros _ d id' []|].
  destruct (connectionId c) as [id|msg] eqn:Hid; cbn [mbind res_bind mret res_ret];
    [|discriminate].
  intros H d id' [<-|Hin] Hd.
  - assert (id' = id) as -> by congruence. clear -H.
    assert (Hmono : forall cs ids0 ids x,
               foldM (fun ids c => id ← connectionId c; mret (ids ++ [id])) cs ids0 = Ok ids ->
               In x ids0 -> In x ids).
    { clear. induction cs as [|c cs IH]; intros ids0 ids x; cbn [foldM].
      - now intros [= <-].
      - destruct (connectionId c); cbn [mbind res_bind mret res_ret]; [|discriminate].
        intros H Hx. apply (IH _ _ _ H). apply in_or_app. now left. }
    apply (Hmono _ _ _ _ H). apply in_or_app. right. now left.
  - now apply (IH _ H d id').
Qed.

Lemma newConnections_spec (ids batch acc0 acc : list value) :
  foldM (fun acc c =>
           id ← connectionId c;
           mret (if truthy id && negb (existsb (same_value_zero id) ids)
                 then acc ++ [c] else acc))
        batch acc0 = Ok acc ->
  exists new,
    acc = acc0 ++ new /\
    Forall (fun c => exists id, connectionId c = Ok id /\ truthy id = true /\
                                existsb (same_value_zero id) ids = false) new.
Proof.
  revert acc0. induction batch as [|c batch IH]; intros acc0; cbn [foldM].
  - intros [= <-]. exists []. split; [now rewrite app_nil_r|constructor].
  - destruct (connectionId c) as [id|msg] eqn:Hid; cbn [mbind res_bind mret res_ret];
      [|discriminate].
    destruct (truthy id) eqn:Ht; cbn [andb]; [|apply IH].
    destruct (existsb (same_value_zero id) ids) eqn:Hex; cbn [negb]; [apply IH|].
    intros H. apply IH in H as (new & -> & Hnew).
    exists (c :: new). split; [now rewrite <- app_assoc|].
    constructor; [eauto|exact Hnew].
Qed.

(** X20. From any state of the loop, what [fetchAllConnections] has
    collected when it ends is what it had, in order, followed by what the
    pages added; and every connection added has a truthy identifier
    ([publicIdentifier || entityUrn || connectionUrn]) that no connection
    collected from an earlier page has. *)
Theorem collected_connections_are_fresh (fuel : nat) (maxConnections : Z)
        (known : list value) (start : Z) (allConnections : list value) :
  collect fetchConnections fuel maxConnections known start = Ok (Some allConnections) ->
  exists added,
    allConnections = known ++ added /\
    exists pages : list (list value),
      added = concat pages /\
      forall before page after,
        pages = before ++ page :: after ->
        Forall (fresh_connection (known ++ concat before)) page.
Proof.
  revert known start. induction fuel as [|fuel IH]; intros known start; cbn [collect].
  - destruct (Z.of_nat (length known) <? maxConnections); cbn [negb]; [discriminate|].
    intros [= <-]. exists []. split; [now rewrite app_nil_r|].
    exists []. split; [reflexivity|]. intros [|? ?] ? ?; discriminate.
  - destruct (Z.of_nat (length known) <? maxConnections); cbn [negb].
    2:{ intros [= <-]. exists []. split; [now rewrite app_nil_r|].
        exists []. split; [reflexivity|]. intros [|? ?] ? ?; discriminate. }
    destruct (fetchConnections start) as [[result|batch raw]|msg];
      cbn [mbind res_bind mret res_ret]; [|  |discriminate].
    { intros [= <-]. exists []. split; [now rewrite app_nil_r|].
      exists []. split; [reflexivity|]. intros [|? ?] ? ?; discriminate. }
    destruct (foldM _ known []) as [ids|msg] eqn:Hids; cbn [mbind res_bind mret res_ret];
      [|discriminate].
    destruct (foldM _ batch []) as [new|msg] eqn:Hnew; cbn [mbind res_bind mret res_ret];
      [|discriminate].
    apply newConnections_spec in Hnew as (new' & Hnew' & Hfresh). cbn in Hnew'. subst new'.
    assert (Hpage : Forall (fresh_connection known) new).
    { eapply Forall_impl; [exact Hfresh|]. cbn. intros c (id & Hid & Ht & Hex).
      exists id. split; [exact Hid|]. split; [exact Ht|].
      intros d id' Hd Hid'. apply (existsb_false_in _ _ _ Hex).
      now apply (existingIds_spec _ _ _ Hids d id'). }
    assert (Hone : exists pages : list (list value),
               new = concat pages /\
               forall before page after,
                 pages = before ++ page :: after ->
                 Forall (fresh_connection (known ++ concat before)) page).
    { exists [new]. split; [cbn; now rewrite app_nil_r|].
      intros [|b before] page after Heq.
      - injection Heq as <- _. cbn. now rewrite app_nil_r.
      - injection Heq as _ Heq. now destruct before. }
    destruct (_ <? 40).
    + intros [= <-]. exists new. split; [reflexivity|exact Hone].
    + intros H. apply IH in H as (added & -> & pages & -> & Hpages).
      exists (new ++ concat pages). split; [now rewrite app_assoc|].
      exists (new :: pages). split; [reflexivity|].
      intros [|b before] page after Heq.
      * injection Heq as <- _. cbn. now rewrite app_nil_r.
      * injection Heq as <- Heq. cbn [concat]. rewrite app_assoc.
        now apply (Hpages before page after).
Qed.

(** X21. The loop of [fetchAllConnections] has no bound of its own on the
    number of pages: against a server whose every page holds at least 40
    connection entities and no connection with a profile, it never ends,
    however many times round it is given. *)
Theorem fetchAllConnections_may_not_end (e : env) (maxConnections : Z) (st : store) :
  (forall start, exists raw, fetchConnections start = Ok (Page [] raw) /\ 40 <= raw) ->
  0 < maxConnections ->
  forall fuel, fetchAllConnections e fetchConnections fuel maxConnections st = Ok None.
Proof.
  intros Hpages Hmax fuel. unfold fetchAllConnections.
  assert (H : forall start, collect fetchConnections fuel maxConnections [] start = Ok None).
  { induction fuel as [|fuel IH]; intros start; cbn [collect length].
    - destruct (Z.ltb_spec (Z.of_nat 0) maxConnections); [reflexivity|lia].
    - destruct (Z.ltb_spec (Z.of_nat 0) maxConnections); [|lia]. cbn [negb].
      destruct (Hpages start) as (raw & -> & Hraw).
      cbn [mbind res_bind mret res_ret foldM app length].
      destruct (Z.eqb_spec raw 0); [lia|].
      destruct (Z.ltb_spec raw 40); [lia|]. apply IH. }
  now rewrite H.
Qed.

End Pages.

Lemma collected_connections_are_fresh_witness :
  collect two_pages 5 500 [] 0
  = Ok (Some [VObj [("publicIdentifier", VStr "ann")];
              VObj [("publicIdentifier", VStr "bob")];
              VObj [("entityUrn", VStr "urn:cy")]]) /\
  exists added,
    [VObj [("publicIdentifier", VStr "ann")]; VObj [("publicIdentifier", VStr "bob")];
     VObj [("entityUrn", VStr "urn:cy")]] = [] ++ added /\
    exists pages : list (list value),
      added = concat pages /\
      forall before page after,
        pages = before ++ page :: after ->
        Forall (fresh_connection ([] ++ concat before)) page.
Proof.
  split; [reflexivity|].
  apply (collected_connections_are_fresh two_pages 5 500 [] 0). reflexivity.
Defined.

Lemma fetchAllConnections_may_not_end_witness :
  fetchAllConnections env0 hollow_pages 1000 500 ∅ = Ok None.
Proof.
  apply (fetchAllConnections_may_not_end hollow_pages env0 500 ∅); [|lia].
  intros start. exists 40. split; [reflexivity|lia].
Defined.

(** *** Entities by kind *)

Lemma get_field_set_field_Some (k k' : string) (v w : value) (fs : list (string * value)) :
  get_field k' (set_field k v fs) = Some w ->
  (k' = k /\ w = v) \/ get_field k' fs = Some w.
Proof.
  rewrite get_field_set_field. destruct (String.eqb_spec k k'); [|now right].
  intros [= <-]. now left.
Qed.

Lemma js_includes_total (type : value) (k : string) (b : bool) :
  js_includes type k = Ok b -> forall k', exists b', js_includes type k' = Ok b'.
Proof. destruct type; cbn [js_includes]; try discriminate; eauto. Qed.

Lemma parseItem_Ok (result r : parsed) (item : value) :
  parseItem result item = Ok r ->
  exists ty, prop item "$type" = Ok ty /\
             forall k, js_includes (js_or ty (VStr "")) k = Ok (is_kind k item).
Proof.
  unfold parseItem. destruct (prop item "$type") as [ty|msg] eqn:Hty;
    cbn [mbind res_bind]; [|discriminate].
  destruct (js_includes (js_or ty (VStr "")) "Profile") as [b|msg] eqn:Hb;
    cbn [mbind res_bind]; [|discriminate].
  intros _. exists ty. split; [reflexivity|]. intros k.
  destruct (js_includes_total _ _ _ Hb k) as [b' Hb'].
  unfold is_kind. now rewrite Hty, Hb'.
Qed.

Lemma bind_if {A B} (b : bool) (x y : A) (k : A -> res B) :
  ((if b then Ok x else Ok y) ≫= k) = k (if b then x else y).
Proof. now destruct b. Qed.

Lemma parseItem_eq (result : parsed) (item : value) (ty : value) :
  prop item "$type" = Ok ty ->
  (forall k, js_includes (js_or ty (VStr "")) k = Ok (is_kind k item)) ->
  parseItem result item
  = Ok {| profiles :=
            if is_kind "Profile" item && negb (is_kind "MiniProfile" item)
            then set_field (entity_key item) item (profiles result)
            else profiles result;
          miniProfiles :=
            if is_kind "MiniProfile" item
            then set_field (entity_key item) item (miniProfiles result)
            else miniProfiles result;
          companies :=
            if is_kind "Company" item || is_kind "Organization" item
            then set_field (entity_key item) item (companies result)
            else companies result;
          connections :=
            if is_kind "Connection" item
            then connections result ++ [item] else connections result;
          posts :=
            if is_kind "Update" item || is_kind "Activity" item || is_kind "Share" item
            then posts result ++ [item] else posts result |}.
Proof.
  intros Hty Hk. unfold parseItem. rewrite Hty. cbn [mbind res_bind].
  rewrite !Hk. fold (entity_key item). cbn [mbind res_bind].
  rewrite !bind_if. cbn [mbind res_bind mret res_ret]. f_equal.
  destruct result as [ps ms cs ns os].
  destruct (is_kind "Profile" item), (is_kind "MiniProfile" item),
    (is_kind "Company" item), (is_kind "Organization" item),
    (is_kind "Connection" item), (is_kind "Update" item),
    (is_kind "Activity" item), (is_kind "Share" item); reflexivity.
Qed.

Lemma parseItem_sorted (seen : list value) (result r : parsed) (item : value) :
  sorted_by_kind seen result ->
  parseItem result item = Ok r ->
  sorted_by_kind (seen ++ [item]) r.
Proof.
  intros (Hp & Hm & Hc & Hn & Ho) H.
  destruct (parseItem_Ok _ _ _ H) as (ty & Hty & Hk).
  rewrite (parseItem_eq result item ty Hty Hk) in H. injection H as <-.
  unfold sorted_by_kind. cbn [profiles miniProfiles companies connections posts].
  rewrite !List.filter_app. cbn [List.filter]. rewrite Hn, Ho.
  repeat split.
  - destruct (is_kind "Profile" item) eqn:E1, (is_kind "MiniProfile" item) eqn:E2;
      cbn [andb negb] in H;
      try (apply Hp in H as (? & ? & ? & ?); apply in_or_app; now left).
    apply get_field_set_field_Some in H as [[_ ->]|H];
      [apply in_or_app; right; now left|].
    apply Hp in H as (? & ? & ? & ?); apply in_or_app; now left.
  - destruct (is_kind "Profile" item) eqn:E1, (is_kind "MiniProfile" item) eqn:E2;
      cbn [andb negb] in H; try (now apply Hp in H as (? & ? & ? & ?)).
    apply get_field_set_field_Some in H as [[-> ->]|H]; [reflexivity|].
    now apply Hp in H as (? & ? & ? & ?).
  - destruct (is_kind "Profile" item) eqn:E1, (is_kind "MiniProfile" item) eqn:E2;
      cbn [andb negb] in H; try (now apply Hp in H as (? & ? & ? & ?)).
    apply get_field_set_field_Some in H as [[_ ->]|H]; [exact E1|].
    now apply Hp in H as (? & ? & ? & ?).
  - destruct (is_kind "Profile" item) eqn:E1, (is_kind "MiniProfile" item) eqn:E2;
      cbn [andb negb] in H; try (now apply Hp in H as (? & ? & ? & ?)).
    apply get_field_set_field_Some in H as [[_ ->]|H]; [exact E2|].
    now apply Hp in H as (? & ? & ? & ?).
  - destruct (is_kind "MiniProfile" item) eqn:E2;
      [|apply Hm in H as (? & ? & ?); apply in_or_app; now left].
    apply get_field_set_field_Some in H as [[_ ->]|H];
      [apply in_or_app; right; now left|].
    apply Hm in H as (? & ? & ?); apply in_or_app; now left.
  - destruct (is_kind "MiniProfile" item) eqn:E2; [|now apply Hm in H as (? & ? & ?)].
    apply get_field_set_field_Some in H as [[-> ->]|H]; [reflexivity|].
    now apply Hm in H as (? & ? & ?).
  - destruct (is_kind "MiniProfile" item) eqn:E2; [|now apply Hm in H as (? & ? & ?)].
    apply get_field_set_field_Some in H as [[_ ->]|H]; [exact E2|].
    now apply Hm in H as (? & ? & ?).
  - destruct (is_kind "Company" item || is_kind "Organization" item) eqn:E;
      [|apply Hc in H as (? & ? & ?); apply in_or_app; now left].
    apply get_field_set_field_Some in H as [[_ ->]|H];
      [apply in_or_app; right; now left|].
    apply Hc in H as (? & ? & ?); apply in_or_app; now left.
  - destruct (is_kind "Company" item || is_kind "Organization" item) eqn:E;
      [|now apply Hc in H as (? & ? & ?)].
    apply get_field_set_field_Some in H as [[-> ->]|H]; [reflexivity|].
    now apply Hc in H as (? & ? & ?).
  - destruct (is_kind "Company" item || is_kind "Organization" item) eqn:E;
      [|now apply Hc in H as (? & ? & ?)].
    apply get_field_set_field_Some in H as [[_ ->]|H]; [exact E|].
    now apply Hc in H as (? & ? & ?).
  - destruct (is_kind "Connection" item); [reflexivity|now rewrite app_nil_r].
  - destruct (is_kind "Update" item || is_kind "Activity" item || is_kind "Share" item);
      [reflexivity|now rewrite app_nil_r].
Qed.

Lemma foldM_parseItem_sorted (items seen : list value) (result r : parsed) :
  sorted_by_kind seen result ->
  foldM parseItem items result = Ok r ->
  sorted_by_kind (seen ++ items) r.
Proof.
  revert seen result. induction items as [|item items IH]; intros seen result Hs; cbn [foldM].
  - intros [= <-]. now rewrite app_nil_r.
  - destruct (parseItem result item) as [r1|msg] eqn:H1; cbn [mbind res_bind];
      [|discriminate].
    intros H. replace (seen ++ item :: items) with ((seen ++ [item]) ++ items)
      by now rewrite <- app_assoc.
    apply (IH _ r1); [|exact H]. now apply (parseItem_sorted seen result).
Qed.

Lemma included_truthy (data : value) (items : list value) :
  prop_opt data "included" = VArr items -> truthy data = true.
Proof.
  intros Hinc. destruct data as [| |b|n|s|xs|fs]; try reflexivity; exfalso;
    vm_compute in Hinc; discriminate.
Qed.

(** X22. [parseLinkedInResponse] files the entities of [data.included] by
    what their [$type] contains: an entry of [profiles] is an entity of
    [included] under its own key ([entityUrn || '*miniProfile' || ''])
    whose type contains "Profile" and not "MiniProfile", so that a mini
    profile is never filed as a profile; an entry of [miniProfiles] or
    [companies] is likewise an entity of its kind; and [connections] and
    [posts] are exactly the entities of their kinds, in the order of
    [included]. *)
Theorem parseLinkedInResponse_by_kind (data : value) (items : list value) (r : parsed) :
  prop_opt data "included" = VArr items ->
  parseLinkedInResponse data = Ok r ->
  sorted_by_kind items r.
Proof.
  intros Hinc. unfold parseLinkedInResponse. rewrite Hinc.
  rewrite (included_truthy _ _ Hinc). cbn [negb]. apply (foldM_parseItem_sorted items [] parsed_empty).
  repeat split; cbn [parsed_empty profiles miniProfiles companies get_field]; discriminate.
Qed.

(** X23. [parseLinkedInResponse] has no guard on the entities themselves:
    a [null] among [included], or an entity whose [$type] is truthy and
    neither a string nor an array, makes it raise, and it raises whatever
    comes after that entity. *)
Theorem parseLinkedInResponse_raises (data : value) (before after : list value)
        (item : value) :
  prop_opt data "included" = VArr (before ++ item :: after) ->
  item = VNull \/ item = VUndef \/
  (exists fs n, item = VObj fs /\ get_field "$type" fs = Some (VNum n) /\ n <> 0) ->
  exists msg, parseLinkedInResponse data = Throw msg.
Proof.
  intros Hinc Hitem. unfold parseLinkedInResponse. rewrite Hinc.
  rewrite (included_truthy _ _ Hinc). cbn [negb].
  assert (Hthrow : forall result, exists msg, parseItem result item = Throw msg).
  { intros result. unfold parseItem.
    destruct Hitem as [->|[->|(fs & n & -> & Hfs & Hn)]];
      cbn [prop mbind res_bind]; eauto.
    rewrite Hfs. cbv [default id js_or truthy].
    destruct (Z.eqb_spec n 0); [contradiction|]. cbn [negb js_includes mbind res_bind].
    eauto. }
  clear Hinc. generalize parsed_empty. induction before as [|b before IH]; intros result;
    cbn [app foldM].
  - destruct (Hthrow result) as [msg ->]. cbn [mbind res_bind]. eauto.
  - destruct (parseItem result b) as [r1|msg]; cbn [mbind res_bind]; [apply IH|eauto].
Qed.

Lemma parseLinkedInResponse_by_kind_witness :
  sorted_by_kind
    [VObj [("$type", VStr "com.linkedin.voyager.identity.shared.MiniProfile");
           ("entityUrn", VStr "urn:m1")];
     VObj [("$type", VStr "com.linkedin.voyager.dash.identity.profile.Profile");
           ("entityUrn", VStr "urn:p1")]]
    {| profiles :=
         [("urn:p1",
           VObj [("$type", VStr "com.linkedin.voyager.dash.identity.profile.Profile");
                 ("entityUrn", VStr "urn:p1")])];
       miniProfiles :=
         [("urn:m1",
           VObj [("$type", VStr "com.linkedin.voyager.identity.shared.MiniProfile");
                 ("entityUrn", VStr "urn:m1")])];
       companies := []; connections := []; posts := [] |}.
Proof.
  apply (parseLinkedInResponse_by_kind included_example); vm_compute; reflexivity.
Defined.

Lemma parseLinkedInResponse_raises_witness :
  exists msg, parseLinkedInResponse included_broken = Throw msg.
Proof.
  apply (parseLinkedInResponse_raises included_broken
           [VObj [("$type", VStr "com.linkedin.voyager.relationships.shared.Connection");
                  ("entityUrn", VStr "urn:c1")]]
           [VObj [("$type", VStr "com.linkedin.voyager.feed.Update")]] VNull).
  - reflexivity.
  - now left.
Defined.

(** *** The authentication cookie *)

Lemma find_app_first {A} (f : A -> bool) (xs ys : list A) :
  find f (xs ++ ys) = match find f xs with Some x => Some x | None => find f ys end.
Proof. induction xs as [|x xs IH]; cbn [app find]; [reflexivity|now destruct (f x)]. Qed.

Lemma cookieMap_last (k : string) (cookies : list (string * string))
      (m : list (string * value)) :
  get_field k (fold_left (fun m c => set_field (fst c) (VStr (snd c)) m) cookies m)
  = match find (fun c => String.eqb (fst c) k) (rev cookies) with
    | Some c => Some (VStr (snd c))
    | None => get_field k m
    end.
Proof.
  revert m. induction cookies as [|c cookies IH]; intros m; cbn [fold_left rev find];
    [reflexivity|].
  rewrite IH, find_app_first.
  destruct (find (fun c => String.eqb (fst c) k) (rev cookies)); [reflexivity|].
  cbn [find]. rewrite get_field_set_field. now destruct (String.eqb (fst c) k).
Qed.

Lemma isAuthenticated_auth_cookie (e : env) (cookies : list (string * string)) :
  cookies_getAll e = Ok cookies ->
  prop_opt (getLinkedInCookies e) "isAuthenticated" = VBool (auth_cookie cookies).
Proof.
  intros H. unfold getLinkedInCookies. rewrite H, cookieMap_last. unfold auth_cookie.
  destruct (find _ (rev cookies)) as [c|]; reflexivity.
Qed.

(** X24. [fetchLinkedInAPI] makes a request exactly when the cookie jar
    holds an [li_at] cookie whose value, the last one where the jar has
    several of the name, is not empty.  Without it, and when the jar cannot
    be read, the answer is "Not authenticated" and nothing is sent. *)
Theorem request_needs_auth_cookie (e : env) (net : nat -> string -> res ApiClient.http)
        (endpoint : string) (n : nat) :
  let r := ApiClient.fetchLinkedInAPI e net endpoint n in
  match cookies_getAll e with
  | Ok cookies =>
      if auth_cookie cookies then r.2 = S n
      else r = (failure "Not authenticated", n)
  | Throw _ => r = (failure "Not authenticated", n)
  end.
Proof.
  cbv zeta. unfold ApiClient.fetchLinkedInAPI.
  destruct (cookies_getAll e) as [cookies|msg] eqn:H.
  - rewrite (isAuthenticated_auth_cookie e cookies H). cbn [truthy].
    destruct (auth_cookie cookies); cbn [negb]; [|reflexivity].
    destruct (net n endpoint) as [response|msg]; [|reflexivity].
    destruct (ApiClient.http_ok response); cbn [negb]; [|reflexivity].
    now destruct (ApiClient.http_json response).
  - unfold getLinkedInCookies. rewrite H. reflexivity.
Qed.
